(** * Prof Tournesol controller: a shallow embedding of
      [tournesol/controller/main.go] and the properties of its event
      router, source fetcher, remediation engine and publisher.

    Go values are modelled as follows: a [string] is Rocq's [string] read as
    a sequence of bytes, an [int], an [int64] and a [time.Duration] are [Z]
    with the 64-bit wrap-around written out where the program can reach it,
    [map[string]bool] and [map[string]string] are [gmap]s, a
    [map[string]string] reaches the code that only ranges over it as the
    list of its entries in the order of the range, and
    [map[string]interface{}] trees are the inductive [iface]. *)

From Stdlib Require Import ZArith String Ascii List Lia Bool DecimalString.
From Stdlib Require DecimalPos.
From stdpp Require Import gmap strings list fin_maps.

Open Scope string_scope.
Open Scope Z_scope.

(* ===================================================================== *)
(** * Part I. The embedding *)
(* ===================================================================== *)

(** ** Go's [strings] package, as far as the controller uses it *)

Module GoStrings.

Definition byte (n : nat) : ascii := ascii_of_nat n.

Definition nl : string := String (byte 10) EmptyString.
Definition tab : string := String (byte 9) EmptyString.

(** [len(s)] *)
Definition len (s : string) : Z := Z.of_nat (String.length s).

(** [s[n:]] and [s[:n]] *)
Fixpoint drop (n : nat) (s : string) : string :=
  match n, s with
  | S k, String _ s' => drop k s'
  | _, _ => s
  end.

Fixpoint take (n : nat) (s : string) : string :=
  match n, s with
  | S k, String c s' => String c (take k s')
  | _, _ => EmptyString
  end.

Fixpoint HasPrefix (s prefix : string) {struct prefix} : bool :=
  match prefix with
  | EmptyString => true
  | String p prefix' =>
      match s with
      | String c s' => if Ascii.eqb c p then HasPrefix s' prefix' else false
      | EmptyString => false
      end
  end.

Definition HasSuffix (s suffix : string) : bool :=
  (String.length suffix <=? String.length s)%nat &&
  String.eqb (drop (String.length s - String.length suffix) s) suffix.

(** [strings.Index]: the byte offset of the first occurrence, or -1. *)
Fixpoint IndexFrom (i : Z) (s substr : string) : Z :=
  if HasPrefix s substr then i
  else match s with
       | EmptyString => -1
       | String _ s' => IndexFrom (i + 1) s' substr
       end.

Definition Index (s substr : string) : Z := IndexFrom 0 s substr.

Definition Contains (s substr : string) : bool := 0 <=? Index s substr.

(** [strings.LastIndex]: the offset of the last occurrence, or -1. *)
Fixpoint LastIndexFrom (i : Z) (s substr : string) : Z :=
  match s with
  | EmptyString => if HasPrefix s substr then i else -1
  | String _ s' =>
      let later := LastIndexFrom (i + 1) s' substr in
      if 0 <=? later then later
      else if HasPrefix s substr then i else -1
  end.

Definition LastIndex (s substr : string) : Z := LastIndexFrom 0 s substr.

Definition TrimPrefix (s prefix : string) : string :=
  if HasPrefix s prefix then drop (String.length prefix) s else s.

(** [strings.SplitN(s, sep, 2)] for a non-empty [sep]: cut at the first
    occurrence, or the whole string when there is none. *)
Definition SplitN2 (s sep : string) : list string :=
  let i := Index s sep in
  if i <? 0 then [s]
  else [take (Z.to_nat i) s; drop (Z.to_nat i + String.length sep) s].

(** [strings.Split(s, sep)] for the one-byte separator the controller
    uses (a line feed). *)
Fixpoint Split (s : string) (sep : ascii) : list string :=
  match s with
  | EmptyString => [EmptyString]
  | String c s' =>
      if Ascii.eqb c sep then EmptyString :: Split s' sep
      else match Split s' sep with
           | l :: ls => String c l :: ls
           | [] => [String c EmptyString]
           end
  end.

Fixpoint Join (elems : list string) (sep : string) : string :=
  match elems with
  | [] => EmptyString
  | [x] => x
  | x :: rest => x ++ sep ++ Join rest sep
  end.

(** *** White space

    [strings.TrimSpace] removes leading and trailing runes for which
    [unicode.IsSpace] holds.  Besides the six ASCII ones these are U+0085,
    U+00A0, U+1680, U+2000..U+200A, U+2028, U+2029, U+202F, U+205F and
    U+3000, recognised here by their UTF-8 encodings.  Any other byte
    sequence, invalid UTF-8 included, decodes to a rune that is not white
    space and stops the trimming. *)

Definition isAsciiSpace (c : ascii) : bool :=
  let n := nat_of_ascii c in
  ((9 <=? n) && (n <=? 13) || (n =? 32))%nat.

(** a two-byte white-space rune: U+0085 or U+00A0 *)
Definition isSpace2 (b0 b1 : ascii) : bool :=
  let n0 := nat_of_ascii b0 in
  let n1 := nat_of_ascii b1 in
  ((n0 =? 194) && ((n1 =? 133) || (n1 =? 160)))%nat.

(** a three-byte white-space rune *)
Definition isSpace3 (b0 b1 b2 : ascii) : bool :=
  let n0 := nat_of_ascii b0 in
  let n1 := nat_of_ascii b1 in
  let n2 := nat_of_ascii b2 in
  ((n0 =? 225) && (n1 =? 154) && (n2 =? 128)
   || (n0 =? 226) && (n1 =? 128)
      && ((128 <=? n2) && (n2 <=? 138) || (n2 =? 168) || (n2 =? 169) || (n2 =? 175))
   || (n0 =? 226) && (n1 =? 129) && (n2 =? 159)
   || (n0 =? 227) && (n1 =? 128) && (n2 =? 128))%nat.

Fixpoint TrimLeftSpace (s : string) : string :=
  match s with
  | EmptyString => EmptyString
  | String b0 s1 =>
      if isAsciiSpace b0 then TrimLeftSpace s1
      else match s1 with
           | EmptyString => s
           | String b1 s2 =>
               if isSpace2 b0 b1 then TrimLeftSpace s2
               else match s2 with
                    | EmptyString => s
                    | String b2 s3 =>
                        if isSpace3 b0 b1 b2 then TrimLeftSpace s3 else s
                    end
           end
  end.

Fixpoint rev (s acc : string) : string :=
  match s with
  | EmptyString => acc
  | String c s' => rev s' (String c acc)
  end.

(** Trailing white space, read off the reversed string: the last byte
    first, so a multi-byte rune shows its bytes in reverse order. *)
Fixpoint TrimLeftSpaceRev (s : string) : string :=
  match s with
  | EmptyString => EmptyString
  | String b0 s1 =>
      if isAsciiSpace b0 then TrimLeftSpaceRev s1
      else match s1 with
           | EmptyString => s
           | String b1 s2 =>
               if isSpace2 b1 b0 then TrimLeftSpaceRev s2
               else match s2 with
                    | EmptyString => s
                    | String b2 s3 =>
                        if isSpace3 b2 b1 b0 then TrimLeftSpaceRev s3 else s
                    end
           end
  end.

Definition TrimRightSpace (s : string) : string :=
  rev (TrimLeftSpaceRev (rev s EmptyString)) EmptyString.

Definition TrimSpace (s : string) : string :=
  TrimRightSpace (TrimLeftSpace s).

(** *** Lower case

    [strings.ToLower] maps every rune through [unicode.ToLower].  The
    controller only searches the result for ASCII words, so what matters is
    which runes become ASCII letters: [A]..[Z], the Kelvin sign U+212A
    (to [k]) and U+0130 (to [i]).  Every other non-ASCII rune stays
    non-ASCII and is kept as it is. *)

Definition lowerByte (c : ascii) : ascii :=
  let n := nat_of_ascii c in
  if ((65 <=? n) && (n <=? 90))%nat then ascii_of_nat (n + 32) else c.

Fixpoint ToLower (s : string) : string :=
  match s with
  | EmptyString => EmptyString
  | String b0 s1 =>
      match s1 with
      | String b1 s2 =>
          if ((nat_of_ascii b0 =? 196) && (nat_of_ascii b1 =? 176))%nat
          then String (byte 105) (ToLower s2)
          else match s2 with
               | String b2 s3 =>
                   if ((nat_of_ascii b0 =? 226) && (nat_of_ascii b1 =? 132)
                       && (nat_of_ascii b2 =? 170))%nat
                   then String (byte 107) (ToLower s3)
                   else String (lowerByte b0) (ToLower s1)
               | EmptyString => String (lowerByte b0) (ToLower s1)
               end
      | EmptyString => String (lowerByte b0) EmptyString
      end
  end.

End GoStrings.

Import GoStrings.

(** ** Go's [strconv] and [fmt] verbs, and the one floating-point product *)

Module Strconv.

Definition isDigit (c : ascii) : bool :=
  let n := nat_of_ascii c in ((48 <=? n) && (n <=? 57))%nat.

Definition digitVal (c : ascii) : Z := Z.of_nat (nat_of_ascii c) - 48.

(** The value of a run of decimal digits; [None] at any other byte. *)
Fixpoint digitsValue (acc : Z) (s : string) : option Z :=
  match s with
  | EmptyString => Some acc
  | String c s' =>
      if isDigit c then digitsValue (acc * 10 + digitVal c) s' else None
  end.

Definition maxInt64 : Z := 9223372036854775807.
Definition minInt64 : Z := -9223372036854775808.

(** [strconv.ParseInt(s, 10, 64)], which is also what [strconv.Atoi]
    computes on a 64-bit platform: an optional sign, then at least one
    digit, nothing else; [None] stands for both [ErrSyntax] and
    [ErrRange]. *)
Definition ParseInt (s : string) : option Z :=
  match s with
  | EmptyString => None
  | String c rest =>
      let neg := Ascii.eqb c (ascii_of_nat 45) in
      let signed := neg || Ascii.eqb c (ascii_of_nat 43) in
      let digits := if signed then rest else s in
      match digits with
      | EmptyString => None
      | _ =>
          match digitsValue 0 digits with
          | None => None
          | Some un =>
              if neg then (if un <=? - minInt64 then Some (- un) else None)
              else (if un <=? maxInt64 then Some un else None)
          end
      end
  end.

Definition Atoi (s : string) : option Z := ParseInt s.

(** The verb [%d] and [strconv.Itoa]. *)
Definition Itoa (n : Z) : string :=
  DecimalString.NilZero.string_of_int (Z.to_int n).

(** [wrap64]: the value an [int64] computation keeps of its exact result. *)
Definition wrap64 (z : Z) : Z :=
  (z + 9223372036854775808) mod 18446744073709551616 - 9223372036854775808.

(** [sat64]: clamping to the [int64] range, as [time.Time.Sub] does. *)
Definition sat64 (z : Z) : Z := Z.max minInt64 (Z.min maxInt64 z).

(** Rounding a non-negative integer to 53 significant bits, ties to
    even: the [float64] nearest to it, in the unit it is written in. *)
Definition round53 (a : Z) : Z :=
  let k := Z.log2 a - 52 in
  if k <=? 0 then a
  else
    let q := Z.shiftr a k in
    let r := a - Z.shiftl q k in
    let half := Z.shiftl 1 (k - 1) in
    let q' := if r <? half then q
              else if half <? r then q + 1
              else if Z.even q then q else q + 1 in
    Z.shiftl q' k.

(** What [int(float64(x) * 1.5)] yields when the product does not fit an
    [int64].  Go leaves it to the implementation; this is the value of the
    amd64 conversion instruction. *)
Definition floatToIntOverflow : Z := minInt64.

(** [int(float64(currentMem) * 1.5)] for [currentMem >= 0]: the
    conversion to [float64] rounds, the product [3/2 * m] is rounded again
    (computed here in halves, where it is the integer [3 * m]), and the
    conversion back truncates. *)
Definition scaleByOneAndHalf (currentMem : Z) : Z :=
  let m := round53 currentMem in
  let v := round53 (3 * m) / 2 in
  if v <=? maxInt64 then v else floatToIntOverflow.

End Strconv.

Import Strconv.

(** ** The remediation engine's local fallback *)

(** [FileUpdate] represents the format expected for file updates. *)
Record FileUpdate := mkFileUpdate { Path : string; Content : string }.

(** [extractIndentation] gets the whitespace prefix of a line. *)
Fixpoint extractIndentation (line : string) : string :=
  match line with
  | EmptyString => EmptyString
  | String c rest =>
      if Ascii.eqb c (byte 32) || Ascii.eqb c (byte 9)
      then String c (extractIndentation rest)
      else EmptyString
  end.

(** The body of the loop of [updateMemoryLimits] over the lines, with the
    two flags it carries from one line to the next. *)
Fixpoint updateMemoryLines (lines : list string) (inResources inLimits : bool)
    (newLimit : string) : list string :=
  match lines with
  | [] => []
  | line :: rest =>
      let trimmedLine := TrimSpace line in
      if HasPrefix trimmedLine "resources:" then
        line :: updateMemoryLines rest true inLimits newLimit
      else if inResources && negb (HasPrefix line " ")
              && negb (HasPrefix line tab)
              && negb (String.eqb trimmedLine EmptyString) then
        line :: updateMemoryLines rest false false newLimit
      else if inResources && HasPrefix trimmedLine "limits:" then
        line :: updateMemoryLines rest inResources true newLimit
      else if inLimits && HasPrefix trimmedLine "requests:" then
        line :: updateMemoryLines rest inResources false newLimit
      else if inLimits && HasPrefix trimmedLine "memory:" then
        (extractIndentation line ++ "memory: " ++ newLimit)
          :: updateMemoryLines rest inResources inLimits newLimit
      else
        line :: updateMemoryLines rest inResources inLimits newLimit
  end.

(** [updateMemoryLimits] updates the memory limits in a YAML file. *)
Definition updateMemoryLimits (content newLimit : string) : string :=
  Join (updateMemoryLines (Split content (byte 10)) false false newLimit) nl.

(** The OOM test on the solution text. *)
Definition isOOM (solution : string) : bool :=
  Contains (ToLower solution) "oomkilled"
  || Contains (ToLower solution) "out of memory".

(** The text after the first occurrence of [key] up to the end of its
    line, trimmed; empty when the key is missing, when the line is the
    last one and has no line feed, or when the key ends its line. *)
Definition valueAfter (content key : string) : string :=
  let idx := Index content key in
  if 0 <=? idx then
    let subContent := drop (Z.to_nat idx + String.length key) content in
    let endIdx := Index subContent nl in
    if 0 <? endIdx then TrimSpace (take (Z.to_nat endIdx) subContent)
    else EmptyString
  else EmptyString.

(** [deploymentName]: what follows the first ["name:"]. *)
Definition deploymentName (content : string) : string :=
  valueAfter content "name:".

(** [memoryLimit]: what follows the first ["memory:"] after the first
    ["limits:"], looked for only when the file mentions ["resources"]. *)
Definition memoryLimit (content : string) : string :=
  if Contains content "resources" then
    let idx := Index content "limits:" in
    if 0 <=? idx then valueAfter (drop (Z.to_nat idx) content) "memory:"
    else EmptyString
  else EmptyString.

(** The loop that cuts values like ["6Mi"], ["256Mi"], ["1Gi"] into
    [numPart] and [unitPart]. *)
Fixpoint splitNumber (memoryLimit : string) : string * string :=
  match memoryLimit with
  | EmptyString => (EmptyString, EmptyString)
  | String c rest =>
      if isDigit c then
        let '(numPart, unitPart) := splitNumber rest in (String c numPart, unitPart)
      else (EmptyString, memoryLimit)
  end.

(** [currentMem] and [unit]: both stay at their zero values unless the
    limit starts with a number that [strconv.Atoi] accepts. *)
Definition parseMemory (memoryLimit : string) : Z * string :=
  if String.eqb memoryLimit EmptyString then (0, EmptyString)
  else
    let '(numPart, unitPart) := splitNumber memoryLimit in
    match Atoi numPart with
    | Some num => (num, unitPart)
    | None => (0, EmptyString)
    end.

(** The limit the heuristic writes for a parsed current limit. *)
Definition newMemoryLimit (currentMem : Z) (unit : string) : string :=
  if (currentMem =? 0) || (currentMem <? 64) then "256Mi"
  else Itoa (scaleByOneAndHalf currentMem) ++ unit.

(** One iteration of the loop of [generateLocalFallbackResponse] over the
    files: the update it appends, if any. *)
Definition fallbackFileUpdate (name content : string) : option FileUpdate :=
  if HasSuffix name ".yaml" || HasSuffix name ".yml" then
    if Contains content "kind: Deployment" then
      if negb (String.eqb (deploymentName content) EmptyString) then
        let '(currentMem, unit) := parseMemory (memoryLimit content) in
        let updatedContent :=
          updateMemoryLimits content (newMemoryLimit currentMem unit) in
        if negb (String.eqb updatedContent content)
        then Some (mkFileUpdate name updatedContent)
        else None
      else None
    else None
  else None.

Fixpoint fallbackLoop (files : list (string * string))
    (fileUpdates : list FileUpdate) : list FileUpdate :=
  match files with
  | [] => fileUpdates
  | (name, content) :: rest =>
      fallbackLoop rest
        (match fallbackFileUpdate name content with
         | Some fileUpdate => fileUpdates ++ [fileUpdate]
         | None => fileUpdates
         end)
  end.

(** [generateLocalFallbackResponse] creates a local response when the AI
    endpoint is unavailable.  [files] lists the map's entries in the order
    the [range] loop visits them. *)
Definition generateLocalFallbackResponse (solution : string)
    (files : list (string * string)) : list FileUpdate :=
  if negb (isOOM solution) then []
  else fallbackLoop files [].

(** ** Dynamic values: [map[string]interface{}] trees *)

(** An [interface{}] as the controller inspects it: a string, a
    [map[string]interface{}], a [[]interface{}], or anything else (numbers,
    booleans, nil).  A map lists its entries; a key is looked up from the
    front. *)
#[local] Set Warnings "-register-all".
Inductive iface : Type :=
| IString (s : string)
| IMap (entries : list (string * iface))
| ISlice (elems : list iface)
| IOther.

Definition mapIndex (entries : list (string * iface)) (key : string) : option iface :=
  snd <$> List.find (fun kv => String.eqb (fst kv) key) entries.

(** [unstructured.NestedFieldNoCopy]: [None] when a field is missing or
    the value on the way is not a map. *)
Fixpoint NestedField (val : iface) (fields : list string) : option iface :=
  match fields with
  | [] => Some val
  | field :: rest =>
      match val with
      | IMap m =>
          match mapIndex m field with
          | Some v => NestedField v rest
          | None => None
          end
      | _ => None
      end
  end.

(** The first result of [unstructured.NestedString]: the string at the
    path, and the empty string when it is missing or not a string (the
    program drops the other two results). *)
Definition NestedString (obj : list (string * iface)) (fields : list string) : string :=
  match NestedField (IMap obj) fields with
  | Some (IString s) => s
  | _ => EmptyString
  end.

(** ** The diagnostic extractor *)

Record diagnostic := mkDiagnostic {
  diag_name : string;
  diag_kind : string;
  diag_namespace : string;
  diag_error : string;
  diag_solution : string
}.

(** The identity [handleResult] deduplicates on: the UID, or the name if
    the UID isn't available. *)
Definition resourceID (obj : list (string * iface)) : string :=
  let uid := NestedString obj ["metadata"; "uid"] in
  let name := NestedString obj ["metadata"; "name"] in
  if String.eqb uid EmptyString then name else uid.

(** The namespace and name [handleResult] parses from the resource name
    (format: namespace/name), with the fallback to the metadata namespace. *)
Definition resolveNamespace (obj : list (string * iface)) : string * string :=
  let resourceName := NestedString obj ["spec"; "name"] in
  if negb (String.eqb resourceName EmptyString) && Contains resourceName "/" then
    match SplitN2 resourceName "/" with
    | [p0; p1] => (p0, p1)
    | _ => ("default", resourceName)
    end
  else
    let namespace := NestedString obj ["metadata"; "namespace"] in
    (if String.eqb namespace EmptyString then "default" else namespace, resourceName).

(** The part of [handleResult] that fills in [diag]. *)
Definition extractDiagnostic (obj : list (string * iface)) : diagnostic :=
  let '(namespace, name) := resolveNamespace obj in
  let details := NestedString obj ["spec"; "details"] in
  let parts := SplitN2 details (nl ++ nl) in
  {| diag_name := name;
     diag_kind := NestedString obj ["spec"; "kind"];
     diag_namespace := namespace;
     diag_error := match parts with
                   | p0 :: _ => TrimPrefix p0 "Error: "
                   | [] => EmptyString
                   end;
     diag_solution := match parts with
                      | _ :: p1 :: _ => TrimPrefix p1 "Solution: "
                      | _ => EmptyString
                      end |}.

(** ** Configuration, the network, the clock and the mutable globals *)

(** The package-level configuration variables, as read from the
    environment when the process starts. *)
Record Config := mkConfig {
  githubOwner : string;
  githubRepo : string;
  githubBranch : string;
  githubToken : string;
  aiBaseUrl : string;
  aiModel : string;
  aiTimeoutSecs : Z;
  aiMaxRetries : Z;
  aiHealthCheck : bool;
  useFallback : bool;
  ghServiceUrl : string
}.

Definition githubApiUrl : string := "https://api.github.com".
Definition aiEndpointUrl (cfg : Config) : string := aiBaseUrl cfg ++ "/chat/completions".

(** A Go [error], kept as the text [err.Error()] returns: the retry
    decision of [sendToAIEndpoint] reads that text. *)
Inductive result (A : Type) : Type :=
| Ok (a : A)
| Err (msg : string).
Arguments Ok {A} a.
Arguments Err {A} msg.

Inductive RequestBody : Type :=
| NoBody
| ChatBody (model content : string)
| PullRequestBody (owner repo title body : string) (files : list (string * string)).

Record Request := mkRequest {
  Method : string;
  URL : string;
  ReqHeader : list (string * string);
  ReqBody : RequestBody
}.

(** An HTTP response: status, headers under their canonical names, the
    bytes [io.ReadAll] obtains from the body and the error it ends with,
    if any. *)
Record Response := mkResponse {
  StatusCode : Z;
  Header : list (string * string);
  Body : string;
  BodyErr : option string
}.

(** [resp.Header.Get(key)] *)
Definition Header_Get (resp : Response) (key : string) : string :=
  match List.find (fun kv => String.eqb (fst kv) key) (Header resp) with
  | Some kv => snd kv
  | None => EmptyString
  end.

(** What [httpClient.Do] returns: a response, or an error with its text
    and whether [errors.Is(err, context.DeadlineExceeded)] holds. *)
Inductive DoResult : Type :=
| DoResp (resp : Response)
| DoErr (msg : string) (deadlineExceeded : bool).

(** A reading of [time.Now()]: wall clock and monotonic clock, both in
    nanoseconds (the wall clock since the Unix epoch). *)
Record Instant := mkInstant { wall : Z; mono : Z }.

Record GitHubContent := mkGitHubContent {
  gh_Type : string;
  gh_Name : string;
  gh_Path : string;
  gh_Content : string;
  gh_Encoding : string
}.

(** The world outside the process, and the library functions whose code
    is not the controller's: each call is answered by its number. *)
Record Env := mkEnv {
  (** the answer to the k-th [httpClient.Do] *)
  env_net : nat -> DoResult;
  (** the k-th reading of the clock *)
  env_clock : nat -> Instant;
  (** the error of [http.NewRequestWithContext method url], if any *)
  env_newRequest : string -> string -> option string;
  (** [json.NewDecoder(resp.Body).Decode] into a [GitHubContent] *)
  env_decodeContent : Response -> result GitHubContent;
  (** the same into a [[]GitHubContent] *)
  env_decodeListing : Response -> result (list GitHubContent);
  (** the same into a [map[string]interface{}] *)
  env_decodeObject : Response -> result (list (string * iface));
  (** [json.Unmarshal] into a [[]FileUpdate] *)
  env_unmarshalUpdates : string -> result (list FileUpdate);
  (** [base64.StdEncoding.DecodeString] *)
  env_base64 : string -> result string;
  (** [time.Duration.String] *)
  env_formatDuration : Z -> string;
  (** the entries of a map in the order a [range] loop visits them *)
  env_rangeOrder : gmap string string -> list (string * string);
  (** how many nested calls of [fetchDirectoryContents] the stack of a
      goroutine holds: Go ends the program when a stack outgrows its
      limit *)
  env_stackDepth : nat
}.

(** What the process does that can be seen from outside. *)
Inductive Event : Type :=
| EvSleep (d : Z)
| EvDo (req : Request)
| EvPipeline (resourceID namespace : string).

(** The package-level mutable state and the history so far (newest event
    first). *)
Record World := mkWorld {
  processedResources : gmap string bool;
  endpointHealthy : bool;
  lastHealthCheck : option Instant;
  netCalls : nat;
  clockReads : nat;
  trace : list Event
}.

(** A computation either finishes with a value or ends the program: by
    a panic, or by exhausting the stack. *)
Inductive Res (A : Type) : Type :=
| Done (a : A) (w : World)
| Panic (w : World).
Arguments Done {A} a w.
Arguments Panic {A} w.

Definition M (A : Type) : Type := World -> Res A.

Definition ret {A} (a : A) : M A := fun w => Done a w.

Definition bind {A B} (m : M A) (k : A -> M B) : M B :=
  fun w => match m w with
           | Done a w' => k a w'
           | Panic w' => Panic w'
           end.

Definition panic {A} : M A := fun w => Panic w.

Notation "x <- m ;; k" := (bind m (fun x => k))
  (at level 100, m at next level, right associativity).
Notation "m ;;; k" := (bind m (fun _ => k))
  (at level 100, right associativity).

Definition worldOf {A} (r : Res A) : World :=
  match r with Done _ w => w | Panic w => w end.

Definition emit (e : Event) : M unit :=
  fun w => Done tt
    (mkWorld (processedResources w) (endpointHealthy w) (lastHealthCheck w)
             (netCalls w) (clockReads w) (e :: trace w)).

(** [time.Sleep(d)] *)
Definition Sleep (d : Z) : M unit := emit (EvSleep d).

(** [time.Now()] *)
Definition Now (E : Env) : M Instant :=
  fun w => Done (env_clock E (clockReads w))
    (mkWorld (processedResources w) (endpointHealthy w) (lastHealthCheck w)
             (netCalls w) (S (clockReads w)) (trace w)).

(** [httpClient.Do(req)] *)
Definition Do (E : Env) (req : Request) : M DoResult :=
  fun w => Done (env_net E (netCalls w))
    (mkWorld (processedResources w) (endpointHealthy w) (lastHealthCheck w)
             (S (netCalls w)) (clockReads w) (EvDo req :: trace w)).

Definition getEndpointHealthy : M bool := fun w => Done (endpointHealthy w) w.
Definition getLastHealthCheck : M (option Instant) := fun w => Done (lastHealthCheck w) w.

Definition setEndpointHealth (healthy : bool) (at_ : Instant) : M unit :=
  fun w => Done tt
    (mkWorld (processedResources w) healthy (Some at_)
             (netCalls w) (clockReads w) (trace w)).

(** Durations, in nanoseconds. *)
Definition Second : Z := 1000000000.
Definition Minute : Z := 60 * Second.

(** [t.Sub(u)] on monotonic readings, and [time.Since]. *)
Definition monoSub (t u : Instant) : Z := sat64 (mono t - mono u).

(** Seconds between year 1 and the Unix epoch: [time.Unix] adds them in
    [int64] arithmetic. *)
Definition unixToInternal : Z := 62135596800.

(** [time.Until(time.Unix(resetTime, 0))] read at wall-clock instant
    [now]: the exact difference, clamped to the range of a [Duration]. *)
Definition untilUnix (resetTime : Z) (now : Instant) : Z :=
  sat64 ((wrap64 (resetTime + unixToInternal) - unixToInternal) * Second - wall now).

(** [time.Duration(1<<uint(i)) * time.Second] *)
Definition shiftSeconds (i : Z) : Z :=
  wrap64 ((if i <? 64 then wrap64 (Z.shiftl 1 i) else 0) * Second).

(** [strings.ReplaceAll(s, "\n", "")] *)
Fixpoint removeLineFeeds (s : string) : string :=
  match s with
  | EmptyString => EmptyString
  | String c s' =>
      if Ascii.eqb c (byte 10) then removeLineFeeds s' else String c (removeLineFeeds s')
  end.

Section Fetcher.

Variable E : Env.
Variable cfg : Config.

(** ** The source fetcher: one file *)

Definition contentsURL (path : string) : string :=
  githubApiUrl ++ "/repos/" ++ githubOwner cfg ++ "/" ++ githubRepo cfg
    ++ "/contents/" ++ path ++ "?ref=" ++ githubBranch cfg.

Definition githubRequest (path : string) : Request :=
  mkRequest "GET" (contentsURL path)
    (("Accept", "application/vnd.github.v3+json")
       :: (if String.eqb (githubToken cfg) EmptyString then []
           else [("Authorization", "token " ++ githubToken cfg)]))
    NoBody.

Definition rateLimited (resp : Response) : bool :=
  (StatusCode resp =? 403) && String.eqb (Header_Get resp "X-RateLimit-Remaining") "0".

(** The wait the reset-time hint of a rate-limited response gives, when
    the hint is there, parses, and lies less than five minutes ahead. *)
Definition resetWait (resp : Response) (now : Instant) : option Z :=
  let resetTimeStr := Header_Get resp "X-RateLimit-Reset" in
  if String.eqb resetTimeStr EmptyString then None
  else match ParseInt resetTimeStr with
       | None => None
       | Some resetTime =>
           let waitTime := untilUnix resetTime now in
           if (0 <? waitTime) && (waitTime <? 5 * Minute) then Some waitTime else None
       end.

(** The retry loop of [fetchFileContent]: [i] counts the attempts made,
    [remaining] those left, [resp] is the variable the loop assigns.  It
    ends with the response to read and whether its body was closed. *)
Fixpoint fetchFileAttempts (remaining : nat) (i : Z) (req : Request)
    (resp : option Response) : M (result (Response * bool)) :=
  match remaining with
  | O =>
      match resp with
      | Some r => ret (Ok (r, true))
      | None => panic
      end
  | S remaining' =>
      d <- Do E req ;;
      match d with
      | DoErr msg _ => ret (Err ("error fetching file content: " ++ msg))
      | DoResp r =>
          if rateLimited r then
            (* the clock is read only when the hint is present and parses *)
            let resetTimeStr := Header_Get r "X-RateLimit-Reset" in
            match (if String.eqb resetTimeStr EmptyString then None
                   else ParseInt resetTimeStr) with
            | Some _ =>
                now <- Now E ;;
                match resetWait r now with
                | Some waitTime =>
                    Sleep (waitTime + Second) ;;;
                    fetchFileAttempts remaining' (i + 1) req (Some r)
                | None =>
                    Sleep (shiftSeconds i) ;;;
                    fetchFileAttempts remaining' (i + 1) req (Some r)
                end
            | None =>
                Sleep (shiftSeconds i) ;;;
                fetchFileAttempts remaining' (i + 1) req (Some r)
            end
          else ret (Ok (r, false))
      end
  end.

(** [fetchFileContent] fetches the content of a single file. *)
Definition fetchFileContent (filePath : string) : M (result string) :=
  match env_newRequest E "GET" (contentsURL filePath) with
  | Some e => ret (Err ("error creating request: " ++ e))
  | None =>
      let maxRetries := 3%nat in
      out <- fetchFileAttempts maxRetries 0 (githubRequest filePath) None ;;
      match out with
      | Err msg => ret (Err msg)
      | Ok (resp, closed) =>
          if negb (StatusCode resp =? 200) then
            let bodyBytes := if closed then EmptyString else Body resp in
            ret (Err ("GitHub API error (status " ++ Itoa (StatusCode resp) ++ "): "
                      ++ bodyBytes))
          else
            match env_decodeContent E resp with
            | Err e => ret (Err ("error decoding file content: " ++ e))
            | Ok content =>
                if negb (String.eqb (gh_Content content) EmptyString)
                   && String.eqb (gh_Encoding content) "base64" then
                  match env_base64 E (removeLineFeeds (gh_Content content)) with
                  | Err e => ret (Err ("error decoding base64 content: " ++ e))
                  | Ok decodedContent => ret (Ok decodedContent)
                  end
                else ret (Err "file content not available")
            end
      end
  end.

End Fetcher.

(** ** Go's [path/filepath], where the separator is the slash *)

Module Filepath.

Definition slash : ascii := byte 47.

Definition dotdot : string := "..".

(** The loop of [Clean] over the elements of the path: [out] holds the
    elements written so far, the last one first, and [kept] counts the
    leading [..] elements among them, behind which the loop cannot back
    up. *)
Fixpoint cleanElems (rooted : bool) (elems : list string) (out : list string)
    (kept : nat) : list string :=
  match elems with
  | [] => out
  | elem :: rest =>
      if String.eqb elem EmptyString || String.eqb elem "." then
        cleanElems rooted rest out kept
      else if String.eqb elem dotdot then
        if (kept <? List.length out)%nat then cleanElems rooted rest (List.tl out) kept
        else if negb rooted then
          cleanElems rooted rest (dotdot :: out) (S (List.length out))
        else cleanElems rooted rest out kept
      else cleanElems rooted rest (elem :: out) kept
  end.

(** [filepath.Clean] *)
Definition Clean (path : string) : string :=
  match path with
  | EmptyString => "."
  | String c _ =>
      let rooted := Ascii.eqb c slash in
      let out := Join (List.rev (cleanElems rooted (Split path slash) [] 0)) "/" in
      if rooted then "/" ++ out
      else if String.eqb out EmptyString then "." else out
  end.

(** [filepath.Join] of two elements: empty elements in front are
    ignored, and the result is cleaned. *)
Definition Join2 (a b : string) : string :=
  if negb (String.eqb a EmptyString) then Clean (a ++ "/" ++ b)
  else if negb (String.eqb b EmptyString) then Clean b
  else EmptyString.

(** The string without its trailing slashes. *)
Fixpoint stripSlashesRev (reversed : string) : string :=
  match reversed with
  | String c rest => if Ascii.eqb c slash then stripSlashesRev rest else reversed
  | EmptyString => EmptyString
  end.

(** The bytes up to the first slash. *)
Fixpoint untilSlash (s : string) : string :=
  match s with
  | String c rest => if Ascii.eqb c slash then EmptyString else String c (untilSlash rest)
  | EmptyString => EmptyString
  end.

(** [filepath.Base]: the last element of the path, read here from its
    end. *)
Definition Base (path : string) : string :=
  match path with
  | EmptyString => "."
  | _ =>
      let last := GoStrings.rev (untilSlash (stripSlashesRev (GoStrings.rev path EmptyString)))
                                EmptyString in
      if String.eqb last EmptyString then "/" else last
  end.

End Filepath.

(** ** The source fetcher: the walk over a directory

    Two things the walk needs are not the controller's code: the decoding
    of a directory listing, and the order in which [range] visits the
    entries of a map. *)

Module Walk.

Section Walk.

Variable E : Env.
Variable cfg : Config.

(** [json.NewDecoder(resp.Body).Decode] into a [[]GitHubContent]. *)
Variable decodeListing : Response -> result (list GitHubContent).

(** The entries of a map in the order a [range] loop visits them. *)
Variable rangeOrder : gmap string string -> list (string * string).

(** [fetchSingleFile] fetches a single file content if the path is a
    file, not a directory. *)
Definition fetchSingleFile (filePath : string) : M (result (gmap string string)) :=
  match env_newRequest E "GET" (contentsURL cfg filePath) with
  | Some e => ret (Err ("error creating request: " ++ e))
  | None =>
      d <- Do E (githubRequest cfg filePath) ;;
      match d with
      | DoErr msg _ => ret (Err ("error fetching file content: " ++ msg))
      | DoResp resp =>
          if negb (StatusCode resp =? 200) then
            ret (Err ("GitHub API error (status " ++ Itoa (StatusCode resp) ++ "): "
                      ++ Body resp))
          else
            match env_decodeContent E resp with
            | Err e => ret (Err ("error decoding file content: " ++ e))
            | Ok content =>
                if negb (String.eqb (gh_Content content) EmptyString)
                   && String.eqb (gh_Encoding content) "base64" then
                  match env_base64 E (removeLineFeeds (gh_Content content)) with
                  | Err e => ret (Err ("error decoding base64 content: " ++ e))
                  | Ok decodedContent =>
                      ret (Ok {[ Filepath.Base filePath := decodedContent ]})
                  end
                else ret (Err "file content not available")
            end
      end
  end.

(** The key of a file of the listing: its path relative to the requested
    directory, or its name. *)
Definition relativePath (dirPath : string) (item : GitHubContent) : string :=
  let relativePath := TrimPrefix (gh_Path item) (dirPath ++ "/") in
  if String.eqb relativePath EmptyString then gh_Name item else relativePath.

(** The loop that adds the files of a subdirectory to the main map. *)
Definition addSubDirFiles (dirPath : string) (item : GitHubContent)
    (subDirFiles : gmap string string) (files : gmap string string)
    : gmap string string :=
  fold_left
    (fun files entry =>
       let relativePath :=
         Filepath.Join2 (TrimPrefix (gh_Path item) (dirPath ++ "/")) (fst entry) in
       <[relativePath := snd entry]> files)
    (rangeOrder subDirFiles) files.

(** The loop over the items of a listing.  [recurse] fetches a
    subdirectory; it answers [None] when the walk is cut off. *)
Fixpoint walkItems (recurse : string -> M (option (result (gmap string string))))
    (dirPath : string) (contents : list GitHubContent) (files : gmap string string)
    : M (option (gmap string string)) :=
  match contents with
  | [] => ret (Some files)
  | item :: rest =>
      if String.eqb (gh_Type item) "dir" then
        sub <- recurse (gh_Path item) ;;
        match sub with
        | None => ret None
        | Some (Err _) => walkItems recurse dirPath rest files
        | Some (Ok subDirFiles) =>
            walkItems recurse dirPath rest (addSubDirFiles dirPath item subDirFiles files)
        end
      else
        fetched <- fetchFileContent E cfg (gh_Path item) ;;
        match fetched with
        | Err _ => walkItems recurse dirPath rest files
        | Ok fileContent =>
            walkItems recurse dirPath rest (<[relativePath dirPath item := fileContent]> files)
        end
  end.

(** [fetchDirectoryContents] uses the GitHub API to get the contents of a
    directory.  The recursion follows the listings GitHub sends, so it is
    bounded here by [depth], the number of nested calls allowed; [None]
    says that the bound was reached. *)
Fixpoint fetchDirectoryContents (depth : nat) (dirPath : string)
    : M (option (result (gmap string string))) :=
  match depth with
  | O => ret None
  | S depth' =>
      match env_newRequest E "GET" (contentsURL cfg dirPath) with
      | Some e => ret (Some (Err ("error creating request: " ++ e)))
      | None =>
          d <- Do E (githubRequest cfg dirPath) ;;
          match d with
          | DoErr msg _ => ret (Some (Err ("error fetching directory contents: " ++ msg)))
          | DoResp resp =>
              if rateLimited resp then
                ret (Some (Err ("GitHub API rate limit exceeded. Rate limit resets at "
                                ++ Header_Get resp "X-RateLimit-Reset")))
              else if StatusCode resp =? 404 then
                ret (Some (Err ("directory not found: " ++ dirPath)))
              else if 400 <=? StatusCode resp then
                ret (Some (Err ("GitHub API error (status " ++ Itoa (StatusCode resp)
                                ++ "): " ++ Body resp)))
              else
                match decodeListing resp with
                | Err _ =>
                    single <- fetchSingleFile dirPath ;;
                    ret (Some single)
                | Ok contents =>
                    walked <- walkItems (fetchDirectoryContents depth') dirPath contents ∅ ;;
                    match walked with
                    | None => ret None
                    | Some files =>
                        if (size files =? 0)%nat
                        then ret (Some (Err ("no files found at " ++ dirPath)))
                        else ret (Some (Ok files))
                    end
                end
          end
      end
  end.

End Walk.

End Walk.

Section Controller.

Variable E : Env.
Variable cfg : Config.

(** ** The source fetcher: the files of a namespace *)

(** [fetchGitHubFiles] retrieves files from the GitHub repository for a
    specific namespace.  The walk recurses as deep as the directories
    GitHub lists are nested; one that outgrows the stack of its goroutine
    ends the program. *)
Definition fetchGitHubFiles (namespace : string) : M (result (gmap string string)) :=
  let dirPath := "apps/" ++ namespace in
  walked <- Walk.fetchDirectoryContents E cfg (env_decodeListing E) (env_rangeOrder E)
              (env_stackDepth E) dirPath ;;
  match walked with
  | None => panic
  | Some (Err e) => ret (Err ("failed to fetch files from " ++ dirPath ++ ": " ++ e))
  | Some (Ok files) => ret (Ok files)
  end.

(** ** The remediation engine: the inference path *)

(** [updateEndpointHealth] updates the cached health status. *)
Definition updateEndpointHealth (healthy : bool) : M unit :=
  now <- Now E ;;
  setEndpointHealth healthy now.

(** [checkAIEndpointHealth] checks if the AI endpoint is responsive.  It
    assigns the two globals itself, under the mutex it holds. *)
Definition checkAIEndpointHealth : M bool :=
  last <- getLastHealthCheck ;;
  recent <- match last with
            | None => ret false
            | Some t => now <- Now E ;; ret (monoSub now t <? Minute)
            end ;;
  if recent then getEndpointHealthy
  else
    let healthCheckUrl := aiBaseUrl cfg ++ "/models" in
    match env_newRequest E "GET" healthCheckUrl with
    | Some _ => now <- Now E ;; setEndpointHealth false now ;;; ret false
    | None =>
        d <- Do E (mkRequest "GET" healthCheckUrl [] NoBody) ;;
        match d with
        | DoErr _ _ => now <- Now E ;; setEndpointHealth false now ;;; ret false
        | DoResp resp =>
            if (200 <=? StatusCode resp) && (StatusCode resp <? 300)
            then now <- Now E ;; setEndpointHealth true now ;;; ret true
            else now <- Now E ;; setEndpointHealth false now ;;; ret false
        end
    end.

(** [tryAIEndpoint] attempts to call the AI endpoint once. *)
Definition tryAIEndpoint (jsonData : RequestBody) : M (result (list (string * iface))) :=
  match env_newRequest E "POST" (aiEndpointUrl cfg) with
  | Some e => ret (Err ("failed to create HTTP request: " ++ e))
  | None =>
      let req := mkRequest "POST" (aiEndpointUrl cfg)
                   [("Content-Type", "application/json")] jsonData in
      isHealthy <- getEndpointHealthy ;;
      (if negb isHealthy then
         match env_newRequest E "HEAD" (aiBaseUrl cfg) with
         | Some _ => panic (* testReq is nil and httpClient.Do reads through it *)
         | None => Do E (mkRequest "HEAD" (aiBaseUrl cfg) [] NoBody) ;;; ret tt
         end
       else ret tt) ;;;
      startTime <- Now E ;;
      d <- Do E req ;;
      endTime <- Now E ;;
      let requestDuration := monoSub endTime startTime in
      match d with
      | DoErr msg deadlineExceeded =>
          updateEndpointHealth false ;;;
          if deadlineExceeded || Contains msg "timeout" || Contains msg "deadline" then
            ret (Err ("request timed out after " ++ env_formatDuration E requestDuration
                      ++ ": " ++ msg))
          else ret (Err ("failed to send HTTP request: " ++ msg))
      | DoResp resp =>
          if (StatusCode resp <? 200) || (300 <=? StatusCode resp) then
            ret (Err ("received non-success status code " ++ Itoa (StatusCode resp)
                      ++ ": " ++ Body resp))
          else
            match env_decodeObject E resp with
            | Err e => ret (Err ("failed to parse response: " ++ e))
            | Ok responseData => ret (Ok responseData)
            end
      end
  end.

(** [extractFileUpdatesFromResponse] extracts file updates from the AI
    response. *)
Definition extractFileUpdatesFromResponse (responseData : list (string * iface))
    : result (list FileUpdate) :=
  match mapIndex responseData "choices" with
  | Some (ISlice (choice :: _)) =>
      match choice with
      | IMap choiceMap =>
          match mapIndex choiceMap "message" with
          | Some (IMap message) =>
              match mapIndex message "content" with
              | Some (IString content) =>
                  let startIdx := Index content "[" in
                  let endIdx := LastIndex content "]" in
                  let jsonContent :=
                    if (0 <=? startIdx) && (startIdx <? endIdx)
                    then take (Z.to_nat (endIdx + 1 - startIdx)) (drop (Z.to_nat startIdx) content)
                    else content in
                  match env_unmarshalUpdates E jsonContent with
                  | Err e => Err ("failed to unmarshal file updates: " ++ e)
                  | Ok fileUpdates => Ok fileUpdates
                  end
              | _ => Err "invalid content format"
              end
          | _ => Err "invalid message format"
          end
      | _ => Err "invalid choice format"
      end
  | _ => Err "no choices in response"
  end.

(** The test under "Don't retry on certain errors". *)
Definition nonRetryable (errText : string) : bool :=
  Contains errText "received non-success status code"
  && negb (Contains errText "429")
  && negb (Contains errText "500")
  && negb (Contains errText "502")
  && negb (Contains errText "503")
  && negb (Contains errText "504").

(** The wait before attempt number [attempt] (counted from 0). *)
Definition backoffTime (attempt : Z) : Z :=
  let b := shiftSeconds attempt in
  if 30 * Second <? b then 30 * Second else b.

(** How the retry loop of [sendToAIEndpoint] ends. *)
Inductive LoopEnd : Type :=
| LoopReturn (fileUpdates : list FileUpdate)
| LoopBreak (responseData : list (string * iface))
| LoopDone.

Fixpoint aiAttempts (remaining : nat) (attempt : Z) (jsonData : RequestBody)
    (files : list (string * string)) (solution : string) : M LoopEnd :=
  match remaining with
  | O => ret LoopDone
  | S remaining' =>
      (if 0 <? attempt then Sleep (backoffTime attempt) else ret tt) ;;;
      r <- tryAIEndpoint jsonData ;;
      match r with
      | Ok resp => updateEndpointHealth true ;;; ret (LoopBreak resp)
      | Err errText =>
          if nonRetryable errText
          then ret (LoopReturn (generateLocalFallbackResponse solution files))
          else aiAttempts remaining' (attempt + 1) jsonData files solution
      end
  end.

Definition quote : string := String (byte 34) EmptyString.

Definition responseInstructions : string :=
  "
# Instructions for Response
Analyze the above error and solution recommendation along with the provided files.
If the error can be fixed by editing YAML files, please provide the updated file contents.

Respond ONLY with a JSON array of files to be updated, in this exact format:
[
  {
    " ++ quote ++ "path" ++ quote ++ ": " ++ quote ++ "relative/path/to/file.yaml" ++ quote ++ ",
    " ++ quote ++ "content" ++ quote ++ ": " ++ quote ++ "complete updated file content" ++ quote ++ "
  }
]

If the error is in the application code itself or cannot be fixed by editing YAML files,
respond with an empty array: []
".

Fixpoint relatedFiles (files : list (string * string)) : string :=
  match files with
  | [] => EmptyString
  | (filename, fileContent) :: rest =>
      "## " ++ filename ++ nl ++ "```yaml" ++ nl ++ fileContent ++ nl ++ "```" ++ nl ++ nl
        ++ relatedFiles rest
  end.

Definition promptContent (files : list (string * string)) (solution : string) : string :=
  "# Problem Solution from K8SGPT" ++ nl ++ nl ++ solution ++ nl ++ nl
    ++ "# Related Files" ++ nl ++ nl ++ relatedFiles files ++ responseInstructions.

(** [sendToAIEndpoint] sends the files and solution to the AI endpoint
    and returns file updates.  Its error result is always nil: marshalling
    a map of strings, numbers and booleans cannot fail. *)
Definition sendToAIEndpoint (files : list (string * string)) (solution : string)
    : M (list FileUpdate) :=
  let jsonData := ChatBody (aiModel cfg) (promptContent files solution) in
  healthy <- (if aiHealthCheck cfg then checkAIEndpointHealth else ret true) ;;
  if negb healthy then ret (generateLocalFallbackResponse solution files)
  else
    out <- aiAttempts (Z.to_nat (aiMaxRetries cfg)) 0 jsonData files solution ;;
    match out with
    | LoopReturn fileUpdates => ret fileUpdates
    | LoopBreak responseData =>
        match extractFileUpdatesFromResponse responseData with
        | Err _ => ret (generateLocalFallbackResponse solution files)
        | Ok fileUpdates => ret fileUpdates
        end
    | LoopDone => ret (generateLocalFallbackResponse solution files)
    end.

(** ** The remediation publisher *)

Definition sunflower : string :=
  String (byte 240) (String (byte 159) (String (byte 140) (String (byte 187) EmptyString))).

Definition prTitle (diag : diagnostic) : string :=
  "fix: Fixed " ++ diag_name diag ++ " issue in namespace " ++ diag_namespace diag.

Definition prBody (diag : diagnostic) : string :=
  "This PR fixes an issue detected by K8sGPT for " ++ diag_kind diag ++ "/"
    ++ diag_name diag ++ " in namespace " ++ diag_namespace diag ++ ". " ++ sunflower
    ++ nl ++ nl
    ++ "**Error:** " ++ diag_error diag ++ nl ++ nl
    ++ "**Solution:** " ++ diag_solution diag ++ nl ++ nl
    ++ "Changes were automatically generated by Prof Tournesol.".

(** The path of an update with the apps/<namespace> prefix, added if not
    already present. *)
Definition qualifyPath (namespace path : string) : string :=
  if negb (HasPrefix path ("apps/" ++ namespace ++ "/"))
  then "apps/" ++ namespace ++ "/" ++ path
  else path.

Definition ghFiles (fileUpdates : list FileUpdate) (diag : diagnostic)
    : list (string * string) :=
  List.map (fun update => (qualifyPath (diag_namespace diag) (Path update), Content update))
           fileUpdates.

(** [sendToGHService] sends file updates to the gh-service to create a
    pull request. *)
Definition sendToGHService (fileUpdates : list FileUpdate) (diag : diagnostic)
    : M (result unit) :=
  let prPayload :=
    PullRequestBody (githubOwner cfg) (githubRepo cfg) (prTitle diag) (prBody diag)
                    (ghFiles fileUpdates diag) in
  let reqUrl := ghServiceUrl cfg ++ "/pull_requests" in
  match env_newRequest E "POST" reqUrl with
  | Some e => ret (Err ("failed to create request: " ++ e))
  | None =>
      d <- Do E (mkRequest "POST" reqUrl [("Content-Type", "application/json")] prPayload) ;;
      match d with
      | DoErr msg _ => ret (Err ("failed to send request to gh-service: " ++ msg))
      | DoResp resp =>
          match BodyErr resp with
          | Some e => ret (Err ("failed to read response body: " ++ e))
          | None =>
              if 400 <=? StatusCode resp then
                ret (Err ("gh-service returned error status " ++ Itoa (StatusCode resp)
                          ++ ": " ++ Body resp))
              else ret (Ok tt)
          end
      end
  end.

(** ** The deduplicating event router *)

(** The critical section of [handleResult], between [processedMutex.Lock]
    and [processedMutex.Unlock]: whether the resource was already
    processed; if not, it is marked. *)
Definition checkAndMark (resourceID : string) : M bool :=
  fun w =>
    match processedResources w !! resourceID with
    | Some true => Done true w
    | _ =>
        Done false
          (mkWorld (<[resourceID := true]> (processedResources w)) (endpointHealthy w)
                   (lastHealthCheck w) (netCalls w) (clockReads w) (trace w))
    end.

(** What [handleResult] does once the resource has passed the check. *)
Definition pipeline (obj : list (string * iface)) : M unit :=
  let diag := extractDiagnostic obj in
  let namespace := diag_namespace diag in
  emit (EvPipeline (resourceID obj) namespace) ;;;
  fetched <- fetchGitHubFiles namespace ;;
  match fetched with
  | Err _ => ret tt
  | Ok files =>
      if (size files =? 0)%nat then ret tt
      else
        fileUpdates <- sendToAIEndpoint (env_rangeOrder E files) (diag_solution diag) ;;
        if (0 <? List.length fileUpdates)%nat then
          sendToGHService fileUpdates diag ;;; ret tt
        else ret tt
  end.

(** [handleResult] processes Result information, fetches GitHub files,
    and sends to AI endpoint. *)
Definition handleResult (obj : list (string * iface)) : M unit :=
  processed <- checkAndMark (resourceID obj) ;;
  if processed then ret tt else pipeline obj.

(** The two event handlers [main] registers with the informer. *)
Definition AddFunc (obj : list (string * iface)) : M unit := handleResult obj.

Definition UpdateFunc (oldObj newObj : list (string * iface)) : M unit :=
  let oldVersion := NestedString oldObj ["metadata"; "resourceVersion"] in
  let newVersion := NestedString newObj ["metadata"; "resourceVersion"] in
  if negb (String.eqb oldVersion newVersion) then handleResult newObj
  else ret tt.

(** A notification of the informer, and their delivery one after the
    other. *)
Inductive Notification : Type :=
| Added (obj : list (string * iface))
| Updated (oldObj newObj : list (string * iface)).

Definition deliver (n : Notification) : M unit :=
  match n with
  | Added obj => AddFunc obj
  | Updated oldObj newObj => UpdateFunc oldObj newObj
  end.

Fixpoint deliverAll (ns : list Notification) : M unit :=
  match ns with
  | [] => ret tt
  | n :: rest => deliver n ;;; deliverAll rest
  end.

(** The configuration lines [main] prints at startup. *)
Definition formatBool (b : bool) : string := if b then "true" else "false".

Definition startupBanner : list string :=
  [ "Prof Tournesol controller starting with configuration:";
    "- GitHub Repository: " ++ githubOwner cfg ++ "/" ++ githubRepo cfg
      ++ " (branch: " ++ githubBranch cfg ++ ")";
    "- GitHub Path: apps/<namespace> using GitHub API";
    "- AI Base URL: " ++ aiBaseUrl cfg;
    "- AI Endpoint: " ++ aiEndpointUrl cfg;
    "- AI Model: " ++ aiModel cfg;
    "- AI Request Timeout: " ++ Itoa (aiTimeoutSecs cfg) ++ " seconds";
    "- AI Max Retries: " ++ Itoa (aiMaxRetries cfg);
    "- AI Health Check Enabled: " ++ formatBool (aiHealthCheck cfg);
    "- Local Fallback Enabled: " ++ formatBool (useFallback cfg);
    "- GH Service URL: " ++ ghServiceUrl cfg ].

End Controller.

(** ** The dedup gate under concurrent callbacks

    Each invocation of [handleResult] is a thread that runs the statements
    of the gate one at a time; a scheduler picks which thread moves next.
    [processedMutex] is a flag: [Lock] waits until it is clear and sets it,
    [Unlock] clears it. *)

Module Interleaving.

(** Where an invocation of [handleResult] stands. *)
Inductive pc : Type :=
| AtLock        (* before processedMutex.Lock() *)
| AtCheck       (* holding the mutex, before reading processedResources[resourceID] *)
| AtSkipUnlock  (* found processed: before Unlock and return *)
| AtMark        (* before processedResources[resourceID] = true *)
| AtUnlock      (* marked: before Unlock *)
| AtPipeline    (* past the gate: before the pipeline, which starts with the fetch *)
| Skipped       (* returned at "Skipping already processed resource" *)
| Finished.     (* the pipeline has run *)

Record thread := mkThread { th_resourceID : string; th_pc : pc }.

Record state := mkState {
  st_processed : gmap string bool;
  st_locked : bool;
  st_threads : list thread;
  (** the invocations whose pipeline has run, newest first *)
  st_runs : list nat
}.

Definition initial : state := mkState ∅ false [] [].

Inductive action : Type :=
| Arrive (resourceID : string)   (* a callback of the informer starts handleResult *)
| Move (i : nat).                (* invocation [i] executes its next statement *)

Definition setThread (s : state) (i : nat) (p : pc) (processed : gmap string bool)
    (locked : bool) (runs : list nat) : state :=
  match st_threads s !! i with
  | Some t => mkState processed locked (<[i := mkThread (th_resourceID t) p]> (st_threads s)) runs
  | None => s
  end.

(** The next statement of invocation [i]; a thread that waits for the
    mutex, or has returned, leaves the state as it is. *)
Definition move (s : state) (i : nat) : state :=
  match st_threads s !! i with
  | None => s
  | Some t =>
      match th_pc t with
      | AtLock =>
          if st_locked s then s
          else setThread s i AtCheck (st_processed s) true (st_runs s)
      | AtCheck =>
          match st_processed s !! th_resourceID t with
          | Some true => setThread s i AtSkipUnlock (st_processed s) (st_locked s) (st_runs s)
          | _ => setThread s i AtMark (st_processed s) (st_locked s) (st_runs s)
          end
      | AtSkipUnlock => setThread s i Skipped (st_processed s) false (st_runs s)
      | AtMark =>
          setThread s i AtUnlock (<[th_resourceID t := true]> (st_processed s))
                    (st_locked s) (st_runs s)
      | AtUnlock => setThread s i AtPipeline (st_processed s) false (st_runs s)
      | AtPipeline => setThread s i Finished (st_processed s) (st_locked s) (i :: st_runs s)
      | Skipped | Finished => s
      end
  end.

Definition perform (s : state) (a : action) : state :=
  match a with
  | Arrive resourceID =>
      mkState (st_processed s) (st_locked s)
              (st_threads s ++ [mkThread resourceID AtLock]) (st_runs s)
  | Move i => move s i
  end.

Definition run (schedule : list action) (s : state) : state :=
  fold_left perform schedule s.

(** The invocation holds the mutex. *)
Definition inCritical (p : pc) : bool :=
  match p with
  | AtCheck | AtSkipUnlock | AtMark | AtUnlock => true
  | _ => false
  end.

(** The invocation has passed the dedup gate: the check found the
    resource not processed. *)
Definition passedGate (p : pc) : bool :=
  match p with
  | AtMark | AtUnlock | AtPipeline | Finished => true
  | _ => false
  end.

(** The pipeline runs recorded for one identity. *)
Definition runsOf (s : state) (resourceID : string) : list nat :=
  List.filter
    (fun i => match st_threads s !! i with
              | Some t => String.eqb (th_resourceID t) resourceID
              | None => false
              end)
    (st_runs s).

End Interleaving.


(** ** Auxiliary definitions used to state and prove the properties *)

(** The offset of the first occurrence as a natural number. *)
Fixpoint indexNat (s substr : string) : option nat :=
  if HasPrefix s substr then Some O
  else match s with
       | EmptyString => None
       | String _ s' => S <$> indexNat s' substr
       end.

(** The string is made of decimal digits. *)
Fixpoint allDigits (s : string) : bool :=
  match s with
  | EmptyString => true
  | String c s' => isDigit c && allDigits s'
  end.


(** A Result resource with the four fields the namespace resolution
    reads. *)
Definition resultObject (uid specName metaNamespace resourceVersion : string)
    : list (string * iface) :=
  [ ("metadata", IMap [ ("uid", IString uid);
                        ("namespace", IString metaNamespace);
                        ("resourceVersion", IString resourceVersion) ]);
    ("spec", IMap [ ("name", IString specName) ]) ].

(** The configuration the source gives when no variable is set. *)
Definition defaultConfig : Config :=
  mkConfig "mfernd" "prof-tournesol" "main" ""
           "http://kubeai.kubeai.svc.cluster.local:80/openai/v1" "gemma3-1b-cpu"
           60 3 true true "http://gh-service.tournesol:80".

(** The globals when the process starts. *)
Definition startWorld : World := mkWorld ∅ false None 0 0 [].

(** An environment in which every request is refused at the transport
    level, nothing decodes and the clock stands still. *)
Definition offlineEnv : Env :=
  mkEnv (fun _ => DoErr "dial tcp: connection refused" false)
        (fun _ => mkInstant 0 0)
        (fun _ _ => None)
        (fun _ => Err "EOF")
        (fun _ => Err "EOF")
        (fun _ => Err "EOF")
        (fun _ => Err "unexpected end of JSON input")
        (fun _ => Err "illegal base64 data")
        (fun _ => "0s")
        map_to_list
        1000.

Definition isPipelineEvent (e : Event) : bool :=
  match e with EvPipeline _ _ => true | _ => false end.

Definition isPipelineOf (resourceID : string) (e : Event) : bool :=
  match e with
  | EvPipeline r _ => String.eqb r resourceID
  | _ => false
  end.

(** How many times the pipeline has started for an identity. *)
Definition pipelineRuns (resourceID : string) (w : World) : nat :=
  List.length (List.filter (isPipelineOf resourceID) (trace w)).

(** [quiet w w']: from [w] to [w'] the processed map is untouched and no
    pipeline has started. *)
Definition quiet (w w' : World) : Prop :=
  processedResources w' = processedResources w
  /\ exists evs, trace w' = (evs ++ trace w)%list
                 /\ Forall (fun e => isPipelineEvent e = false) evs.

Definition Quiet {A} (m : M A) : Prop := forall w, quiet w (worldOf (m w)).

(** The world after [processedResources[resourceID] = true]. *)
Definition markProcessed (resourceID : string) (w : World) : World :=
  mkWorld (<[resourceID := true]> (processedResources w)) (endpointHealthy w)
          (lastHealthCheck w) (netCalls w) (clockReads w) (trace w).

(** ** The invariant of the interleaved gate *)

Module GateInvariant.
Import Interleaving.

(** The invocation has executed [processedResources[resourceID] = true]. *)
Definition hasMarked (p : pc) : bool :=
  match p with
  | AtUnlock | AtPipeline | Finished => true
  | _ => false
  end.

Record inv (s : state) : Prop := mkInv {
  (** whoever is in the critical section holds the mutex *)
  inv_locked : forall i t,
    st_threads s !! i = Some t -> inCritical (th_pc t) = true -> st_locked s = true;
  (** and is alone there *)
  inv_mutex : forall i j ti tj,
    st_threads s !! i = Some ti -> st_threads s !! j = Some tj ->
    inCritical (th_pc ti) = true -> inCritical (th_pc tj) = true -> i = j;
  (** a mark that was written is in the map *)
  inv_marked : forall i t,
    st_threads s !! i = Some t -> hasMarked (th_pc t) = true ->
    st_processed s !! th_resourceID t = Some true;
  (** one identity passes the gate once *)
  inv_unique : forall i j ti tj,
    st_threads s !! i = Some ti -> st_threads s !! j = Some tj ->
    passedGate (th_pc ti) = true -> passedGate (th_pc tj) = true ->
    th_resourceID ti = th_resourceID tj -> i = j;
  (** the recorded runs are those of finished invocations, each once *)
  inv_runs_nodup : NoDup (st_runs s);
  inv_runs_finished : forall i,
    i ∈ st_runs s -> exists t, st_threads s !! i = Some t /\ th_pc t = Finished
}.

End GateInvariant.

(** ** Reading the history *)

(** The events added from [w] to [w'], oldest first. *)
Definition newEvents (w w' : World) : list Event :=
  List.rev (firstn (List.length (trace w') - List.length (trace w)) (trace w')).

Fixpoint sleepsOf (evs : list Event) : list Z :=
  match evs with
  | [] => []
  | EvSleep d :: rest => d :: sleepsOf rest
  | _ :: rest => sleepsOf rest
  end.

Fixpoint requestsOf (evs : list Event) : list Request :=
  match evs with
  | [] => []
  | EvDo req :: rest => req :: requestsOf rest
  | _ :: rest => requestsOf rest
  end.

(** An environment that differs from [E] in what the network answers. *)
Definition withNet (E : Env) (net : nat -> DoResult) : Env :=
  mkEnv net (env_clock E) (env_newRequest E) (env_decodeContent E) (env_decodeListing E)
        (env_decodeObject E) (env_unmarshalUpdates E) (env_base64 E) (env_formatDuration E)
        (env_rangeOrder E) (env_stackDepth E).

Definition withClock (E : Env) (clock : nat -> Instant) : Env :=
  mkEnv (env_net E) clock (env_newRequest E) (env_decodeContent E) (env_decodeListing E)
        (env_decodeObject E) (env_unmarshalUpdates E) (env_base64 E) (env_formatDuration E)
        (env_rangeOrder E) (env_stackDepth E).





(** ** The log of a retry loop *)

(** A sleep that follows a usable reset-time hint. *)
Definition hintedSleep (d : Z) : Prop := Second < d < 5 * Minute + Second.

(** A sleep after the attempt numbered [i]. *)
Definition okSleep (i d : Z) : Prop := d = shiftSeconds i \/ hintedSleep d.

(** The events of a retry loop, oldest first, from attempt [i] with [n]
    attempts left: each attempt sends the request, and sleeps before the
    next. *)
Inductive retryLog (req : Request) : Z -> nat -> list Event -> Prop :=
| retry_none i n : retryLog req i n []
| retry_end i n : retryLog req i (S n) [EvDo req]
| retry_again i n d rest :
    okSleep i d -> retryLog req (i + 1) n rest ->
    retryLog req i (S n) (EvDo req :: EvSleep d :: rest).

(** GitHub answers every request with a rate-limit refusal whose reset
    time is second 300 of the epoch; the wall clock reads half a second. *)
Definition rateLimitResponse : Response :=
  mkResponse 403 [("X-RateLimit-Remaining", "0"); ("X-RateLimit-Reset", "300")]
             "API rate limit exceeded" None.

Definition rateLimitedEnv : Env :=
  withClock (withNet offlineEnv (fun _ => DoResp rateLimitResponse))
            (fun _ => mkInstant 500000000 0).

(** ** The inference path: texts, statuses and the log *)

(** The error text of an attempt that got a non-success status. *)
Definition statusErrorText (status : Z) (body : string) : string :=
  "received non-success status code " ++ Itoa status ++ ": " ++ body.



Definition postsOf (evs : list Event) : list Request :=
  List.filter (fun req => String.eqb (Method req) "POST") (requestsOf evs).


(** The number of the call that carries the POST of [tryAIEndpoint]: a
    HEAD request goes first when the endpoint is not known to be healthy. *)
Definition postIndex (w : World) : nat :=
  if endpointHealthy w then netCalls w else S (netCalls w).


(** A Deployment manifest with the given memory limit. *)
Definition sampleDeployment (limit : string) : string :=
"apiVersion: apps/v1
kind: Deployment
metadata:
  name: nginx-oom
  namespace: nginx-unstable
spec:
  replicas: 1
  template:
    spec:
      containers:
        - name: nginx
          image: nginx:1.27
          resources:
            requests:
              cpu: 100m
              memory: 4Mi
            limits:
              cpu: 200m
              memory: " ++ limit ++ "
".

(** The inference endpoint passes the health probe (call 0) and
    answers every later call with [answer]. *)
Definition inferenceEnv (answer : Response) : Env :=
  withNet offlineEnv
    (fun k => match k with
              | O => DoResp (mkResponse 200 [] "{}" None)
              | _ => DoResp answer
              end).

Definition sampleFiles : list (string * string) :=
  [("deployment.yaml", sampleDeployment "6Mi")].

(** The configuration with the USE_FALLBACK flag set to [b]. *)
Definition withUseFallback (b : bool) (cfg : Config) : Config :=
  mkConfig (githubOwner cfg) (githubRepo cfg) (githubBranch cfg) (githubToken cfg)
           (aiBaseUrl cfg) (aiModel cfg) (aiTimeoutSecs cfg) (aiMaxRetries cfg)
           (aiHealthCheck cfg) b (ghServiceUrl cfg).

(** The health gate at the head of [sendToAIEndpoint]. *)
Definition healthGate (E : Env) (cfg : Config) : M bool :=
  if aiHealthCheck cfg then checkAIEndpointHealth E cfg else ret true.

(** ** The fallback heuristic: auxiliary notions *)

(** The string holds no line feed. *)
Fixpoint noLF (s : string) : bool :=
  match s with
  | EmptyString => true
  | String c s' => negb (Ascii.eqb c (byte 10)) && noLF s'
  end.

(** An ASCII byte that is not white space: it is no part of a white-space
    rune, so trimming stops at it. *)
Definition plainByte (c : ascii) : bool :=
  (nat_of_ascii c <? 128)%nat && negb (isAsciiSpace c).

(** The files the heuristic considers: a YAML name, the Deployment
    marker, and a value after the first "name:". *)
Definition eligible (name content : string) : bool :=
  (HasSuffix name ".yaml" || HasSuffix name ".yml")
  && Contains content "kind: Deployment"
  && negb (String.eqb (deploymentName content) EmptyString).

(** The limit the heuristic writes into a file. *)
Definition targetLimit (content : string) : string :=
  let '(currentMem, unit) := parseMemory (memoryLimit content) in
  newMemoryLimit currentMem unit.


(** A Deployment whose former limit is kept in a comment above the
    manifest: the comment holds the first "limits:" and "memory:" of the
    text, and no line of it is a limits entry of a resources block. *)
Definition commentedLimit (limit : string) : string :=
"# limits:
#   memory: 6Mi
apiVersion: apps/v1
kind: Deployment
metadata:
  name: web
spec:
  template:
    spec:
      containers:
        - name: web
          resources:
            limits:
              memory: " ++ limit ++ "
".


(** The text between double quotes. *)
Definition quoted (s : string) : string :=
  String (byte 34) s ++ String (byte 34) EmptyString.

Definition startsWithDigit (s : string) : bool :=
  match s with
  | String c _ => isDigit c
  | EmptyString => false
  end.

(** ** The blocks [updateMemoryLimits] tracks

    The lines of a file are read in order.  A resources block opens at a
    line whose text, trimmed, starts with "resources:", and closes at the
    next line that is no such line, is not blank and starts in the first
    column.  A limits block opens at a line inside a resources block that
    does not close it and whose trimmed text starts with "limits:"; it
    closes where the resources block closes, or at a line whose trimmed
    text starts with "requests:". *)










(** ** The configuration, as read from the environment *)

(** The environment of the process, as [os.LookupEnv] sees it, is a
    [gmap string string]. *)

Definition getEnvOrDefault (environ : gmap string string) (key defaultValue : string)
    : string :=
  match environ !! key with
  | Some value => if negb (String.eqb value EmptyString) then value else defaultValue
  | None => defaultValue
  end.

Definition getEnvIntOrDefault (environ : gmap string string) (key : string)
    (defaultValue : Z) : Z :=
  match environ !! key with
  | Some value =>
      if negb (String.eqb value EmptyString) then
        match Atoi value with
        | Some intVal => intVal
        | None => defaultValue
        end
      else defaultValue
  | None => defaultValue
  end.

Definition getEnvBoolOrDefault (environ : gmap string string) (key : string)
    (defaultValue : bool) : bool :=
  match environ !! key with
  | Some value =>
      if negb (String.eqb value EmptyString) then
        if String.eqb (ToLower value) "true" || String.eqb value "1" then true
        else if String.eqb (ToLower value) "false" || String.eqb value "0" then false
        else defaultValue
      else defaultValue
  | None => defaultValue
  end.

(** The package-level variables of the configuration, initialised when
    the process starts. *)
Definition loadConfig (environ : gmap string string) : Config :=
  {| githubOwner := getEnvOrDefault environ "GITHUB_OWNER" "mfernd";
     githubRepo := getEnvOrDefault environ "GITHUB_REPO" "prof-tournesol";
     githubBranch := getEnvOrDefault environ "GITHUB_BRANCH" "main";
     githubToken := getEnvOrDefault environ "GITHUB_TOKEN" EmptyString;
     aiBaseUrl := getEnvOrDefault environ "AI_BASE_URL"
                    "http://kubeai.kubeai.svc.cluster.local:80/openai/v1";
     aiModel := getEnvOrDefault environ "AI_MODEL" "gemma3-1b-cpu";
     aiTimeoutSecs := getEnvIntOrDefault environ "AI_TIMEOUT_SECONDS" 60;
     aiMaxRetries := getEnvIntOrDefault environ "AI_MAX_RETRIES" 3;
     aiHealthCheck := getEnvBoolOrDefault environ "AI_HEALTH_CHECK" true;
     useFallback := getEnvBoolOrDefault environ "USE_FALLBACK" true;
     ghServiceUrl := getEnvOrDefault environ "GH_SERVICE_URL"
                       "http://gh-service.tournesol:80" |}.


(** ** Auxiliary notions for the further properties *)

(** A space or a tab: the bytes [extractIndentation] collects. *)
Definition isBlank (c : ascii) : bool := Ascii.eqb c (byte 32) || Ascii.eqb c (byte 9).

Fixpoint allBlank (s : string) : bool :=
  match s with
  | EmptyString => true
  | String c s' => isBlank c && allBlank s'
  end.

Definition startsBlank (s : string) : bool :=
  match s with
  | String c _ => isBlank c
  | EmptyString => false
  end.

(** A Service manifest: it holds neither "resources:" nor "memory:". *)
Definition sampleService : string :=
"apiVersion: v1
kind: Service
metadata:
  name: nginx-oom
spec:
  ports:
    - port: 80
".

(** What [extractFileUpdatesFromResponse] returns once it has chosen the
    text to decode. *)
Definition unmarshalFileUpdates (E : Env) (jsonContent : string) : result (list FileUpdate) :=
  match env_unmarshalUpdates E jsonContent with
  | Err e => Err ("failed to unmarshal file updates: " ++ e)
  | Ok fileUpdates => Ok fileUpdates
  end.

(** An answer of the inference endpoint with one choice. *)
Definition chatResponse (content : string) : list (string * iface) :=
  [("choices", ISlice [IMap [("message", IMap [("role", IString "assistant");
                                               ("content", IString content)])]])].

(** A Result resource with the given details. *)
Definition resultWithDetails (details : string) : list (string * iface) :=
  [ ("metadata", IMap [("uid", IString "5f0c")]);
    ("spec", IMap [("name", IString "nginx-unstable/nginx-oom");
                   ("details", IString details)]) ].

(** GitHub answers 403 without the rate-limit headers (a repository the
    token may not read). *)
Definition forbiddenEnv : Env :=
  withNet offlineEnv (fun _ => DoResp (mkResponse 403 [] "Resource not accessible" None)).

(** ** The health of the inference endpoint: auxiliary notions *)

(** The test at the head of [checkAIEndpointHealth]: a check was made,
    and less than a minute lies between it and the next reading of the
    clock. *)
Definition healthIsRecent (E : Env) (w : World) : bool :=
  match lastHealthCheck w with
  | None => false
  | Some t => monoSub (env_clock E (clockReads w)) t <? Minute
  end.

(** The verdict of the health probe on what the network answers. *)
Definition probeVerdict (d : DoResult) : bool :=
  match d with
  | DoResp resp => (200 <=? StatusCode resp) && (StatusCode resp <? 300)
  | DoErr _ _ => false
  end.

Definition healthRequest (cfg : Config) : Request :=
  mkRequest "GET" (aiBaseUrl cfg ++ "/models") [] NoBody.

Definition headRequest (cfg : Config) : Request :=
  mkRequest "HEAD" (aiBaseUrl cfg) [] NoBody.

Definition chatRequest (cfg : Config) (jsonData : RequestBody) : Request :=
  mkRequest "POST" (aiEndpointUrl cfg) [("Content-Type", "application/json")] jsonData.

(** The last reading of the clock made before [w]. *)
Definition lastReading (E : Env) (w : World) : Instant :=
  env_clock E (Nat.pred (clockReads w)).

(** The globals after a health check that passed at instant zero. *)
Definition checkedWorld : World :=
  mkWorld ∅ true (Some (mkInstant 0 0)) 1 1 [].

(** The globals after a health check that failed at instant zero. *)
Definition failedCheckWorld : World :=
  mkWorld ∅ false (Some (mkInstant 0 0)) 1 1 [].

(** The configuration with AI_MAX_RETRIES set to [n]. *)
Definition withMaxRetries (n : Z) (cfg : Config) : Config :=
  mkConfig (githubOwner cfg) (githubRepo cfg) (githubBranch cfg) (githubToken cfg)
           (aiBaseUrl cfg) (aiModel cfg) (aiTimeoutSecs cfg) n
           (aiHealthCheck cfg) (useFallback cfg) (ghServiceUrl cfg).

(** The inference endpoint answers every request with a chat completion
    that carries [content]; the decoders read it. *)
Definition answeringEnv (content : string) (updates : result (list FileUpdate)) : Env :=
  mkEnv (fun _ => DoResp (mkResponse 200 [] content None))
        (fun _ => mkInstant 0 0)
        (fun _ _ => None)
        (fun _ => Err "EOF")
        (fun _ => Err "EOF")
        (fun _ => Ok (chatResponse content))
        (fun _ => updates)
        (fun _ => Err "illegal base64 data")
        (fun _ => "0s")
        map_to_list
        1000.

(** ** The requests to the publishing service *)

Definition isPullRequestBody (body : RequestBody) : bool :=
  match body with
  | PullRequestBody _ _ _ _ _ => true
  | _ => false
  end.

(** The event is a request that carries a pull request. *)
Definition isPullRequest (e : Event) : bool :=
  match e with
  | EvDo req => isPullRequestBody (ReqBody req)
  | _ => false
  end.

(** A request that carries a pull request is a POST to the pull_requests
    route of the publishing service, for the configured repository, with
    at least one file. *)
Definition wellFormedPullRequest (cfg : Config) (e : Event) : Prop :=
  match e with
  | EvDo req =>
      match ReqBody req with
      | PullRequestBody owner repo _ _ files =>
          Method req = "POST" /\ URL req = ghServiceUrl cfg ++ "/pull_requests"
          /\ owner = githubOwner cfg /\ repo = githubRepo cfg /\ files <> []
      | _ => True
      end
  | _ => True
  end.

(** The request [sendToGHService] sends for the updates of a diagnostic. *)
Definition pullRequest (cfg : Config) (fileUpdates : list FileUpdate) (diag : diagnostic)
    : Request :=
  mkRequest "POST" (ghServiceUrl cfg ++ "/pull_requests")
            [("Content-Type", "application/json")]
            (PullRequestBody (githubOwner cfg) (githubRepo cfg) (prTitle diag) (prBody diag)
                             (ghFiles fileUpdates diag)).

(** The world in which the pipeline of [obj], started from [w], begins
    its fetch: the identity is marked and the start is on record. *)
Definition fetchWorld (obj : list (string * iface)) (w : World) : World :=
  worldOf (emit (EvPipeline (resourceID obj) (diag_namespace (extractDiagnostic obj)))
                (markProcessed (resourceID obj) w)).

(** [Sends cfg n m]: [m] adds events of which at most [n] carry a pull
    request, each of them well formed. *)
Definition Sends {A} (cfg : Config) (n : nat) (m : M A) : Prop :=
  forall w, exists evs,
    trace (worldOf (m w)) = (evs ++ trace w)%list
    /\ Forall (wellFormedPullRequest cfg) evs
    /\ (List.length (List.filter isPullRequest evs) <= n)%nat.

(** ** The interleaved gate: what keeps it going *)

Module GateProgress.
Import Interleaving GateInvariant.

Record live (s : state) : Prop := mkLive {
  (** a held mutex has a holder *)
  live_holder :
    st_locked s = true ->
    exists i t, st_threads s !! i = Some t /\ inCritical (th_pc t) = true;
  (** an invocation takes the skip path on a marked identity only *)
  live_skipped : forall i t,
    st_threads s !! i = Some t -> th_pc t = Skipped \/ th_pc t = AtSkipUnlock ->
    st_processed s !! th_resourceID t = Some true;
  (** every mark in the map was written by an invocation *)
  live_origin : forall k,
    st_processed s !! k = Some true ->
    exists j tj, st_threads s !! j = Some tj /\ th_resourceID tj = k
                 /\ hasMarked (th_pc tj) = true;
  (** the run of a finished invocation is recorded *)
  live_finished : forall i t,
    st_threads s !! i = Some t -> th_pc t = Finished -> i ∈ st_runs s
}.

(** The statements an invocation has left before it returns, at most. *)
Definition stepsLeft (p : pc) : nat :=
  match p with
  | AtLock => 5
  | AtCheck => 4
  | AtMark => 3
  | AtUnlock => 2
  | AtPipeline => 1
  | AtSkipUnlock => 1
  | Skipped | Finished => 0
  end.

Definition remaining (s : state) : nat :=
  sum_list (List.map (fun t => stepsLeft (th_pc t)) (st_threads s)).

(** The invocation has returned. *)
Definition returned (p : pc) : bool :=
  match p with
  | Skipped | Finished => true
  | _ => false
  end.

End GateProgress.

(** ** The walk: auxiliary notions *)

(** The listing holds files only. *)
Definition flatListing (contents : list GitHubContent) : Prop :=
  Forall (fun item => String.eqb (gh_Type item) "dir" = false) contents.

(** [Within r s m]: [m] returns, having sent at most [r] requests and
    slept at most [s] times. *)
Definition Within {A} (r s : nat) (m : M A) : Prop :=
  forall w, exists a w' evs,
    m w = Done a w'
    /\ trace w' = (evs ++ trace w)%list
    /\ (List.length (requestsOf evs) <= r)%nat
    /\ (List.length (sleepsOf evs) <= s)%nat.

(** The repository holds one directory, apps/nginx, with one file. *)
Definition listingResponse : Response := mkResponse 200 [] "[listing]" None.

Definition fileResponse : Response := mkResponse 200 [] "{file}" None.

Definition repositoryListing (resp : Response) : result (list GitHubContent) :=
  if String.eqb (Body resp) "[listing]" then
    Ok [mkGitHubContent "file" "deployment.yaml" "apps/nginx/deployment.yaml"
                        EmptyString EmptyString]
  else Err "json: cannot unmarshal object into Go value of type []main.GitHubContent".

Definition repositoryEnv : Env :=
  mkEnv (fun k => match k with
                  | O => DoResp listingResponse
                  | _ => DoResp fileResponse
                  end)
        (fun _ => mkInstant 0 0)
        (fun _ _ => None)
        (fun _ => Ok (mkGitHubContent "file" "deployment.yaml" "apps/nginx/deployment.yaml"
                                      "a2luZDogRGVwbG95bWVudA==" "base64"))
        repositoryListing
        (fun _ => Err "EOF")
        (fun _ => Err "unexpected end of JSON input")
        (fun _ => Ok "kind: Deployment")
        (fun _ => "0s")
        map_to_list
        1000.

(** GitHub lists one file under apps/nginx-unstable and serves it, a
    Deployment limited to 6Mi; every later request is refused at the
    transport level: the inference endpoint is down. *)
Definition inferenceDownEnv : Env :=
  mkEnv (fun k => match k with
                  | O => DoResp listingResponse
                  | S O => DoResp fileResponse
                  | _ => DoErr "dial tcp: connection refused" false
                  end)
        (fun _ => mkInstant 0 0)
        (fun _ _ => None)
        (fun _ => Ok (mkGitHubContent "file" "deployment.yaml"
                                      "apps/nginx-unstable/deployment.yaml"
                                      "YXBpVmVyc2lvbjogYXBwcy92MQ==" "base64"))
        (fun resp =>
           if String.eqb (Body resp) "[listing]" then
             Ok [mkGitHubContent "file" "deployment.yaml"
                                 "apps/nginx-unstable/deployment.yaml"
                                 EmptyString EmptyString]
           else Err "json: cannot unmarshal object into Go value of type []main.GitHubContent")
        (fun _ => Err "EOF")
        (fun _ => Err "unexpected end of JSON input")
        (fun _ => Ok (sampleDeployment "6Mi"))
        (fun _ => "0s")
        map_to_list
        1000.

(** The string holds no slash. *)
Fixpoint noSlash (s : string) : bool :=
  match s with
  | EmptyString => true
  | String c s' => negb (Ascii.eqb c Filepath.slash) && noSlash s'
  end.

(** GitHub answers every request with the description of one file. *)
Definition fileAtPathEnv : Env :=
  withNet repositoryEnv (fun _ => DoResp fileResponse).

(** ** Letter case *)

(** The string is made of ASCII bytes. *)
Fixpoint allAscii (s : string) : bool :=
  match s with
  | EmptyString => true
  | String c s' => (nat_of_ascii c <? 128)%nat && allAscii s'
  end.

(** An ASCII string with its capital letters made small. *)
Fixpoint lowerAscii (s : string) : string :=
  match s with
  | EmptyString => EmptyString
  | String c s' => String (lowerByte c) (lowerAscii s')
  end.

(** ** Relative paths *)

(** A name between two slashes that [filepath.Clean] keeps as it is. *)
Definition plainElem (elem : string) : bool :=
  negb (String.eqb elem EmptyString) && noSlash elem
  && negb (String.eqb elem ".") && negb (String.eqb elem "..").

(** A relative path that is clean: plain names joined by slashes. *)
Definition cleanRelative (path : string) : Prop :=
  exists elems, elems <> [] /\ Forall (fun e => plainElem e = true) elems
                /\ path = Join elems "/".

(* ===================================================================== *)
(** * Part II. Properties *)
(* ===================================================================== *)

#[local] Arguments String.append !s1 s2 : simpl nomatch.

(** ** Facts about the string functions *)

Lemma append_empty_r (s : string) : s ++ EmptyString = s.
Proof. induction s as [|c s IH]; simpl; [reflexivity | now f_equal]. Qed.

Lemma append_assoc (a b c : string) : (a ++ b) ++ c = a ++ (b ++ c).
Proof. induction a as [|x a IH]; simpl; [reflexivity | now f_equal]. Qed.

Lemma length_append (a b : string) :
  String.length (a ++ b) = (String.length a + String.length b)%nat.
Proof. induction a as [|x a IH]; simpl; [reflexivity | now f_equal]. Qed.

Lemma take_append_length (a b : string) : take (String.length a) (a ++ b) = a.
Proof. induction a as [|x a IH]; simpl; [now destruct b | now f_equal]. Qed.

Lemma drop_append_length (a b : string) : drop (String.length a) (a ++ b) = b.
Proof. induction a as [|x a IH]; simpl; [now destruct b | exact IH]. Qed.

Lemma HasPrefix_append (s t : string) : HasPrefix (s ++ t) s = true.
Proof.
  induction s as [|c s IH]; simpl; [reflexivity|].
  now rewrite Ascii.eqb_refl.
Qed.

Lemma HasPrefix_true (s p : string) :
  HasPrefix s p = true -> exists t, s = p ++ t.
Proof.
  revert s. induction p as [|c p IH]; intros s H; simpl in *.
  - now exists s.
  - destruct s as [|d s]; [discriminate|].
    destruct (Ascii.eqb_spec d c) as [->|]; [|discriminate].
    destruct (IH _ H) as [t ->]. now exists t.
Qed.

Lemma IndexFrom_indexNat (s substr : string) (i : Z) :
  IndexFrom i s substr =
  match indexNat s substr with
  | Some n => i + Z.of_nat n
  | None => -1
  end.
Proof.
  revert i. induction s as [|c s IH]; intros i; simpl.
  - destruct (HasPrefix "" substr); simpl; lia.
  - destruct (HasPrefix (String c s) substr); simpl; [lia|].
    rewrite IH. destruct (indexNat s substr); simpl; lia.
Qed.

Lemma Index_indexNat (s substr : string) :
  Index s substr =
  match indexNat s substr with Some n => Z.of_nat n | None => -1 end.
Proof.
  unfold Index. rewrite IndexFrom_indexNat. now destruct (indexNat s substr).
Qed.

Lemma Contains_indexNat (s substr : string) :
  Contains s substr = match indexNat s substr with Some _ => true | None => false end.
Proof.
  unfold Contains. rewrite Index_indexNat.
  destruct (indexNat s substr); [apply Z.leb_le; lia | reflexivity].
Qed.

(** The first occurrence of a one-byte separator in [p ++ sep ++ q], when
    [p] holds none, is at the end of [p]. *)
Lemma indexNat_first_byte (p q : string) (c : ascii) :
  indexNat p (String c EmptyString) = None ->
  indexNat (p ++ String c q) (String c EmptyString) = Some (String.length p).
Proof.
  induction p as [|d p IH]; simpl; intros H.
  - now rewrite Ascii.eqb_refl.
  - destruct (Ascii.eqb d c); [discriminate|].
    destruct (indexNat p (String c "")) eqn:Hp; [discriminate|].
    now rewrite IH.
Qed.




Lemma HasPrefix_append_l (a b p : string) :
  HasPrefix a p = true -> HasPrefix (a ++ b) p = true.
Proof.
  intros H. apply HasPrefix_true in H as [t ->]. rewrite append_assoc.
  apply HasPrefix_append.
Qed.

Lemma Contains_append_l (a b substr : string) :
  Contains a substr = true -> Contains (a ++ b) substr = true.
Proof.
  rewrite !Contains_indexNat. induction a as [|c a IH]; simpl.
  - destruct (HasPrefix "" substr) eqn:Hp; [|discriminate]. intros _.
    destruct substr; [|discriminate]. now destruct b.
  - destruct (HasPrefix (String c a) substr) eqn:Hp.
    + intros _. change (String c (a ++ b)) with (String c a ++ b).
      now rewrite (HasPrefix_append_l _ _ _ Hp).
    + destruct (indexNat a substr); [|discriminate]. intros _.
      destruct (HasPrefix (String c (a ++ b)) substr); [reflexivity|].
      destruct (indexNat (a ++ b) substr); [reflexivity | now discriminate IH].
Qed.

Lemma Contains_append_r (a b substr : string) :
  Contains b substr = true -> Contains (a ++ b) substr = true.
Proof.
  rewrite !Contains_indexNat. intros H. induction a as [|c a IH]; simpl; [exact H|].
  destruct (HasPrefix (String c (a ++ b)) substr); [reflexivity|].
  now destruct (indexNat (a ++ b) substr).
Qed.

(** *** Searching for digits across a byte that is not a digit *)





(** ** What the stages of the pipeline leave alone *)

Lemma quiet_refl (w : World) : quiet w w.
Proof. split; [reflexivity|]. exists []. split; [reflexivity | constructor]. Qed.

Lemma quiet_same (w w' : World) :
  processedResources w' = processedResources w -> trace w' = trace w -> quiet w w'.
Proof.
  intros Hp Ht. split; [exact Hp|]. exists []. split; [exact Ht | constructor].
Qed.

Lemma quiet_trans (w1 w2 w3 : World) : quiet w1 w2 -> quiet w2 w3 -> quiet w1 w3.
Proof.
  intros [Hp1 (e1 & Ht1 & Hf1)] [Hp2 (e2 & Ht2 & Hf2)]. split; [congruence|].
  exists (e2 ++ e1)%list. split.
  - now rewrite Ht2, Ht1, app_assoc.
  - apply Forall_app; split; assumption.
Qed.

Lemma Quiet_ret {A} (a : A) : Quiet (ret a).
Proof. intros w. apply quiet_refl. Qed.

Lemma Quiet_panic {A} : Quiet (@panic A).
Proof. intros w. apply quiet_refl. Qed.

Lemma Quiet_bind {A B} (m : M A) (k : A -> M B) :
  Quiet m -> (forall a, Quiet (k a)) -> Quiet (bind m k).
Proof.
  intros Hm Hk w. unfold bind. specialize (Hm w).
  destruct (m w) as [a w'|w']; simpl in *; [|exact Hm].
  eapply quiet_trans; [exact Hm | apply Hk].
Qed.

Lemma Quiet_emit (e : Event) : isPipelineEvent e = false -> Quiet (emit e).
Proof.
  intros He w. split; [reflexivity|]. exists [e]. split; [reflexivity|].
  now constructor.
Qed.

Lemma Quiet_Sleep (d : Z) : Quiet (Sleep d).
Proof. now apply Quiet_emit. Qed.

Lemma Quiet_Now (E : Env) : Quiet (Now E).
Proof. intros w. now apply quiet_same. Qed.

Lemma Quiet_Do (E : Env) (req : Request) : Quiet (Do E req).
Proof.
  intros w. split; [reflexivity|]. exists [EvDo req]. split; [reflexivity|].
  now constructor.
Qed.

Lemma Quiet_getEndpointHealthy : Quiet getEndpointHealthy.
Proof. intros w. apply quiet_refl. Qed.

Lemma Quiet_getLastHealthCheck : Quiet getLastHealthCheck.
Proof. intros w. apply quiet_refl. Qed.

Lemma Quiet_setEndpointHealth (b : bool) (t : Instant) : Quiet (setEndpointHealth b t).
Proof. intros w. now apply quiet_same. Qed.

Create HintDb quiet.

#[local] Hint Resolve Quiet_ret Quiet_panic Quiet_Sleep Quiet_Now Quiet_Do
  Quiet_getEndpointHealthy Quiet_getLastHealthCheck Quiet_setEndpointHealth : quiet.

(** Breaks a computation into its binds and case distinctions. *)
Ltac quiet_step :=
  match goal with
  | |- Quiet (bind _ _) => apply Quiet_bind; [|intros ?]
  | |- Quiet (match ?x with _ => _ end) => destruct x
  | |- Quiet (if ?b then _ else _) => destruct b
  | |- Quiet (let '(_, _) := ?x in _) => destruct x
  | |- Quiet _ => solve [eauto with quiet]
  end.

Ltac quiet_auto := repeat quiet_step.

Section Frames.

Variable E : Env.
Variable cfg : Config.

Lemma Quiet_updateEndpointHealth (b : bool) : Quiet (updateEndpointHealth E b).
Proof. unfold updateEndpointHealth. quiet_auto. Qed.

Hint Resolve Quiet_updateEndpointHealth : quiet.

Lemma Quiet_checkAIEndpointHealth : Quiet (checkAIEndpointHealth E cfg).
Proof. unfold checkAIEndpointHealth. quiet_auto. Qed.

Lemma Quiet_tryAIEndpoint (body : RequestBody) : Quiet (tryAIEndpoint E cfg body).
Proof. unfold tryAIEndpoint. quiet_auto. Qed.

Hint Resolve Quiet_checkAIEndpointHealth Quiet_tryAIEndpoint : quiet.

Lemma Quiet_aiAttempts (remaining : nat) (attempt : Z) (body : RequestBody)
    (files : list (string * string)) (solution : string) :
  Quiet (aiAttempts E cfg remaining attempt body files solution).
Proof.
  revert attempt. induction remaining as [|r IH]; intros attempt; simpl.
  - quiet_auto.
  - quiet_auto.
Qed.

Hint Resolve Quiet_aiAttempts : quiet.

Lemma Quiet_sendToAIEndpoint (files : list (string * string)) (solution : string) :
  Quiet (sendToAIEndpoint E cfg files solution).
Proof. unfold sendToAIEndpoint. quiet_auto. Qed.

Lemma Quiet_sendToGHService (fileUpdates : list FileUpdate) (diag : diagnostic) :
  Quiet (sendToGHService E cfg fileUpdates diag).
Proof. unfold sendToGHService. quiet_auto. Qed.

Lemma Quiet_fetchFileAttempts (remaining : nat) (i : Z) (req : Request)
    (resp : option Response) :
  Quiet (fetchFileAttempts E remaining i req resp).
Proof.
  revert i resp. induction remaining as [|n IH]; intros i resp; simpl; quiet_auto.
Qed.

Hint Resolve Quiet_fetchFileAttempts : quiet.

Lemma Quiet_fetchFileContent (filePath : string) : Quiet (fetchFileContent E cfg filePath).
Proof. unfold fetchFileContent. quiet_auto. Qed.

Lemma Quiet_fetchSingleFile (filePath : string) :
  Quiet (Walk.fetchSingleFile E cfg filePath).
Proof. unfold Walk.fetchSingleFile. quiet_auto. Qed.

Hint Resolve Quiet_fetchFileContent Quiet_fetchSingleFile : quiet.

Section WalkFrames.

Variable decodeListing : Response -> result (list GitHubContent).
Variable rangeOrder : gmap string string -> list (string * string).

Lemma Quiet_walkItems (recurse : string -> M (option (result (gmap string string))))
    (dirPath : string) (contents : list GitHubContent) (files : gmap string string) :
  (forall path, Quiet (recurse path)) ->
  Quiet (Walk.walkItems E cfg rangeOrder recurse dirPath contents files).
Proof.
  intros Hrec. revert files.
  induction contents as [|item rest IH]; intros files; simpl; quiet_auto.
Qed.

Lemma Quiet_fetchDirectoryContents (depth : nat) (dirPath : string) :
  Quiet (Walk.fetchDirectoryContents E cfg decodeListing rangeOrder depth dirPath).
Proof.
  revert dirPath. induction depth as [|n IH]; intros dirPath; simpl; [quiet_auto|].
  pose proof (fun contents files =>
                Quiet_walkItems _ dirPath contents files IH) as Hitems.
  quiet_auto.
Qed.

End WalkFrames.

Hint Resolve Quiet_fetchDirectoryContents : quiet.

Lemma Quiet_fetchGitHubFiles (namespace : string) :
  Quiet (fetchGitHubFiles E cfg namespace).
Proof. unfold fetchGitHubFiles. quiet_auto. Qed.

Hint Resolve Quiet_sendToAIEndpoint Quiet_sendToGHService Quiet_fetchGitHubFiles : quiet.

(** After its first event the pipeline is quiet. *)
Lemma pipeline_frame (obj : list (string * iface)) (w : World) :
  let w' := worldOf (pipeline E cfg obj w) in
  processedResources w' = processedResources w
  /\ exists evs,
       trace w' = (evs ++ EvPipeline (resourceID obj) (diag_namespace (extractDiagnostic obj))
                           :: trace w)%list
       /\ Forall (fun e => isPipelineEvent e = false) evs.
Proof.
  unfold pipeline.
  set (rest := bind (fetchGitHubFiles E cfg _) _).
  assert (Hq : Quiet rest) by (unfold rest; quiet_auto).
  unfold bind at 1. simpl.
  match goal with |- context [rest ?w1] => specialize (Hq w1) end.
  destruct Hq as [Hp (evs & Ht & Hf)]. simpl in *.
  split; [exact Hp|]. exists evs. split; [exact Ht | exact Hf].
Qed.

End Frames.

(** ** The dedup gate, one callback at a time *)

Section Router.

Variable E : Env.
Variable cfg : Config.

Lemma handleResult_processed (obj : list (string * iface)) (w : World) :
  processedResources w !! resourceID obj = Some true ->
  handleResult E cfg obj w = Done tt w.
Proof.
  intros H. unfold handleResult, bind, checkAndMark. now rewrite H.
Qed.

Lemma handleResult_fresh (obj : list (string * iface)) (w : World) :
  processedResources w !! resourceID obj <> Some true ->
  handleResult E cfg obj w = pipeline E cfg obj (markProcessed (resourceID obj) w).
Proof.
  intros H. unfold handleResult, bind, checkAndMark.
  destruct (processedResources w !! resourceID obj) as [[|]|]; [contradiction | reflexivity..].
Qed.

Lemma pipelineRuns_quiet_events (id : string) (evs : list Event) :
  Forall (fun e => isPipelineEvent e = false) evs ->
  List.filter (isPipelineOf id) evs = [].
Proof.
  induction 1 as [|e evs He _ IH]; [reflexivity|]. simpl.
  destruct e; simpl in *; try discriminate; exact IH.
Qed.

(** What one call of [handleResult] does to the map and to the count of
    pipeline starts of an identity. *)
Lemma handleResult_effect (obj : list (string * iface)) (w : World) (id : string) :
  let w' := worldOf (handleResult E cfg obj w) in
  (processedResources w !! resourceID obj = Some true ->
     processedResources w' = processedResources w
     /\ pipelineRuns id w' = pipelineRuns id w)
  /\ (processedResources w !! resourceID obj <> Some true ->
     processedResources w' = <[resourceID obj := true]> (processedResources w)
     /\ pipelineRuns id w' =
        ((if String.eqb (resourceID obj) id then 1 else 0) + pipelineRuns id w)%nat).
Proof.
  split; intros H.
  - now rewrite handleResult_processed.
  - rewrite handleResult_fresh by exact H.
    destruct (pipeline_frame E cfg obj (markProcessed (resourceID obj) w))
      as [Hp (evs & Ht & Hf)].
    split; [exact Hp|].
    unfold pipelineRuns. rewrite Ht, List.filter_app, (pipelineRuns_quiet_events _ _ Hf).
    simpl. now destruct (String.eqb (resourceID obj) id).
Qed.

Lemma deliver_cases (n : Notification) (w : World) :
  deliver E cfg n w = Done tt w
  \/ exists obj, deliver E cfg n w = handleResult E cfg obj w.
Proof.
  destruct n as [obj|oldObj newObj]; simpl.
  - right. now exists obj.
  - unfold UpdateFunc. destruct (negb _); [right; now exists newObj | now left].
Qed.

(** A marked identity stays marked and starts no pipeline, whatever is
    delivered. *)
Lemma deliver_keeps_mark (n : Notification) (w : World) (id : string) :
  processedResources w !! id = Some true ->
  processedResources (worldOf (deliver E cfg n w)) !! id = Some true
  /\ pipelineRuns id (worldOf (deliver E cfg n w)) = pipelineRuns id w.
Proof.
  intros Hid. destruct (deliver_cases n w) as [->|[obj ->]]; [now split|].
  destruct (handleResult_effect obj w id) as [Hold Hnew].
  destruct (decide (processedResources w !! resourceID obj = Some true)) as [Hp|Hp].
  - destruct (Hold Hp) as [-> ->]. now split.
  - destruct (Hnew Hp) as [-> ->].
    destruct (String.eqb_spec (resourceID obj) id) as [Heq|Hne].
    + congruence.
    + split; [now rewrite lookup_insert_ne | reflexivity].
Qed.

Lemma deliverAll_keeps_mark (ns : list Notification) (w : World) (id : string) :
  processedResources w !! id = Some true ->
  processedResources (worldOf (deliverAll E cfg ns w)) !! id = Some true
  /\ pipelineRuns id (worldOf (deliverAll E cfg ns w)) = pipelineRuns id w.
Proof.
  revert w. induction ns as [|n ns IH]; intros w Hid; [now split|].
  simpl. unfold bind.
  destruct (deliver_keeps_mark n w id Hid) as [Hm Hr].
  destruct (deliver E cfg n w) as [[] w'|w']; simpl in *.
  - destruct (IH w' Hm) as [Hm' Hr']. split; [exact Hm' | congruence].
  - now split.
Qed.

Lemma handleResult_marks (obj : list (string * iface)) (w : World) :
  processedResources (worldOf (handleResult E cfg obj w)) !! resourceID obj = Some true.
Proof.
  destruct (handleResult_effect obj w (resourceID obj)) as [Hold Hnew].
  destruct (decide (processedResources w !! resourceID obj = Some true)) as [Hp|Hp].
  - destruct (Hold Hp) as [-> _]. exact Hp.
  - destruct (Hnew Hp) as [-> _]. apply lookup_insert_eq.
Qed.

(** C2. An update whose resourceVersion equals that of the object last
    seen starts nothing: the handler returns with every global and the
    history as they were, whether or not the identity is marked
    processed. *)
Theorem unchanged_resourceVersion_is_skipped
    (oldObj newObj : list (string * iface)) (w : World) :
  NestedString oldObj ["metadata"; "resourceVersion"]
    = NestedString newObj ["metadata"; "resourceVersion"] ->
  UpdateFunc E cfg oldObj newObj w = Done tt w
  /\ pipelineRuns (resourceID newObj) (worldOf (deliver E cfg (Updated oldObj newObj) w))
     = pipelineRuns (resourceID newObj) w.
Proof.
  intros Hv.
  assert (Hskip : UpdateFunc E cfg oldObj newObj w = Done tt w).
  { unfold UpdateFunc. rewrite Hv, String.eqb_refl. reflexivity. }
  split; [exact Hskip|].
  simpl. now rewrite Hskip.
Qed.

(** C10. The identity is marked before its pipeline runs, a mark is never
    removed or reset by anything delivered later, and so the identity's
    pipeline never starts again, also when its only run failed (the fetch
    answers with an error or with no file for every environment [E]
    alike). *)
Theorem processed_mark_is_permanent
    (obj : list (string * iface)) (later : list Notification) (w : World) :
  let id := resourceID obj in
  let w1 := worldOf (handleResult E cfg obj w) in
  let w2 := worldOf (deliverAll E cfg later w1) in
  (processedResources w !! id <> Some true ->
     handleResult E cfg obj w = pipeline E cfg obj (markProcessed id w))
  /\ processedResources w1 !! id = Some true
  /\ (forall k, processedResources w1 !! k = Some true ->
                processedResources w2 !! k = Some true)
  /\ pipelineRuns id w2 = pipelineRuns id w1.
Proof.
  intros id w1 w2. split; [apply handleResult_fresh|].
  assert (H1 : processedResources w1 !! id = Some true) by apply handleResult_marks.
  split; [exact H1|]. split.
  - intros k Hk. now apply deliverAll_keeps_mark.
  - now apply deliverAll_keeps_mark.
Qed.

End Router.

(** The update of the specification's example, delivered to a process
    that has seen nothing yet. *)
Lemma unchanged_resourceVersion_witness :
  UpdateFunc offlineEnv defaultConfig
             (resultObject "uid-1" "nginx-unstable/nginx-oom" "" "41")
             (resultObject "uid-1" "nginx-unstable/nginx-oom" "" "41") startWorld
  = Done tt startWorld
  /\ processedResources startWorld !! "uid-1" = None.
Proof.
  split; [|reflexivity].
  apply (unchanged_resourceVersion_is_skipped offlineEnv defaultConfig
           (resultObject "uid-1" "nginx-unstable/nginx-oom" "" "41")
           (resultObject "uid-1" "nginx-unstable/nginx-oom" "" "41") startWorld).
  reflexivity.
Defined.

(** A run whose fetch fails is not repeated: the same resource, added
    again and then updated with a new resourceVersion, starts no second
    pipeline. *)
Example failed_fetch_is_not_retried :
  let obj := resultObject "uid-1" "nginx-unstable/nginx-oom" "" "41" in
  let obj' := resultObject "uid-1" "nginx-unstable/nginx-oom" "" "42" in
  let w := worldOf (deliverAll offlineEnv defaultConfig
                      [Added obj; Added obj; Updated obj obj'] startWorld) in
  trace w = [EvDo (githubRequest defaultConfig "apps/nginx-unstable");
             EvPipeline "uid-1" "nginx-unstable"]
  /\ processedResources w !! "uid-1" = Some true.
Proof. vm_compute. split; reflexivity. Qed.

(** ** The dedup gate under any interleaving *)

Section Gate.

Import Interleaving GateInvariant.

Lemma inv_initial : inv initial.
Proof.
  constructor; simpl; intros; try discriminate;
    try (match goal with H : [] !! _ = Some _ |- _ => now rewrite lookup_nil in H end).
  - constructor.
  - match goal with H : _ ∈ [] |- _ => now apply not_elem_of_nil in H end.
Qed.

Lemma lookup_snoc_inv {A} (l : list A) (x y : A) (i : nat) :
  ((l ++ [x])%list) !! i = Some y -> l !! i = Some y \/ (i = List.length l /\ y = x).
Proof.
  intros H. apply lookup_app_Some in H as [H|[Hle H]]; [now left|right].
  destruct (i - List.length l)%nat as [|k] eqn:Hk; simpl in H.
  - split; [lia | congruence].
  - now rewrite lookup_nil in H.
Qed.

Lemma inv_arrive (s : state) (id : string) : inv s -> inv (perform s (Arrive id)).
Proof.
  intros [Hl Hm Hk Hu Hn Hf]. constructor; simpl.
  - intros i t Hi Hc. apply lookup_snoc_inv in Hi as [Hi|[_ ->]]; [eauto | discriminate].
  - intros i j ti tj Hi Hj Hci Hcj.
    apply lookup_snoc_inv in Hi as [Hi|[_ ->]]; [|discriminate].
    apply lookup_snoc_inv in Hj as [Hj|[_ ->]]; [eauto | discriminate].
  - intros i t Hi Hc. apply lookup_snoc_inv in Hi as [Hi|[_ ->]]; [eauto | discriminate].
  - intros i j ti tj Hi Hj Hpi Hpj.
    apply lookup_snoc_inv in Hi as [Hi|[_ ->]]; [|discriminate].
    apply lookup_snoc_inv in Hj as [Hj|[_ ->]]; [eauto | discriminate].
  - exact Hn.
  - intros i Hi. destruct (Hf i Hi) as (t & Ht & Hp). exists t. split; [|exact Hp].
    now apply lookup_app_l_Some.
Qed.

(** A thread that is looked up after thread [i] was replaced. *)
Lemma lookup_replaced (l : list thread) (i j : nat) (t t' u : thread) :
  l !! i = Some t -> <[i := t']> l !! j = Some u ->
  (j = i /\ u = t') \/ (j <> i /\ l !! j = Some u).
Proof.
  intros Hi Hj. apply list_lookup_insert_Some in Hj as [(-> & -> & _)|[Hne Hj]];
    [now left | right; split; [congruence | exact Hj]].
Qed.

(** The invariant carries over when thread [i] moves from [p] to [p'],
    under the side conditions each statement of the gate meets. *)
Lemma inv_step (s : state) (i : nat) (t : thread) (p' : pc)
    (processed' : gmap string bool) (locked' : bool) (runs' : list nat) :
  inv s ->
  st_threads s !! i = Some t ->
  th_pc t <> Finished ->
  (* the mutex *)
  (inCritical p' = true -> locked' = true) ->
  (locked' = false -> st_locked s = true -> inCritical (th_pc t) = true) ->
  (inCritical p' = true -> inCritical (th_pc t) = true \/ st_locked s = false) ->
  (* the map only grows, and holds the mark once written *)
  (forall k, st_processed s !! k = Some true -> processed' !! k = Some true) ->
  (hasMarked p' = true -> processed' !! th_resourceID t = Some true) ->
  (* the gate is passed on a miss only *)
  (passedGate p' = true ->
     passedGate (th_pc t) = true
     \/ (th_pc t = AtCheck /\ st_processed s !! th_resourceID t <> Some true)) ->
  (* the runs *)
  (runs' = st_runs s /\ p' <> Finished) \/ (runs' = i :: st_runs s /\ p' = Finished) ->
  inv (mkState processed' locked' (<[i := mkThread (th_resourceID t) p']> (st_threads s)) runs').
Proof.
  intros [Hl Hm Hk Hu Hn Hf] Hi Hnf Hc1 Hc2 Hc4 Hg1 Hg2 Hp Hr.
  constructor; simpl.
  - (* locked *)
    intros j u Hj Hcu. destruct (lookup_replaced _ _ _ _ _ _ Hi Hj) as [[-> ->]|[Hne Hj']].
    + now apply Hc1.
    + destruct locked' eqn:Hlk; [reflexivity|].
      pose proof (Hl _ _ Hj' Hcu) as Hold.
      specialize (Hc2 eq_refl Hold).
      exfalso. apply Hne. exact (Hm _ _ _ _ Hj' Hi Hcu Hc2).
  - (* mutex *)
    assert (Hother : forall j u, j <> i -> st_threads s !! j = Some u ->
                                 inCritical (th_pc u) = true -> inCritical p' = true -> False).
    { intros j u Hne Hj Hcu Hcp. destruct (Hc4 Hcp) as [Hct|Hfree].
      - apply Hne. exact (Hm _ _ _ _ Hj Hi Hcu Hct).
      - pose proof (Hl _ _ Hj Hcu). congruence. }
    intros j k u v Hj Hk' Hcu Hcv.
    destruct (lookup_replaced _ _ _ _ _ _ Hi Hj) as [[-> ->]|[Hnej Hj']];
      destruct (lookup_replaced _ _ _ _ _ _ Hi Hk') as [[-> ->]|[Hnek Hk'']];
      simpl in *.
    + reflexivity.
    + exfalso. eapply Hother; eauto.
    + exfalso. eapply Hother; eauto.
    + eauto.
  - (* marked *)
    intros j u Hj Hmu. destruct (lookup_replaced _ _ _ _ _ _ Hi Hj) as [[-> ->]|[Hne Hj']];
      simpl in *.
    + now apply Hg2.
    + apply Hg1. eauto.
  - (* unique *)
    assert (Hother : forall j u, j <> i -> st_threads s !! j = Some u ->
                                 passedGate (th_pc u) = true -> passedGate p' = true ->
                                 th_resourceID u = th_resourceID t -> False).
    { intros j u Hne Hj Hpu Hpp Hid. destruct (Hp Hpp) as [Hpt|[Hat Hmiss]].
      - apply Hne. exact (Hu _ _ _ _ Hj Hi Hpu Hpt Hid).
      - destruct (hasMarked (th_pc u)) eqn:Hmk.
        + apply Hmiss. rewrite <- Hid. eauto.
        + apply Hne. apply (Hm _ _ _ _ Hj Hi).
          * destruct (th_pc u); simpl in *; congruence.
          * now rewrite Hat. }
    intros j k u v Hj Hk' Hpu Hpv Hid.
    destruct (lookup_replaced _ _ _ _ _ _ Hi Hj) as [[-> ->]|[Hnej Hj']];
      destruct (lookup_replaced _ _ _ _ _ _ Hi Hk') as [[-> ->]|[Hnek Hk'']];
      simpl in *.
    + reflexivity.
    + exfalso. eapply Hother; eauto.
    + exfalso. eapply Hother; eauto.
    + eauto.
  - (* runs: no duplicate *)
    destruct Hr as [[-> _]|[-> _]]; [exact Hn|].
    constructor; [|exact Hn].
    intros Hin. destruct (Hf _ Hin) as (u & Hu' & Hfin). congruence.
  - (* runs: finished *)
    intros j Hj.
    assert (Hold : j ∈ st_runs s -> exists u,
               <[i := mkThread (th_resourceID t) p']> (st_threads s) !! j = Some u
               /\ th_pc u = Finished).
    { intros Hin. destruct (Hf _ Hin) as (u & Hu' & Hfin). exists u. split; [|exact Hfin].
      rewrite list_lookup_insert_ne; [exact Hu'|]. intros ->. congruence. }
    destruct Hr as [[-> _]|[-> ->]]; [now apply Hold|].
    apply elem_of_cons in Hj as [->|Hj]; [|now apply Hold].
    exists (mkThread (th_resourceID t) Finished). split; [|reflexivity].
    apply list_lookup_insert_eq. now apply lookup_lt_Some in Hi.
Qed.

(** The side conditions of [inv_step] that hold by computation. *)
Ltac gate_step Hi Hpc :=
  unfold setThread; rewrite Hi;
  apply inv_step; rewrite ?Hpc; simpl; auto; try discriminate; try congruence.

Lemma inv_move (s : state) (i : nat) : inv s -> inv (move s i).
Proof.
  intros Hinv. unfold move.
  destruct (st_threads s !! i) as [t|] eqn:Hi; [|exact Hinv].
  pose proof (inv_locked s Hinv i t Hi) as Hlk.
  pose proof (inv_marked s Hinv i t Hi) as Hmk.
  assert (Hmono : forall k, st_processed s !! k = Some true ->
                            <[th_resourceID t := true]> (st_processed s) !! k = Some true).
  { intros k Hk. destruct (decide (th_resourceID t = k)) as [->|Hne];
      [apply lookup_insert_eq | now rewrite lookup_insert_ne]. }
  destruct (th_pc t) eqn:Hpc; simpl in Hlk, Hmk.
  - (* Lock: waits while the mutex is held *)
    destruct (st_locked s) eqn:Hlock; [exact Hinv|]. gate_step Hi Hpc.
  - (* the check *)
    destruct (st_processed s !! th_resourceID t) as [[|]|] eqn:Hmap; gate_step Hi Hpc;
      intros _; right; (split; [reflexivity | congruence]).
  - (* Unlock on the skip path *)
    gate_step Hi Hpc.
  - (* the mark *)
    gate_step Hi Hpc. intros _. apply lookup_insert_eq.
  - (* Unlock *)
    gate_step Hi Hpc.
  - (* the pipeline *)
    gate_step Hi Hpc.
  - exact Hinv.
  - exact Hinv.
Qed.

Lemma inv_run (schedule : list action) (s : state) : inv s -> inv (run schedule s).
Proof.
  revert s. induction schedule as [|a schedule IH]; intros s Hs; [exact Hs|].
  simpl. apply IH. destruct a; [now apply inv_arrive | now apply inv_move].
Qed.

Lemma at_most_one (l : list nat) :
  NoDup l -> (forall x y, x ∈ l -> y ∈ l -> x = y) -> (List.length l <= 1)%nat.
Proof.
  intros Hn Heq. destruct l as [|x [|y l]]; simpl; [lia | lia |].
  exfalso. apply NoDup_cons in Hn as [Hx _]. apply Hx.
  rewrite (Heq x y); [left | left | right; left].
Qed.

(** C1. Whatever the schedule of the callbacks and however many events
    arrive for an identity, no two invocations for that identity pass the
    gate, and the pipeline (whose first step is the fetch) runs for it at
    most once. *)
Theorem dedup_gate_at_most_once (schedule : list action) (id : string) :
  let s := run schedule initial in
  (forall i j ti tj,
      st_threads s !! i = Some ti -> st_threads s !! j = Some tj ->
      th_resourceID ti = id -> th_resourceID tj = id ->
      passedGate (th_pc ti) = true -> passedGate (th_pc tj) = true -> i = j)
  /\ (List.length (runsOf s id) <= 1)%nat.
Proof.
  intros s. assert (Hinv : inv s) by (apply inv_run, inv_initial).
  destruct Hinv as [Hl Hm Hk Hu Hn Hf]. split.
  - intros i j ti tj Hi Hj Hidi Hidj Hpi Hpj. eapply Hu; eauto. congruence.
  - apply at_most_one.
    + unfold runsOf. now apply NoDup_ListNoDup, List.NoDup_filter, NoDup_ListNoDup.
    + intros x y Hx Hy. unfold runsOf in Hx, Hy.
      apply list_elem_of_In, List.filter_In in Hx as [Hx Hxid].
      apply list_elem_of_In, List.filter_In in Hy as [Hy Hyid].
      apply list_elem_of_In in Hx, Hy.
      destruct (Hf _ Hx) as (tx & Htx & Hfx), (Hf _ Hy) as (ty & Hty & Hfy).
      rewrite Htx in Hxid. rewrite Hty in Hyid.
      apply String.eqb_eq in Hxid, Hyid.
      apply (Hu _ _ _ _ Htx Hty); rewrite ?Hfx, ?Hfy; [reflexivity | reflexivity | congruence].
Qed.

(** Five add-events for one identity, their gates interleaved: the
    first two invocations both wait at the mutex before either reads the
    map; the pipeline runs once. *)
Example five_duplicates_one_run :
  let s := run [ Arrive "uid-1"; Arrive "uid-1"; Arrive "uid-1"; Arrive "uid-1";
                 Arrive "uid-1";
                 Move 1; Move 0; Move 1; Move 0; Move 1; Move 2; Move 1; Move 1;
                 Move 0; Move 0; Move 0; Move 0; Move 0; Move 1;
                 Move 2; Move 2; Move 2; Move 2;
                 Move 3; Move 3; Move 3; Move 3; Move 4; Move 4; Move 4; Move 4 ]
               initial in
  runsOf s "uid-1" = [1%nat]
  /\ List.map th_pc (st_threads s) = [Skipped; Finished; Skipped; Skipped; Skipped].
Proof. vm_compute. split; reflexivity. Qed.

End Gate.

(** ** The source fetcher: retries of one file fetch *)

Lemma newEvents_of_trace (w w' : World) (evs : list Event) :
  trace w' = (List.rev evs ++ trace w)%list -> newEvents w w' = evs.
Proof.
  intros H. unfold newEvents. rewrite H, List.length_app.
  replace (List.length (List.rev evs) + List.length (trace w) - List.length (trace w))%nat
    with (List.length (List.rev evs)) by lia.
  rewrite List.firstn_app, Nat.sub_diag, List.firstn_all. simpl.
  rewrite List.app_nil_r. apply List.rev_involutive.
Qed.

Lemma retryLog_bounds (req : Request) (i : Z) (n : nat) (evs : list Event) :
  retryLog req i n evs ->
  (List.length (requestsOf evs) <= n)%nat
  /\ (List.length (sleepsOf evs) <= n)%nat
  /\ (forall k d, sleepsOf evs !! k = Some d -> okSleep (i + Z.of_nat k) d)
  /\ (forall r, In r (requestsOf evs) -> r = req).
Proof.
  induction 1 as [i n|i n|i n d rest Hd _ (IHr & IHs & IHk & IHq)]; simpl.
  - split; [lia|]. split; [lia|]. split; [|tauto].
    intros k d Hk. now rewrite lookup_nil in Hk.
  - split; [lia|]. split; [lia|]. split; [|intuition].
    intros k d Hk. now rewrite lookup_nil in Hk.
  - split; [lia|]. split; [lia|]. split.
    + intros [|k] d' Hk; simpl in Hk.
      * injection Hk as <-. now rewrite Z.add_0_r.
      * replace (i + Z.of_nat (S k)) with (i + 1 + Z.of_nat k) by lia. now apply IHk.
    + intros r [<-|Hr]; [reflexivity | now apply IHq].
Qed.

Lemma shiftSeconds_small (k : nat) :
  (k < 3)%nat -> shiftSeconds (Z.of_nat k) = 2 ^ Z.of_nat k * Second.
Proof.
  intros Hk. destruct k as [|[|[|k]]]; [reflexivity | reflexivity | reflexivity | lia].
Qed.

Section Fetcher.

Variable E : Env.
Variable cfg : Config.

Lemma resetWait_bounds (resp : Response) (now : Instant) (waitTime : Z) :
  resetWait resp now = Some waitTime -> 0 < waitTime < 5 * Minute.
Proof.
  unfold resetWait.
  destruct (String.eqb _ _); [discriminate|].
  destruct (ParseInt _) as [resetTime|]; [|discriminate].
  destruct (Z.ltb_spec 0 (untilUnix resetTime now)) as [H0|]; [|discriminate].
  destruct (Z.ltb_spec (untilUnix resetTime now) (5 * Minute)) as [H5|]; [|discriminate].
  simpl. intros [= <-]. lia.
Qed.

(** The history the retry loop writes. *)
Lemma fetchFileAttempts_log
    (remaining : nat) (i : Z) (req : Request) (resp : option Response) (w : World) :
  exists evs,
    trace (worldOf (fetchFileAttempts E remaining i req resp w))
      = (List.rev evs ++ trace w)%list
    /\ retryLog req i remaining evs.
Proof.
  revert i resp w. induction remaining as [|n IH]; intros i resp w.
  - exists []. split; [|constructor]. simpl. now destruct resp.
  - simpl. unfold bind at 1. unfold Do at 1.
    set (w1 := mkWorld _ _ _ _ _ (EvDo req :: trace w)).
    destruct (env_net E (netCalls w)) as [r|msg dl].
    2:{ exists [EvDo req]. split; [reflexivity | constructor]. }
    destruct (rateLimited r).
    2:{ exists [EvDo req]. split; [reflexivity | constructor]. }
    assert (Hback : forall w2 d,
               trace w2 = trace w1 -> okSleep i d ->
               exists evs,
                 trace (worldOf (bind (Sleep d)
                                   (fun _ => fetchFileAttempts E n (i + 1) req (Some r)) w2))
                   = (List.rev evs ++ trace w)%list
                 /\ retryLog req i (S n) evs).
    { intros w2 d Hw2 Hd. unfold bind, Sleep, emit.
      match goal with |- context [fetchFileAttempts E n (i + 1) req (Some r) ?w3] =>
        destruct (IH (i + 1) (Some r) w3) as (evs & Ht & Hlog) end.
      exists (EvDo req :: EvSleep d :: evs). split; [|now constructor].
      rewrite Ht. simpl. rewrite Hw2. unfold w1. simpl.
      now rewrite <- !List.app_assoc. }
    destruct (if String.eqb (Header_Get r "X-RateLimit-Reset") "" then None
              else ParseInt (Header_Get r "X-RateLimit-Reset")) as [resetTime|].
    + unfold bind at 1. unfold Now at 1.
      destruct (resetWait r (env_clock E (clockReads w1))) as [waitTime|] eqn:Hwait.
      * apply Hback; [reflexivity|]. right.
        apply resetWait_bounds in Hwait. unfold hintedSleep. lia.
      * apply Hback; [reflexivity | now left].
    + apply Hback; [reflexivity | now left].
Qed.

(** When the next answers are all rate-limit refusals, the loop runs
    out of attempts and leaves the last refusal, its body closed. *)
Lemma fetchFileAttempts_exhausted
    (remaining : nat) (i : Z) (req : Request) (resp : option Response) (w : World) :
  (forall k, (k < remaining)%nat ->
             exists r, env_net E (netCalls w + k) = DoResp r /\ rateLimited r = true) ->
  (remaining = 0%nat -> exists r0, resp = Some r0 /\ rateLimited r0 = true) ->
  exists r' w',
    fetchFileAttempts E remaining i req resp w = Done (Ok (r', true)) w'
    /\ rateLimited r' = true
    /\ netCalls w' = (netCalls w + remaining)%nat.
Proof.
  revert i resp w. induction remaining as [|n IH]; intros i resp w Hnet Hresp.
  - destruct (Hresp eq_refl) as (r0 & -> & Hr0). exists r0, w. simpl.
    repeat split; [exact Hr0 | lia].
  - destruct (Hnet 0%nat ltac:(lia)) as (r & Hr & Hlim). rewrite Nat.add_0_r in Hr.
    simpl. unfold bind at 1. unfold Do at 1. rewrite Hr, Hlim.
    set (w1 := mkWorld _ _ _ _ _ (EvDo req :: trace w)).
    assert (Hback : forall w2 d,
               netCalls w2 = S (netCalls w) ->
               exists r' w',
                 bind (Sleep d) (fun _ => fetchFileAttempts E n (i + 1) req (Some r)) w2
                   = Done (Ok (r', true)) w'
                 /\ rateLimited r' = true
                 /\ netCalls w' = (netCalls w + S n)%nat).
    { intros w2 d Hw2. unfold bind, Sleep, emit.
      match goal with |- context [fetchFileAttempts E n (i + 1) req (Some r) ?w3] =>
        destruct (IH (i + 1) (Some r) w3) as (r' & w' & Hrun & Hr' & Hcalls) end.
      - intros k Hk. simpl. rewrite Hw2.
        destruct (Hnet (S k) ltac:(lia)) as (rk & Hrk & Hlk). exists rk.
        split; [|exact Hlk]. rewrite <- Hrk. f_equal. lia.
      - intros _. now exists r.
      - exists r', w'. split; [exact Hrun|]. split; [exact Hr'|].
        rewrite Hcalls. simpl. rewrite Hw2. lia. }
    destruct (if String.eqb (Header_Get r "X-RateLimit-Reset") "" then None
              else ParseInt (Header_Get r "X-RateLimit-Reset")) as [resetTime|].
    + unfold bind at 1. unfold Now at 1.
      destruct (resetWait r (env_clock E (clockReads w1))); now apply Hback.
    + now apply Hback.
Qed.

(** One turn of the loop on a rate-limit refusal: the request, then one
    sleep, the hinted wait plus a second when the hint is usable and the
    backoff of the attempt otherwise. *)
Lemma fetchFileAttempts_refused
    (remaining : nat) (i : Z) (req : Request) (resp : option Response) (w : World)
    (r : Response) :
  env_net E (netCalls w) = DoResp r -> rateLimited r = true ->
  exists w1,
    fetchFileAttempts E (S remaining) i req resp w
      = fetchFileAttempts E remaining (i + 1) req (Some r) w1
    /\ newEvents w w1
       = [EvDo req;
          EvSleep (match resetWait r (env_clock E (clockReads w)) with
                   | Some waitTime => waitTime + Second
                   | None => shiftSeconds i
                   end)].
Proof.
  intros Hnet Hlim. simpl. unfold bind at 1. unfold Do at 1. rewrite Hnet, Hlim.
  unfold resetWait.
  destruct (String.eqb (Header_Get r "X-RateLimit-Reset") "") eqn:Hhdr.
  { eexists. split; [reflexivity|]. now apply newEvents_of_trace. }
  destruct (ParseInt (Header_Get r "X-RateLimit-Reset")) as [resetTime|] eqn:Hparse.
  2:{ eexists. split; [reflexivity|]. now apply newEvents_of_trace. }
  unfold bind at 1. unfold Now at 1.
  cbn [clockReads processedResources endpointHealthy lastHealthCheck netCalls trace].
  destruct ((0 <? untilUnix resetTime (env_clock E (clockReads w)))
            && (untilUnix resetTime (env_clock E (clockReads w)) <? 5 * Minute));
    (eexists; split; [reflexivity|]; now apply newEvents_of_trace).
Qed.

Lemma fetchFileContent_trace (filePath : string) (w : World) :
  env_newRequest E "GET" (contentsURL cfg filePath) = None ->
  trace (worldOf (fetchFileContent E cfg filePath w))
  = trace (worldOf (fetchFileAttempts E 3 0 (githubRequest cfg filePath) None w)).
Proof.
  intros Hreq. unfold fetchFileContent. rewrite Hreq. unfold bind.
  destruct (fetchFileAttempts E 3 0 (githubRequest cfg filePath) None w)
    as [[[resp closed]|msg] w'|w']; simpl; [|reflexivity..].
  destruct (negb (StatusCode resp =? 200)); [reflexivity|].
  destruct (env_decodeContent E resp) as [content|e]; [|reflexivity].
  destruct (_ && _); [|reflexivity].
  now destruct (env_base64 E _).
Qed.

(** C5 (as amended). One file fetch sends at most three requests and
    sleeps at most three times.  The sleep after attempt [k] is either the
    backoff of [2^k] seconds (1s, 2s, 4s) or, when the reset-time hint is
    usable, the hinted wait plus one second: more than one second and less
    than five minutes and one second.  Which of the two it is, is decided by
    the refusal and the clock: a hint that is there, parses and lies more
    than zero and less than five minutes ahead gives the hinted sleep, any
    other the backoff.  When all three attempts are refused for the rate
    limit, the caller gets the error of status 403. *)
Theorem fetchFileContent_rate_limit_retry (filePath : string) (w : World) :
  let w' := worldOf (fetchFileContent E cfg filePath w) in
  let sleeps := sleepsOf (newEvents w w') in
  (List.length (requestsOf (newEvents w w')) <= 3)%nat
  /\ (List.length sleeps <= 3)%nat
  /\ (forall k d, sleeps !! k = Some d ->
        d = 2 ^ Z.of_nat k * Second \/ Second < d < 5 * Minute + Second)
  /\ (forall remaining i req resp w0 r,
        env_net E (netCalls w0) = DoResp r -> rateLimited r = true ->
        exists w1,
          fetchFileAttempts E (S remaining) i req resp w0
            = fetchFileAttempts E remaining (i + 1) req (Some r) w1
          /\ newEvents w0 w1
             = [EvDo req;
                EvSleep (match resetWait r (env_clock E (clockReads w0)) with
                         | Some waitTime => waitTime + Second
                         | None => shiftSeconds i
                         end)])
  /\ (forall r now waitTime,
        resetWait r now = Some waitTime -> 0 < waitTime < 5 * Minute)
  /\ (env_newRequest E "GET" (contentsURL cfg filePath) = None ->
      (forall k, (k < 3)%nat ->
         exists r, env_net E (netCalls w + k) = DoResp r /\ rateLimited r = true) ->
      exists w'',
        fetchFileContent E cfg filePath w
          = Done (Err "GitHub API error (status 403): ") w''
        /\ netCalls w'' = (netCalls w + 3)%nat).
Proof.
  intros w' sleeps.
  assert (Hlog : exists evs, newEvents w w' = evs
                             /\ retryLog (githubRequest cfg filePath) 0 3 evs).
  { destruct (env_newRequest E "GET" (contentsURL cfg filePath)) as [e|] eqn:Hreq.
    - exists []. split; [|constructor].
      apply newEvents_of_trace. unfold w', fetchFileContent. now rewrite Hreq.
    - destruct (fetchFileAttempts_log 3 0 (githubRequest cfg filePath) None w)
        as (evs & Ht & Hl).
      exists evs. split; [|exact Hl]. apply newEvents_of_trace.
      unfold w'. now rewrite fetchFileContent_trace. }
  destruct Hlog as (evs & Hev & Hl). unfold sleeps. rewrite Hev.
  destruct (retryLog_bounds _ _ _ _ Hl) as (Hr & Hs & Hk & _).
  split; [exact Hr|]. split; [exact Hs|]. split; [|split; [|split]].
  - intros k d Hd. destruct (Hk k d Hd) as [Hb|Hh]; [left | right; exact Hh].
    simpl in Hb. rewrite Hb. apply shiftSeconds_small.
    apply lookup_lt_Some in Hd. lia.
  - intros remaining i req resp w0 r. apply fetchFileAttempts_refused.
  - intros r now waitTime. apply resetWait_bounds.
  - intros Hreq Hnet.
    destruct (fetchFileAttempts_exhausted 3 0 (githubRequest cfg filePath) None w Hnet)
      as (r' & w'' & Hrun & Hlim & Hcalls); [discriminate|].
    exists w''. split; [|exact Hcalls].
    unfold fetchFileContent. rewrite Hreq. unfold bind. rewrite Hrun.
    unfold rateLimited in Hlim. apply andb_true_iff in Hlim as [Hst _].
    apply Z.eqb_eq in Hst. rewrite Hst. reflexivity.
Qed.

End Fetcher.

(** Three refusals in a row, each with a reset time 299.5 seconds ahead:
    the program sleeps 300.5 seconds three times and reports the 403. *)
Example rate_limited_three_times :
  let r := fetchFileContent rateLimitedEnv defaultConfig "apps/nginx/deployment.yaml"
                            startWorld in
  sleepsOf (newEvents startWorld (worldOf r))
    = [300500000000; 300500000000; 300500000000]
  /\ exists w', r = Done (Err "GitHub API error (status 403): ") w'.
Proof. vm_compute. split; [reflexivity | eexists; reflexivity]. Qed.

(** C5 as stated fails: with a usable hint 299.5 seconds ahead the
    program sleeps 300.5 seconds, which is longer than five minutes. *)
Lemma hinted_sleep_exceeds_five_minutes :
  let w' := worldOf (fetchFileContent rateLimitedEnv defaultConfig
                       "apps/nginx/deployment.yaml" startWorld) in
  resetWait rateLimitResponse (env_clock rateLimitedEnv 0) = Some 299500000000
  /\ sleepsOf (newEvents startWorld w') !! 0%nat = Some 300500000000
  /\ 5 * Minute < 300500000000.
Proof. vm_compute. repeat split; reflexivity. Qed.

(** ** The remediation engine: retries of the inference call *)

Lemma sleepsOf_app (a b : list Event) : sleepsOf (a ++ b) = (sleepsOf a ++ sleepsOf b)%list.
Proof.
  induction a as [|e a IH]; [reflexivity|]. destruct e; simpl; now rewrite IH.
Qed.

Lemma requestsOf_app (a b : list Event) :
  requestsOf (a ++ b) = (requestsOf a ++ requestsOf b)%list.
Proof.
  induction a as [|e a IH]; [reflexivity|]. destruct e; simpl; now rewrite IH.
Qed.


Lemma sleepsOf_rev (evs : list Event) : sleepsOf (List.rev evs) = List.rev (sleepsOf evs).
Proof.
  induction evs as [|e evs IH]; [reflexivity|]. simpl. rewrite sleepsOf_app, IH.
  destruct e; simpl; now rewrite ?List.app_nil_r.
Qed.



















Section Inference.

Variable E : Env.
Variable cfg : Config.











End Inference.

(** Status 404 with a body that holds none of the five numbers: one
    attempt, no sleep, the local fallback. *)
Example status_404_is_terminal :
  let r := sendToAIEndpoint (inferenceEnv (mkResponse 404 [] "model not found" None))
                            defaultConfig sampleFiles "Container was OOMKilled" startWorld in
  List.length (postsOf (newEvents startWorld (worldOf r))) = 1%nat
  /\ sleepsOf (newEvents startWorld (worldOf r)) = []
  /\ exists w', r = Done (generateLocalFallbackResponse "Container was OOMKilled" sampleFiles) w'.
Proof. vm_compute. repeat split. eexists. reflexivity. Qed.

(** Status 503 every time: three attempts, 2s and 4s between them, then
    the local fallback. *)
Example status_503_is_retried :
  let r := sendToAIEndpoint (inferenceEnv (mkResponse 503 [] "overloaded" None))
                            defaultConfig sampleFiles "Container was OOMKilled" startWorld in
  List.length (postsOf (newEvents startWorld (worldOf r))) = 3%nat
  /\ sleepsOf (newEvents startWorld (worldOf r)) = [2 * Second; 4 * Second]
  /\ exists w', r = Done (generateLocalFallbackResponse "Container was OOMKilled" sampleFiles) w'.
Proof. vm_compute. repeat split. eexists. reflexivity. Qed.


(** ** The remediation publisher *)

Section Publisher.

Variable E : Env.
Variable cfg : Config.



End Publisher.



(** ** The diagnostic extractor: namespace resolution *)





(** ** The USE_FALLBACK flag *)

Section Flag.

Variable E : Env.

Lemma aiAttempts_return (cfg : Config) (remaining : nat) (attempt : Z) (body : RequestBody)
    (files : list (string * string)) (solution : string) (w w' : World)
    (fileUpdates : list FileUpdate) :
  aiAttempts E cfg remaining attempt body files solution w = Done (LoopReturn fileUpdates) w' ->
  fileUpdates = generateLocalFallbackResponse solution files.
Proof.
  revert attempt w. induction remaining as [|n IH]; intros attempt w; simpl.
  - discriminate.
  - unfold bind at 1.
    destruct ((if 0 <? attempt then Sleep (backoffTime attempt) else ret tt) w)
      as [[] w1|w1]; [|discriminate].
    unfold bind at 1. destruct (tryAIEndpoint E cfg body w1) as [[resp|errText] w2|w2];
      [| |discriminate].
    + unfold bind. destruct (updateEndpointHealth E true w2); discriminate.
    + destruct (nonRetryable errText); [now intros [= <- _] | apply IH].
Qed.

(** C9. The flag is never read on the way from an event to a pull
    request: two configurations that differ in it only give the same
    result and the same world, for the inference call and for any
    sequence of notifications.  With the flag off the local fallback is
    still what the call returns when the health check fails, when the loop
    ends on an error it does not retry, when the answer cannot be read,
    and when the attempts run out. *)
Theorem useFallback_is_never_consulted (cfg : Config) (b : bool) :
  (forall files solution w,
      sendToAIEndpoint E (withUseFallback b cfg) files solution w
      = sendToAIEndpoint E cfg files solution w)
  /\ (forall ns w,
      deliverAll E (withUseFallback b cfg) ns w = deliverAll E cfg ns w)
  /\ (forall files solution w,
      let off := withUseFallback false cfg in
      let fallback := generateLocalFallbackResponse solution files in
      let body := ChatBody (aiModel off) (promptContent files solution) in
      (forall w1, healthGate E off w = Done false w1 ->
         sendToAIEndpoint E off files solution w = Done fallback w1)
      /\ (forall w1 w2 out,
            healthGate E off w = Done true w1 ->
            aiAttempts E off (Z.to_nat (aiMaxRetries off)) 0 body files solution w1
              = Done out w2 ->
            match out with
            | LoopReturn fileUpdates =>
                fileUpdates = fallback
                /\ sendToAIEndpoint E off files solution w = Done fallback w2
            | LoopBreak responseData =>
                forall e, extractFileUpdatesFromResponse E responseData = Err e ->
                          sendToAIEndpoint E off files solution w = Done fallback w2
            | LoopDone => sendToAIEndpoint E off files solution w = Done fallback w2
            end)).
Proof.
  split; [|split].
  - intros files solution w. destruct cfg. reflexivity.
  - intros ns w. destruct cfg. reflexivity.
  - intros files solution w off fallback body. split.
    + intros w1 Hgate. unfold sendToAIEndpoint. fold (healthGate E off).
      unfold bind. now rewrite Hgate.
    + intros w1 w2 out Hgate Hloop.
      assert (Hrun : sendToAIEndpoint E off files solution w
                     = match out with
                       | LoopReturn fileUpdates => Done fileUpdates w2
                       | LoopBreak responseData =>
                           match extractFileUpdatesFromResponse E responseData with
                           | Err _ => Done fallback w2
                           | Ok fileUpdates => Done fileUpdates w2
                           end
                       | LoopDone => Done fallback w2
                       end).
      { unfold sendToAIEndpoint. fold (healthGate E off). unfold bind at 1.
        rewrite Hgate. cbn [negb]. unfold bind. fold body. rewrite Hloop.
        destruct out as [ups|data|]; try reflexivity.
        now destruct (extractFileUpdatesFromResponse E data). }
      destruct out as [ups|data|].
      * apply aiAttempts_return in Hloop. subst ups. now split.
      * intros e He. now rewrite Hrun, He.
      * exact Hrun.
Qed.

End Flag.

(** The one place that reads the flag: the line [main] prints at startup. *)
Example startupBanner_shows_useFallback :
  List.nth 9 (startupBanner (withUseFallback false defaultConfig)) ""
    = "- Local Fallback Enabled: false"
  /\ List.nth 9 (startupBanner defaultConfig) "" = "- Local Fallback Enabled: true".
Proof. split; reflexivity. Qed.

(** ** Lines: splitting, joining and trimming *)

Lemma noLF_append (a b : string) : noLF (a ++ b) = noLF a && noLF b.
Proof.
  induction a as [|c a IH]; simpl; [reflexivity|].
  now rewrite IH, andb_assoc.
Qed.

Lemma Split_not_nil (s : string) (sep : ascii) : Split s sep <> [].
Proof.
  destruct s as [|c s]; simpl; [discriminate|].
  destruct (Ascii.eqb c sep); [discriminate|].
  destruct (Split s sep); discriminate.
Qed.

Lemma Split_noLF (s : string) : Forall (fun l => noLF l = true) (Split s (byte 10)).
Proof.
  induction s as [|c s IH]; simpl; [repeat constructor|].
  destruct (Ascii.eqb c (byte 10)) eqn:Hc; [constructor; [reflexivity | exact IH]|].
  destruct (Split s (byte 10)) as [|l ls]; [repeat constructor; simpl; now rewrite Hc|].
  inversion IH as [|? ? Hl Hls]; subst. constructor; [|exact Hls].
  simpl. now rewrite Hc, Hl.
Qed.

Lemma Split_single (x : string) : noLF x = true -> Split x (byte 10) = [x].
Proof.
  induction x as [|c x IH]; simpl; [reflexivity|]. intros H.
  apply andb_true_iff in H as [Hc Hx]. apply negb_true_iff in Hc.
  now rewrite Hc, (IH Hx).
Qed.

Lemma Split_append_line (x t : string) :
  noLF x = true -> Split (x ++ String (byte 10) t) (byte 10) = x :: Split t (byte 10).
Proof.
  induction x as [|c x IH]; simpl; intros H.
  - reflexivity.
  - apply andb_true_iff in H as [Hc Hx]. apply negb_true_iff in Hc.
    now rewrite Hc, (IH Hx).
Qed.

Lemma Split_Join (lines : list string) :
  lines <> [] -> Forall (fun l => noLF l = true) lines ->
  Split (Join lines nl) (byte 10) = lines.
Proof.
  induction lines as [|x rest IH]; [contradiction|]. intros _ Hall.
  inversion Hall as [|? ? Hx Hrest]; subst.
  destruct rest as [|y rest].
  - simpl. now apply Split_single.
  - change (Join (x :: y :: rest) nl) with (x ++ String (byte 10) (Join (y :: rest) nl)).
    rewrite Split_append_line by exact Hx. f_equal. now apply IH.
Qed.

(** *** What trimming leaves at a plain byte *)

Lemma plainByte_not_space (c : ascii) : plainByte c = true -> isAsciiSpace c = false.
Proof. unfold plainByte. intros H. apply andb_true_iff in H as [_ H]. now apply negb_true_iff. Qed.

Lemma plainByte_lt (c : ascii) : plainByte c = true -> (nat_of_ascii c < 128)%nat.
Proof. unfold plainByte. intros H. apply andb_true_iff in H as [H _]. now apply Nat.ltb_lt. Qed.

Lemma isSpace2_plain_l (c x : ascii) : plainByte c = true -> isSpace2 c x = false.
Proof.
  intros H. apply plainByte_lt in H. unfold isSpace2.
  destruct (Nat.eqb_spec (nat_of_ascii c) 194); [lia | reflexivity].
Qed.

Lemma isSpace2_plain_r (c x : ascii) : plainByte c = true -> isSpace2 x c = false.
Proof.
  intros H. apply plainByte_lt in H. unfold isSpace2.
  destruct (Nat.eqb_spec (nat_of_ascii c) 133); [lia|].
  destruct (Nat.eqb_spec (nat_of_ascii c) 160); [lia|].
  apply andb_false_r.
Qed.

Lemma isSpace3_plain_1 (c x y : ascii) : plainByte c = true -> isSpace3 c x y = false.
Proof.
  intros H. apply plainByte_lt in H. unfold isSpace3.
  destruct (Nat.eqb_spec (nat_of_ascii c) 225); [lia|].
  destruct (Nat.eqb_spec (nat_of_ascii c) 226); [lia|].
  destruct (Nat.eqb_spec (nat_of_ascii c) 227); [lia | reflexivity].
Qed.

Lemma isSpace3_plain_2 (c x y : ascii) : plainByte c = true -> isSpace3 x c y = false.
Proof.
  intros H. apply plainByte_lt in H. unfold isSpace3.
  destruct (Nat.eqb_spec (nat_of_ascii c) 154); [lia|].
  destruct (Nat.eqb_spec (nat_of_ascii c) 128); [lia|].
  destruct (Nat.eqb_spec (nat_of_ascii c) 129); [lia|].
  now rewrite !andb_false_r.
Qed.

Lemma isSpace3_plain_3 (c x y : ascii) : plainByte c = true -> isSpace3 x y c = false.
Proof.
  intros H. apply plainByte_lt in H. unfold isSpace3.
  destruct (Nat.eqb_spec (nat_of_ascii c) 128); [lia|].
  destruct (Nat.leb_spec 128 (nat_of_ascii c)); [lia|].
  destruct (Nat.eqb_spec (nat_of_ascii c) 168); [lia|].
  destruct (Nat.eqb_spec (nat_of_ascii c) 169); [lia|].
  destruct (Nat.eqb_spec (nat_of_ascii c) 175); [lia|].
  destruct (Nat.eqb_spec (nat_of_ascii c) 159); [lia|].
  now rewrite !andb_false_r.
Qed.

Lemma TrimLeftSpace_plain (c : ascii) (s : string) :
  plainByte c = true -> TrimLeftSpace (String c s) = String c s.
Proof.
  intros H. simpl. rewrite (plainByte_not_space c H).
  destruct s as [|b1 [|b2 s3]]; try reflexivity.
  - now rewrite isSpace2_plain_l.
  - now rewrite isSpace2_plain_l, isSpace3_plain_1.
Qed.

(** Read from the end, trimming never goes past a plain byte. *)
Lemma TrimLeftSpaceRev_stops (n : nat) (u q : string) (c : ascii) :
  plainByte c = true -> (String.length u <= n)%nat ->
  exists u', TrimLeftSpaceRev (u ++ String c q) = u' ++ String c q.
Proof.
  intros Hc. revert u. induction n as [|n IH]; intros u Hn.
  - destruct u; [|simpl in Hn; lia]. exists "". simpl.
    rewrite (plainByte_not_space c Hc).
    destruct q as [|b1 [|b2 s3]]; try reflexivity.
    + now rewrite isSpace2_plain_r.
    + now rewrite isSpace2_plain_r, isSpace3_plain_3.
  - destruct u as [|a u1].
    { apply (IH ""). simpl. lia. }
    simpl in Hn. simpl.
    destruct (isAsciiSpace a); [apply IH; lia|].
    destruct u1 as [|b1 u2]; simpl.
    { rewrite isSpace2_plain_l by exact Hc.
      exists (String a ""). destruct q as [|b2 s3]; [reflexivity|].
      now rewrite isSpace3_plain_2. }
    simpl in Hn.
    destruct (isSpace2 b1 a); [apply IH; lia|].
    destruct u2 as [|b2 u3]; simpl.
    { rewrite isSpace3_plain_1 by exact Hc. now exists (String a (String b1 "")). }
    simpl in Hn.
    destruct (isSpace3 b2 b1 a); [apply IH; lia|].
    now exists (String a (String b1 (String b2 u3))).
Qed.

Lemma rev_acc (s acc : string) : GoStrings.rev s acc = GoStrings.rev s "" ++ acc.
Proof.
  revert acc. induction s as [|c s IH]; intros acc; simpl; [reflexivity|].
  rewrite IH, (IH (String c "")). now rewrite append_assoc.
Qed.

Lemma rev_append (a b : string) :
  GoStrings.rev (a ++ b) "" = GoStrings.rev b "" ++ GoStrings.rev a "".
Proof.
  induction a as [|c a IH]; simpl; [now rewrite append_empty_r|].
  rewrite (rev_acc (a ++ b) (String c "")), IH, (rev_acc a (String c "")).
  now rewrite append_assoc.
Qed.

Lemma rev_involutive (s : string) : GoStrings.rev (GoStrings.rev s "") "" = s.
Proof.
  induction s as [|c s IH]; simpl; [reflexivity|].
  rewrite (rev_acc s (String c "")), rev_append, IH. reflexivity.
Qed.

(** Trailing white space is cut after the last plain byte at the
    earliest: a prefix that ends in a plain byte survives. *)
Lemma TrimRightSpace_keeps (p t : string) (c : ascii) :
  plainByte c = true ->
  exists t', TrimRightSpace (p ++ String c t) = p ++ String c t'.
Proof.
  intros Hc.
  assert (Hrev : GoStrings.rev (p ++ String c t) ""
                 = GoStrings.rev t "" ++ String c (GoStrings.rev p "")).
  { rewrite rev_append. simpl. now rewrite (rev_acc t (String c "")), append_assoc. }
  destruct (TrimLeftSpaceRev_stops (String.length (GoStrings.rev t ""))
              (GoStrings.rev t "") (GoStrings.rev p "") c Hc (le_n _)) as [u' Hu].
  exists (GoStrings.rev u' ""). unfold TrimRightSpace. rewrite Hrev, Hu, rev_append.
  simpl. rewrite (rev_acc (GoStrings.rev p "") (String c "")), rev_involutive.
  now rewrite append_assoc.
Qed.

Lemma TrimLeftSpace_indentation (line s : string) :
  TrimLeftSpace (extractIndentation line ++ s) = TrimLeftSpace s.
Proof.
  induction line as [|c line IH]; simpl; [reflexivity|].
  destruct (Ascii.eqb_spec c (byte 32)) as [->|]; simpl; [exact IH|].
  destruct (Ascii.eqb_spec c (byte 9)) as [->|]; simpl; [exact IH | reflexivity].
Qed.

Lemma extractIndentation_stable (line s : string) (c : ascii) :
  Ascii.eqb c (byte 32) || Ascii.eqb c (byte 9) = false ->
  extractIndentation (extractIndentation line ++ String c s) = extractIndentation line.
Proof.
  intros Hc. induction line as [|x line IH]; simpl; [now rewrite Hc|].
  destruct (Ascii.eqb x (byte 32) || Ascii.eqb x (byte 9)) eqn:Hx; simpl.
  - now rewrite Hx, IH.
  - now rewrite Hc.
Qed.

Lemma noLF_extractIndentation (line : string) : noLF (extractIndentation line) = true.
Proof.
  induction line as [|c line IH]; simpl; [reflexivity|].
  destruct (Ascii.eqb_spec c (byte 32)) as [->|]; simpl; [exact IH|].
  destruct (Ascii.eqb_spec c (byte 9)) as [->|]; simpl; [exact IH | reflexivity].
Qed.

(** ** The rewrite of the memory lines *)

Lemma memory_prefix_excludes (s : string) :
  HasPrefix s "memory:" = true ->
  HasPrefix s "resources:" = false /\ HasPrefix s "limits:" = false
  /\ HasPrefix s "requests:" = false /\ String.eqb s EmptyString = false.
Proof.
  destruct s as [|a s]; simpl; [discriminate|].
  destruct (Ascii.eqb_spec a "m") as [->|]; [|discriminate]. intros _.
  repeat split; reflexivity.
Qed.

Lemma TrimSpace_memory_line (line newLimit : string) :
  HasPrefix (TrimSpace (extractIndentation line ++ "memory: " ++ newLimit)) "memory:" = true.
Proof.
  unfold TrimSpace. rewrite TrimLeftSpace_indentation.
  change ("memory: " ++ newLimit) with (String "m" ("emory: " ++ newLimit)).
  rewrite TrimLeftSpace_plain by reflexivity.
  change (String "m" ("emory: " ++ newLimit)) with ("memory" ++ String ":" (String " " newLimit)).
  destruct (TrimRightSpace_keeps "memory" (String " " newLimit) ":" eq_refl) as [t' ->].
  reflexivity.
Qed.

Lemma HasPrefix_memory_line (line newLimit : string) (c : ascii) :
  Ascii.eqb "m" c = false ->
  HasPrefix (extractIndentation line ++ "memory: " ++ newLimit) (String c EmptyString)
  = HasPrefix line (String c EmptyString) && (Ascii.eqb c (byte 32) || Ascii.eqb c (byte 9)).
Proof.
  intros Hm. destruct line as [|x line]; cbn [extractIndentation append HasPrefix].
  - now rewrite Hm.
  - destruct (Ascii.eqb x (byte 32) || Ascii.eqb x (byte 9)) eqn:Hx;
      cbn [extractIndentation append HasPrefix].
    + destruct (Ascii.eqb_spec x c) as [->|]; [now rewrite Hx | reflexivity].
    + rewrite Hm. destruct (Ascii.eqb_spec x c) as [->|]; [now rewrite Hx | reflexivity].
Qed.

(** Rewriting the rewritten lines with the same limit changes nothing. *)
Lemma updateMemoryLines_idempotent (newLimit : string) (lines : list string)
    (inResources inLimits : bool) :
  updateMemoryLines (updateMemoryLines lines inResources inLimits newLimit)
                    inResources inLimits newLimit
  = updateMemoryLines lines inResources inLimits newLimit.
Proof.
  revert inResources inLimits.
  induction lines as [|line rest IH]; intros r l; [reflexivity|].
  cbn [updateMemoryLines]. cbv zeta.
  destruct (HasPrefix (TrimSpace line) "resources:") eqn:H1.
  { cbn [updateMemoryLines]. cbv zeta. rewrite H1. now rewrite IH. }
  destruct (r && negb (HasPrefix line " ") && negb (HasPrefix line tab)
            && negb (String.eqb (TrimSpace line) "")) eqn:H2.
  { cbn [updateMemoryLines]. cbv zeta. rewrite H1, H2. now rewrite IH. }
  destruct (r && HasPrefix (TrimSpace line) "limits:") eqn:H3.
  { cbn [updateMemoryLines]. cbv zeta. rewrite H1, H2, H3. now rewrite IH. }
  destruct (l && HasPrefix (TrimSpace line) "requests:") eqn:H4.
  { cbn [updateMemoryLines]. cbv zeta. rewrite H1, H2, H3, H4. now rewrite IH. }
  destruct (l && HasPrefix (TrimSpace line) "memory:") eqn:H5.
  2:{ cbn [updateMemoryLines]. cbv zeta. rewrite H1, H2, H3, H4, H5. now rewrite IH. }
  apply andb_true_iff in H5 as [-> Hmem].
  destruct (memory_prefix_excludes _ Hmem) as (_ & _ & _ & Hne).
  pose proof (TrimSpace_memory_line line newLimit) as Hmem'.
  destruct (memory_prefix_excludes _ Hmem') as (E1 & E3 & E4 & Hne').
  cbn [updateMemoryLines]. cbv zeta.
  rewrite E1, E3, E4, Hmem', Hne'.
  rewrite Hne in H2.
  assert (H2' : r && negb (HasPrefix (extractIndentation line ++ "memory: " ++ newLimit) " ")
                && negb (HasPrefix (extractIndentation line ++ "memory: " ++ newLimit) tab)
                && negb false = false).
  { unfold tab in H2 |- *.
    rewrite (HasPrefix_memory_line line newLimit " " eq_refl).
    rewrite (HasPrefix_memory_line line newLimit (byte 9) eq_refl).
    change (Ascii.eqb " " (byte 32) || Ascii.eqb " " (byte 9)) with true.
    change (Ascii.eqb (byte 9) (byte 32) || Ascii.eqb (byte 9) (byte 9)) with true.
    cbn [negb] in H2 |- *. rewrite ?andb_true_r in H2. rewrite !andb_true_r. exact H2. }
  rewrite H2'. rewrite !andb_false_r. simpl andb.
  rewrite IH. f_equal.
  change ("memory: " ++ newLimit) with (String "m" ("emory: " ++ newLimit)).
  now rewrite extractIndentation_stable.
Qed.

Lemma updateMemoryLines_not_nil (newLimit : string) (lines : list string)
    (inResources inLimits : bool) :
  lines <> [] -> updateMemoryLines lines inResources inLimits newLimit <> [].
Proof.
  destruct lines as [|line rest]; [contradiction|]. intros _.
  cbn [updateMemoryLines]. cbv zeta.
  repeat match goal with |- context [if ?b then _ else _] => destruct b end; discriminate.
Qed.

Lemma updateMemoryLines_noLF (newLimit : string) (lines : list string)
    (inResources inLimits : bool) :
  noLF newLimit = true ->
  Forall (fun l => noLF l = true) lines ->
  Forall (fun l => noLF l = true) (updateMemoryLines lines inResources inLimits newLimit).
Proof.
  intros HL Hall. revert inResources inLimits.
  induction Hall as [|line rest Hline _ IH]; intros r l; [constructor|].
  cbn [updateMemoryLines]. cbv zeta.
  repeat match goal with |- context [if ?b then _ else _] => destruct b end;
    constructor; try exact Hline; try apply IH.
  now rewrite !noLF_append, noLF_extractIndentation, HL.
Qed.

Lemma noLF_Contains (s : string) : Contains s nl = false -> noLF s = true.
Proof.
  rewrite Contains_indexNat. induction s as [|c s IH]; simpl; [reflexivity|].
  destruct (Ascii.eqb c (byte 10)); [discriminate|]. simpl.
  destruct (indexNat s nl); [discriminate | now intros _; apply IH].
Qed.

(** Rewriting twice with one limit is rewriting once. *)
Lemma updateMemoryLimits_idempotent (content newLimit : string) :
  noLF newLimit = true ->
  updateMemoryLimits (updateMemoryLimits content newLimit) newLimit
  = updateMemoryLimits content newLimit.
Proof.
  intros HL. unfold updateMemoryLimits.
  rewrite Split_Join.
  - now rewrite updateMemoryLines_idempotent.
  - apply updateMemoryLines_not_nil, Split_not_nil.
  - apply updateMemoryLines_noLF; [exact HL | apply Split_noLF].
Qed.

(** *** The limit the heuristic writes holds no line feed *)

Lemma noLF_rev (s acc : string) : noLF (GoStrings.rev s acc) = noLF s && noLF acc.
Proof.
  revert acc. induction s as [|c s IH]; intros acc; simpl; [reflexivity|].
  rewrite IH. simpl. destruct (negb (Ascii.eqb c (byte 10))), (noLF s), (noLF acc); reflexivity.
Qed.

Lemma noLF_tail (c : ascii) (s : string) : noLF (String c s) = true -> noLF s = true.
Proof. simpl. intros H. now apply andb_true_iff in H as [_ H]. Qed.

Lemma TrimLeftSpace_noLF (n : nat) (s : string) :
  (String.length s <= n)%nat -> noLF s = true -> noLF (TrimLeftSpace s) = true.
Proof.
  revert s. induction n as [|n IH]; intros s Hn Hs.
  - destruct s; [reflexivity | simpl in Hn; lia].
  - destruct s as [|b0 s1]; [reflexivity|]. simpl in Hn. simpl.
    pose proof (noLF_tail _ _ Hs) as Hs1.
    destruct (isAsciiSpace b0); [apply IH; [lia | exact Hs1]|].
    destruct s1 as [|b1 s2]; [exact Hs|]. simpl in Hn.
    pose proof (noLF_tail _ _ Hs1) as Hs2.
    destruct (isSpace2 b0 b1); [apply IH; [lia | exact Hs2]|].
    destruct s2 as [|b2 s3]; [exact Hs|]. simpl in Hn.
    destruct (isSpace3 b0 b1 b2); [apply IH; [lia | exact (noLF_tail _ _ Hs2)] | exact Hs].
Qed.

Lemma TrimLeftSpaceRev_noLF (n : nat) (s : string) :
  (String.length s <= n)%nat -> noLF s = true -> noLF (TrimLeftSpaceRev s) = true.
Proof.
  revert s. induction n as [|n IH]; intros s Hn Hs.
  - destruct s; [reflexivity | simpl in Hn; lia].
  - destruct s as [|b0 s1]; [reflexivity|]. simpl in Hn. simpl.
    pose proof (noLF_tail _ _ Hs) as Hs1.
    destruct (isAsciiSpace b0); [apply IH; [lia | exact Hs1]|].
    destruct s1 as [|b1 s2]; [exact Hs|]. simpl in Hn.
    pose proof (noLF_tail _ _ Hs1) as Hs2.
    destruct (isSpace2 b1 b0); [apply IH; [lia | exact Hs2]|].
    destruct s2 as [|b2 s3]; [exact Hs|]. simpl in Hn.
    destruct (isSpace3 b2 b1 b0); [apply IH; [lia | exact (noLF_tail _ _ Hs2)] | exact Hs].
Qed.

Lemma TrimSpace_noLF (s : string) : noLF s = true -> noLF (TrimSpace s) = true.
Proof.
  intros Hs. unfold TrimSpace, TrimRightSpace.
  rewrite noLF_rev, andb_true_r.
  apply (TrimLeftSpaceRev_noLF _ _ (le_n _)).
  rewrite noLF_rev, andb_true_r.
  now apply (TrimLeftSpace_noLF _ _ (le_n _)).
Qed.

Lemma take_to_first_LF (s : string) (n : nat) :
  indexNat s nl = Some n -> noLF (take n s) = true.
Proof.
  revert n. induction s as [|c s IH]; intros n; simpl; [discriminate|].
  destruct (Ascii.eqb c (byte 10)) eqn:Hc; [now intros [= <-]|].
  destruct (indexNat s nl) as [k|]; [|discriminate].
  intros [= <-]. simpl. rewrite Hc. now apply IH.
Qed.

Lemma valueAfter_noLF (content key : string) : noLF (valueAfter content key) = true.
Proof.
  unfold valueAfter. destruct (0 <=? Index content key); [|reflexivity].
  set (sub := drop _ content).
  destruct (Z.ltb_spec 0 (Index sub nl)) as [Hpos|]; [|reflexivity].
  apply TrimSpace_noLF, take_to_first_LF.
  rewrite Index_indexNat in Hpos |- *.
  destruct (indexNat sub nl); [now rewrite Nat2Z.id | lia].
Qed.

Lemma memoryLimit_noLF (content : string) : noLF (memoryLimit content) = true.
Proof.
  unfold memoryLimit. destruct (Contains content "resources"); [|reflexivity].
  destruct (0 <=? Index content "limits:"); [apply valueAfter_noLF | reflexivity].
Qed.

Lemma splitNumber_noLF (s : string) : noLF s = true -> noLF (snd (splitNumber s)) = true.
Proof.
  induction s as [|c s IH]; [reflexivity|]. intros Hs. simpl.
  destruct (isDigit c); [|exact Hs].
  specialize (IH (noLF_tail _ _ Hs)). now destruct (splitNumber s).
Qed.

Lemma string_of_uint_noLF (d : Decimal.uint) :
  noLF (NilEmpty.string_of_uint d) = true.
Proof. induction d; simpl; try reflexivity; exact IHd. Qed.

Lemma Itoa_noLF (n : Z) : noLF (Itoa n) = true.
Proof.
  unfold Itoa, NilZero.string_of_int, NilZero.string_of_uint.
  destruct (Z.to_int n) as [d|d]; destruct d; simpl; try reflexivity;
    apply string_of_uint_noLF.
Qed.

Lemma targetLimit_noLF (content : string) : noLF (targetLimit content) = true.
Proof.
  unfold targetLimit, parseMemory.
  destruct (String.eqb (memoryLimit content) ""); [reflexivity|].
  pose proof (splitNumber_noLF _ (memoryLimit_noLF content)) as Hu.
  destruct (splitNumber (memoryLimit content)) as [numPart unitPart]. simpl in Hu.
  destruct (Atoi numPart) as [num|]; [|reflexivity].
  unfold newMemoryLimit. destruct (_ || _); [reflexivity|].
  now rewrite noLF_append, Itoa_noLF, Hu.
Qed.

(** The update of one file, spelled out. *)
Lemma fallbackFileUpdate_spec (name content : string) :
  fallbackFileUpdate name content
  = if eligible name content
       && negb (String.eqb (updateMemoryLimits content (targetLimit content)) content)
    then Some (mkFileUpdate name (updateMemoryLimits content (targetLimit content)))
    else None.
Proof.
  unfold fallbackFileUpdate, eligible, targetLimit.
  destruct (HasSuffix name ".yaml" || HasSuffix name ".yml"); [|reflexivity].
  destruct (Contains content "kind: Deployment"); [|reflexivity].
  destruct (negb (String.eqb (deploymentName content) "")); [|reflexivity].
  simpl. now destruct (parseMemory (memoryLimit content)).
Qed.

(** C4 (as amended).  For a limit that holds no line feed, rewriting a
    file twice with that limit gives what rewriting it once gives.  So a
    second application of the heuristic to a patched file yields no
    further FileUpdate whenever it computes the limit the first one wrote;
    it is for the heuristic as a whole, which reads the limit anew from
    the patched file, that this fails. *)
Theorem rewrite_with_same_limit_is_idempotent :
  (forall content newLimit,
      Contains newLimit nl = false ->
      updateMemoryLimits (updateMemoryLimits content newLimit) newLimit
      = updateMemoryLimits content newLimit)
  /\ (forall name content fileUpdate,
      fallbackFileUpdate name content = Some fileUpdate ->
      targetLimit (Content fileUpdate) = targetLimit content ->
      fallbackFileUpdate name (Content fileUpdate) = None).
Proof.
  split.
  - intros content newLimit HL. now apply updateMemoryLimits_idempotent, noLF_Contains.
  - intros name content u Hu Htarget. rewrite fallbackFileUpdate_spec in Hu.
    destruct (eligible name content && _); [|discriminate].
    injection Hu as <-. simpl in *. rewrite fallbackFileUpdate_spec, Htarget.
    rewrite updateMemoryLimits_idempotent by apply targetLimit_noLF.
    now rewrite String.eqb_refl, andb_false_r.
Qed.

(** The limit read from a comment stays at 6Mi, so both passes aim at
    256Mi: the first one patches the container's 128Mi, the second one
    finds nothing to change. *)
Lemma rewrite_with_same_limit_witness :
  updateMemoryLimits (updateMemoryLimits (commentedLimit "128Mi") "256Mi") "256Mi"
  = updateMemoryLimits (commentedLimit "128Mi") "256Mi"
  /\ fallbackFileUpdate "deployment.yaml" (commentedLimit "128Mi")
     = Some (mkFileUpdate "deployment.yaml" (commentedLimit "256Mi"))
  /\ fallbackFileUpdate "deployment.yaml" (commentedLimit "256Mi") = None.
Proof.
  split; [|split].
  - apply (proj1 rewrite_with_same_limit_is_idempotent). reflexivity.
  - vm_compute. reflexivity.
  - apply (proj2 rewrite_with_same_limit_is_idempotent
             "deployment.yaml" (commentedLimit "128Mi")
             (mkFileUpdate "deployment.yaml" (commentedLimit "256Mi")));
      vm_compute; reflexivity.
Defined.

(** C4 as stated fails: the first application patches 6Mi to 256Mi, and
    the second one, applied to its output, yields a further FileUpdate
    that sets the limit to 384Mi. *)
Lemma second_pass_scales_again :
  generateLocalFallbackResponse "Container was OOMKilled"
    [("deployment.yaml", sampleDeployment "6Mi")]
  = [mkFileUpdate "deployment.yaml" (sampleDeployment "256Mi")]
  /\ generateLocalFallbackResponse "Container was OOMKilled"
       [("deployment.yaml", sampleDeployment "256Mi")]
     = [mkFileUpdate "deployment.yaml" (sampleDeployment "384Mi")].
Proof. split; vm_compute; reflexivity. Qed.

(** ** The local fallback *)



Lemma digitsValue_allDigits (s : string) (acc n : Z) :
  digitsValue acc s = Some n -> allDigits s = true.
Proof.
  revert acc. induction s as [|c s IH]; intros acc; simpl; [reflexivity|].
  destruct (isDigit c); [apply IH | discriminate].
Qed.

Lemma Atoi_digits (digits : string) (n : Z) :
  digits <> EmptyString -> digitsValue 0 digits = Some n ->
  Atoi digits = if n <=? maxInt64 then Some n else None.
Proof.
  intros Hne Hv. unfold Atoi, ParseInt.
  destruct digits as [|c rest]; [contradiction|].
  assert (Hc : isDigit c = true).
  { apply digitsValue_allDigits in Hv. simpl in Hv. now apply andb_true_iff in Hv as [Hc _]. }
  assert (Hsign : Ascii.eqb c (ascii_of_nat 45) || Ascii.eqb c (ascii_of_nat 43) = false).
  { destruct (Ascii.eqb_spec c (ascii_of_nat 45)) as [->|]; [discriminate Hc|].
    destruct (Ascii.eqb_spec c (ascii_of_nat 43)) as [->|]; [discriminate Hc | reflexivity]. }
  apply orb_false_iff in Hsign as [Hneg Hpos]. rewrite Hneg, Hpos. simpl orb. cbv iota.
  now rewrite Hv.
Qed.



(** *** The lines [updateMemoryLimits] rewrites *)














(** A limit written in quotes does not start with a digit: it is replaced
    by 256Mi, quotes and all, and the memory request above the limits
    block stays as it is. *)
Example quoted_limit_is_replaced :
  memoryLimit (sampleDeployment (quoted "128Mi")) = quoted "128Mi"
  /\ startsWithDigit (quoted "128Mi") = false
  /\ generateLocalFallbackResponse "Container was OOMKilled"
       [("deployment.yaml", sampleDeployment (quoted "128Mi"))]
     = [mkFileUpdate "deployment.yaml" (sampleDeployment "256Mi")].
Proof. repeat split; vm_compute; reflexivity. Qed.

(** ** Further properties of the line functions *)

Lemma extractIndentation_split (line : string) :
  exists rest, line = extractIndentation line ++ rest /\ startsBlank rest = false.
Proof.
  induction line as [|c line (rest & Hl & Hr)]; [now exists EmptyString|].
  simpl. destruct (Ascii.eqb c (byte 32) || Ascii.eqb c (byte 9)) eqn:Hc.
  - exists rest. simpl. split; [now f_equal | exact Hr].
  - exists (String c line). split; [reflexivity | exact Hc].
Qed.

Lemma allBlank_extractIndentation (line : string) :
  allBlank (extractIndentation line) = true.
Proof.
  induction line as [|c line IH]; [reflexivity|]. simpl.
  destruct (Ascii.eqb c (byte 32) || Ascii.eqb c (byte 9)) eqn:Hc; [|reflexivity].
  simpl. unfold isBlank. now rewrite Hc.
Qed.

Lemma extractIndentation_blank_prefix (p rest : string) :
  allBlank p = true -> startsBlank rest = false ->
  extractIndentation (p ++ rest) = p.
Proof.
  intros Hp Hr. induction p as [|c p IH]; simpl in *.
  - destruct rest as [|x rest]; [reflexivity|]. simpl in *.
    unfold isBlank in Hr. now rewrite Hr.
  - apply andb_true_iff in Hp as [Hc Hp]. unfold isBlank in Hc. rewrite Hc.
    now rewrite (IH Hp).
Qed.

(** X1. [extractIndentation] returns the longest prefix of the line that
    is made of spaces and tabs: the result consists of such bytes, the line
    is the result followed by a rest that does not start with one, and the
    result is the only prefix of which both hold. *)
Theorem extractIndentation_longest_blank_prefix (line : string) :
  allBlank (extractIndentation line) = true
  /\ (exists rest, line = extractIndentation line ++ rest /\ startsBlank rest = false)
  /\ (forall p rest,
        line = p ++ rest -> allBlank p = true -> startsBlank rest = false ->
        extractIndentation line = p).
Proof.
  split; [apply allBlank_extractIndentation|].
  split; [apply extractIndentation_split|].
  intros p rest -> Hp Hr. now apply extractIndentation_blank_prefix.
Qed.

(** *** Joining the lines gives the text back *)

Lemma Join_cons (x : string) (rest : list string) :
  rest <> [] -> Join (x :: rest) nl = x ++ nl ++ Join rest nl.
Proof. destruct rest; [contradiction | reflexivity]. Qed.

Lemma Join_Split (s : string) : Join (Split s (byte 10)) nl = s.
Proof.
  induction s as [|c s IH]; [reflexivity|]. simpl.
  destruct (Ascii.eqb_spec c (byte 10)) as [->|Hc].
  - rewrite Join_cons by apply Split_not_nil. now rewrite IH.
  - destruct (Split s (byte 10)) as [|l ls] eqn:Hs; [now destruct (Split_not_nil s (byte 10))|].
    destruct ls as [|l' ls]; simpl in *; now rewrite IH.
Qed.

Lemma Contains_self_prefix (p t : string) : Contains (p ++ t) p = true.
Proof.
  rewrite Contains_indexNat.
  destruct (p ++ t) eqn:Hs; simpl; rewrite <- Hs, HasPrefix_append; reflexivity.
Qed.

Lemma Contains_infix (a p b : string) : Contains (a ++ p ++ b) p = true.
Proof. apply Contains_append_r, Contains_self_prefix. Qed.

Lemma Contains_inside (a s b substr : string) :
  Contains s substr = true -> Contains (a ++ s ++ b) substr = true.
Proof. intros H. now apply Contains_append_r, Contains_append_l. Qed.

(** A line of the text is a part of it. *)
Lemma Join_In (line : string) (lines : list string) :
  In line lines -> exists a b, Join lines nl = a ++ line ++ b.
Proof.
  induction lines as [|x rest IH]; [intros []|].
  intros [->|Hin].
  - destruct rest as [|y rest].
    + exists EmptyString, EmptyString. simpl. now rewrite append_empty_r.
    + exists EmptyString, (nl ++ Join (y :: rest) nl). reflexivity.
  - destruct (IH Hin) as (a & b & Hab).
    destruct rest as [|y rest]; [destruct Hin|].
    exists (x ++ nl ++ a), b.
    rewrite Join_cons by discriminate. rewrite Hab.
    now rewrite !append_assoc.
Qed.

(** *** Trimming keeps a part of the string *)

Lemma TrimLeftSpace_suffix (n : nat) (s : string) :
  (String.length s <= n)%nat -> exists a, s = a ++ TrimLeftSpace s.
Proof.
  revert s. induction n as [|n IH]; intros s Hn.
  - destruct s; [now exists EmptyString | simpl in Hn; lia].
  - destruct s as [|b0 s1]; [now exists EmptyString|]. simpl in Hn. simpl.
    destruct (isAsciiSpace b0).
    { destruct (IH s1) as [a Ha]; [lia|]. exists (String b0 a). simpl. now f_equal. }
    destruct s1 as [|b1 s2]; [now exists EmptyString|]. simpl in Hn.
    destruct (isSpace2 b0 b1).
    { destruct (IH s2) as [a Ha]; [lia|]. exists (String b0 (String b1 a)).
      simpl. now do 2 f_equal. }
    destruct s2 as [|b2 s3]; [now exists EmptyString|]. simpl in Hn.
    destruct (isSpace3 b0 b1 b2); [|now exists EmptyString].
    destruct (IH s3) as [a Ha]; [lia|]. exists (String b0 (String b1 (String b2 a))).
    simpl. now do 3 f_equal.
Qed.

Lemma TrimLeftSpaceRev_suffix (n : nat) (s : string) :
  (String.length s <= n)%nat -> exists a, s = a ++ TrimLeftSpaceRev s.
Proof.
  revert s. induction n as [|n IH]; intros s Hn.
  - destruct s; [now exists EmptyString | simpl in Hn; lia].
  - destruct s as [|b0 s1]; [now exists EmptyString|]. simpl in Hn. simpl.
    destruct (isAsciiSpace b0).
    { destruct (IH s1) as [a Ha]; [lia|]. exists (String b0 a). simpl. now f_equal. }
    destruct s1 as [|b1 s2]; [now exists EmptyString|]. simpl in Hn.
    destruct (isSpace2 b1 b0).
    { destruct (IH s2) as [a Ha]; [lia|]. exists (String b0 (String b1 a)).
      simpl. now do 2 f_equal. }
    destruct s2 as [|b2 s3]; [now exists EmptyString|]. simpl in Hn.
    destruct (isSpace3 b2 b1 b0); [|now exists EmptyString].
    destruct (IH s3) as [a Ha]; [lia|]. exists (String b0 (String b1 (String b2 a))).
    simpl. now do 3 f_equal.
Qed.

Lemma TrimRightSpace_prefix (s : string) : exists b, s = TrimRightSpace s ++ b.
Proof.
  unfold TrimRightSpace.
  destruct (TrimLeftSpaceRev_suffix _ (GoStrings.rev s "") (le_n _)) as [a Ha].
  exists (GoStrings.rev a "").
  rewrite <- rev_append, <- Ha. symmetry. apply rev_involutive.
Qed.

Lemma TrimSpace_infix (s : string) : exists a b, s = a ++ TrimSpace s ++ b.
Proof.
  destruct (TrimLeftSpace_suffix _ s (le_n _)) as [a Ha].
  destruct (TrimRightSpace_prefix (TrimLeftSpace s)) as [b Hb].
  exists a, b. unfold TrimSpace. now rewrite <- Hb.
Qed.

(** What a trimmed line starts with is in the text. *)
Lemma trimmed_prefix_in_text (content line key : string) :
  In line (Split content (byte 10)) ->
  HasPrefix (TrimSpace line) key = true ->
  Contains content key = true.
Proof.
  intros Hin Hp.
  destruct (Join_In _ _ Hin) as (a & b & Hab). rewrite Join_Split in Hab.
  destruct (TrimSpace_infix line) as (la & lb & Hl).
  apply HasPrefix_true in Hp as [t Ht].
  rewrite Hab. apply Contains_inside. rewrite Hl. apply Contains_inside.
  rewrite Ht. apply Contains_self_prefix.
Qed.

Lemma updateMemoryLines_no_resources (newLimit : string) (lines : list string) :
  Forall (fun line => HasPrefix (TrimSpace line) "resources:" = false) lines ->
  updateMemoryLines lines false false newLimit = lines.
Proof.
  induction 1 as [|line rest Hl _ IH]; [reflexivity|].
  cbn [updateMemoryLines]. cbv zeta. rewrite Hl. cbn [andb]. now rewrite IH.
Qed.

Lemma updateMemoryLines_no_memory (newLimit : string) (lines : list string)
    (inResources inLimits : bool) :
  Forall (fun line => HasPrefix (TrimSpace line) "memory:" = false) lines ->
  updateMemoryLines lines inResources inLimits newLimit = lines.
Proof.
  intros H. revert inResources inLimits.
  induction H as [|line rest Hl _ IH]; intros inResources inLimits; [reflexivity|].
  cbn [updateMemoryLines]. cbv zeta. rewrite Hl, andb_false_r.
  repeat match goal with |- context [if ?b then _ else _] => destruct b end;
    now rewrite IH.
Qed.

Lemma no_line_starts_with (content key : string) :
  Contains content key = false ->
  Forall (fun line => HasPrefix (TrimSpace line) key = false) (Split content (byte 10)).
Proof.
  intros H. apply List.Forall_forall. intros line Hin.
  destruct (HasPrefix (TrimSpace line) key) eqn:Hp; [|reflexivity].
  now rewrite (trimmed_prefix_in_text _ _ _ Hin Hp) in H.
Qed.

(** X2. A file whose text holds no "resources:", or no "memory:", comes
    back from [updateMemoryLimits] byte for byte, whatever the new limit,
    and the fallback heuristic yields no update for it. *)
Theorem updateMemoryLimits_leaves_other_files (content : string) :
  Contains content "resources:" = false \/ Contains content "memory:" = false ->
  (forall newLimit, updateMemoryLimits content newLimit = content)
  /\ (forall name, fallbackFileUpdate name content = None).
Proof.
  intros H.
  assert (Hsame : forall newLimit, updateMemoryLimits content newLimit = content).
  { intros newLimit. unfold updateMemoryLimits. destruct H as [H|H].
    - rewrite updateMemoryLines_no_resources by now apply no_line_starts_with.
      apply Join_Split.
    - rewrite updateMemoryLines_no_memory by now apply no_line_starts_with.
      apply Join_Split. }
  split; [exact Hsame|]. intros name. unfold fallbackFileUpdate.
  destruct (HasSuffix name ".yaml" || HasSuffix name ".yml"); [|reflexivity].
  destruct (Contains content "kind: Deployment"); [|reflexivity].
  destruct (negb (String.eqb (deploymentName content) "")); [|reflexivity].
  destruct (parseMemory (memoryLimit content)) as [currentMem unit].
  cbv zeta. now rewrite Hsame, String.eqb_refl.
Qed.

Lemma updateMemoryLimits_leaves_other_files_witness :
  updateMemoryLimits sampleService "256Mi" = sampleService
  /\ fallbackFileUpdate "service.yaml" sampleService = None.
Proof.
  assert (H : Contains sampleService "resources:" = false
              \/ Contains sampleService "memory:" = false) by (left; reflexivity).
  split.
  - apply (proj1 (updateMemoryLimits_leaves_other_files sampleService H)).
  - apply (proj2 (updateMemoryLimits_leaves_other_files sampleService H)).
Defined.

(** *** The updates follow the files *)

Lemma fallbackFileUpdate_Path (name content : string) (fileUpdate : FileUpdate) :
  fallbackFileUpdate name content = Some fileUpdate -> Path fileUpdate = name.
Proof.
  rewrite fallbackFileUpdate_spec.
  destruct (eligible name content && _); [|discriminate].
  now intros [= <-].
Qed.

Lemma fallbackLoop_app (files : list (string * string)) (acc : list FileUpdate) :
  fallbackLoop files acc = (acc ++ fallbackLoop files [])%list.
Proof.
  revert acc. induction files as [|[name content] rest IH]; intros acc; simpl.
  - now rewrite app_nil_r.
  - rewrite IH. rewrite (IH (match fallbackFileUpdate name content with
                              | Some fileUpdate => [fileUpdate]
                              | None => []
                              end)).
    destruct (fallbackFileUpdate name content); simpl.
    + now rewrite <- app_assoc.
    + reflexivity.
Qed.

Lemma fallbackLoop_sublist (files : list (string * string)) :
  sublist (List.map Path (fallbackLoop files [])) (List.map fst files).
Proof.
  induction files as [|[name content] rest IH]; simpl; [constructor|].
  rewrite fallbackLoop_app.
  destruct (fallbackFileUpdate name content) as [fileUpdate|] eqn:Hu; simpl.
  - rewrite (fallbackFileUpdate_Path _ _ _ Hu). now constructor.
  - now constructor.
Qed.

(** X3. The local fallback yields at most one update per file it is
    given, under the file's own name and in the order the files are
    visited; a solution text that is not about memory yields none. *)
Theorem fallback_updates_follow_files (solution : string)
    (files : list (string * string)) :
  sublist (List.map Path (generateLocalFallbackResponse solution files))
          (List.map fst files)
  /\ (List.length (generateLocalFallbackResponse solution files) <= List.length files)%nat
  /\ (isOOM solution = false -> generateLocalFallbackResponse solution files = []).
Proof.
  assert (Hsub : sublist (List.map Path (generateLocalFallbackResponse solution files))
                         (List.map fst files)).
  { unfold generateLocalFallbackResponse. destruct (isOOM solution); simpl.
    - apply fallbackLoop_sublist.
    - apply sublist_nil_l. }
  split; [exact Hsub|]. split.
  - apply sublist_length in Hsub. now rewrite !length_map in Hsub.
  - intros H. unfold generateLocalFallbackResponse. now rewrite H.
Qed.

(** ** The paths the publisher sends *)

Lemma qualifyPath_prefix (namespace path : string) :
  HasPrefix (qualifyPath namespace path) ("apps/" ++ namespace ++ "/") = true.
Proof.
  unfold qualifyPath.
  destruct (HasPrefix path ("apps/" ++ namespace ++ "/")) eqn:Hp; cbn [negb]; [exact Hp|].
  replace ("apps/" ++ namespace ++ "/" ++ path)
    with (("apps/" ++ namespace ++ "/") ++ path) by now rewrite !append_assoc.
  apply HasPrefix_append.
Qed.

Lemma qualifyPath_fixed (namespace path : string) :
  HasPrefix path ("apps/" ++ namespace ++ "/") = true -> qualifyPath namespace path = path.
Proof. unfold qualifyPath. now intros ->. Qed.

(** X4. The publisher sends every update under apps/<namespace>/: a path
    that has the prefix is kept, any other path gets it in front, so that
    qualifying twice changes nothing more; the files of the request are the
    updates in their order, each with its content unchanged. *)
Theorem published_paths_are_qualified (diag : diagnostic) (fileUpdates : list FileUpdate) :
  (forall path,
      HasPrefix (qualifyPath (diag_namespace diag) path)
                ("apps/" ++ diag_namespace diag ++ "/") = true
      /\ qualifyPath (diag_namespace diag) (qualifyPath (diag_namespace diag) path)
         = qualifyPath (diag_namespace diag) path
      /\ (HasPrefix path ("apps/" ++ diag_namespace diag ++ "/") = false ->
          qualifyPath (diag_namespace diag) path
          = "apps/" ++ diag_namespace diag ++ "/" ++ path))
  /\ Forall2 (fun update file =>
                fst file = qualifyPath (diag_namespace diag) (Path update)
                /\ HasPrefix (fst file) ("apps/" ++ diag_namespace diag ++ "/") = true
                /\ snd file = Content update)
             fileUpdates (ghFiles fileUpdates diag).
Proof.
  split.
  - intros path. split; [apply qualifyPath_prefix|]. split.
    + apply qualifyPath_fixed, qualifyPath_prefix.
    + intros H. unfold qualifyPath. now rewrite H.
  - unfold ghFiles. induction fileUpdates as [|update rest IH]; simpl; constructor.
    + simpl. split; [reflexivity|]. split; [apply qualifyPath_prefix | reflexivity].
    + exact IH.
Qed.

(** ** Reading the answer of the inference endpoint and the details of a
       Result *)

Lemma LastIndexFrom_none (i : Z) (s : string) (c : ascii) :
  Contains s (String c EmptyString) = false ->
  LastIndexFrom i s (String c EmptyString) = -1.
Proof.
  rewrite Contains_indexNat. revert i.
  induction s as [|x s IH]; intros i; simpl; [reflexivity|].
  destruct (Ascii.eqb x c); [discriminate|].
  destruct (indexNat s (String c "")); [discriminate|]. intros _.
  now rewrite IH.
Qed.

Lemma LastIndexFrom_last_byte (i : Z) (a post : string) (c : ascii) :
  0 <= i -> Contains post (String c EmptyString) = false ->
  LastIndexFrom i (a ++ String c post) (String c EmptyString) = i + len a.
Proof.
  intros Hi Hpost. revert i Hi.
  induction a as [|x a IH]; intros i Hi.
  - simpl. rewrite LastIndexFrom_none by exact Hpost. simpl.
    rewrite Ascii.eqb_refl. unfold len. simpl. lia.
  - change (String x a ++ String c post) with (String x (a ++ String c post)).
    cbn [LastIndexFrom]. rewrite IH by lia. cbv zeta.
    unfold len in *. cbn [String.length].
    destruct (Z.leb_spec 0 (i + 1 + Z.of_nat (String.length a))); lia.
Qed.

Lemma Index_first_byte (pre x : string) (c : ascii) :
  Contains pre (String c EmptyString) = false ->
  Index (pre ++ String c x) (String c EmptyString) = len pre.
Proof.
  intros H. rewrite Contains_indexNat in H.
  destruct (indexNat pre (String c "")) eqn:Hp; [discriminate|].
  now rewrite Index_indexNat, (indexNat_first_byte _ _ _ Hp).
Qed.

Lemma take_drop_middle (pre mid post : string) :
  take (String.length mid) (drop (String.length pre) (pre ++ mid ++ post)) = mid.
Proof. now rewrite drop_append_length, take_append_length. Qed.

Lemma extractFileUpdates_content (E : Env) (responseData : list (string * iface))
    (rest : list iface) (choice message : list (string * iface)) (content : string) :
  mapIndex responseData "choices" = Some (ISlice (IMap choice :: rest)) ->
  mapIndex choice "message" = Some (IMap message) ->
  mapIndex message "content" = Some (IString content) ->
  extractFileUpdatesFromResponse E responseData
  = unmarshalFileUpdates E
      (if (0 <=? Index content "[") && (Index content "[" <? LastIndex content "]")
       then take (Z.to_nat (LastIndex content "]" + 1 - Index content "["))
                 (drop (Z.to_nat (Index content "[")) content)
       else content).
Proof.
  intros H1 H2 H3. unfold extractFileUpdatesFromResponse. now rewrite H1, H2, H3.
Qed.

(** X5. From an answer whose first choice carries a text, the part from
    the first "[" to the last "]" is what gets decoded as the file
    updates, whatever prose surrounds it; a text that lacks one of the two
    brackets is decoded as a whole. *)
Theorem extractFileUpdates_reads_the_bracketed_part (E : Env)
    (responseData : list (string * iface)) (rest : list iface)
    (choice message : list (string * iface)) (content : string) :
  mapIndex responseData "choices" = Some (ISlice (IMap choice :: rest)) ->
  mapIndex choice "message" = Some (IMap message) ->
  mapIndex message "content" = Some (IString content) ->
  (forall pre mid post,
      content = pre ++ "[" ++ mid ++ "]" ++ post ->
      Contains pre "[" = false -> Contains post "]" = false ->
      extractFileUpdatesFromResponse E responseData
      = unmarshalFileUpdates E ("[" ++ mid ++ "]"))
  /\ (Contains content "[" = false \/ Contains content "]" = false ->
      extractFileUpdatesFromResponse E responseData = unmarshalFileUpdates E content).
Proof.
  intros H1 H2 H3. rewrite (extractFileUpdates_content E _ _ _ _ _ H1 H2 H3). split.
  - intros pre mid post -> Hpre Hpost.
    change ("[" ++ mid ++ "]" ++ post) with (String "[" (mid ++ String "]" post)).
    rewrite (Index_first_byte pre _ "[" Hpre).
    assert (Hlast : LastIndex (pre ++ String "[" (mid ++ String "]" post)) "]"
                    = len (pre ++ String "[" mid)).
    { unfold LastIndex.
      replace (pre ++ String "[" (mid ++ String "]" post))
        with ((pre ++ String "[" mid) ++ String "]" post)
        by (rewrite append_assoc; reflexivity).
      rewrite LastIndexFrom_last_byte by (lia || exact Hpost). lia. }
    rewrite Hlast. unfold len. rewrite length_append. cbn [String.length].
    destruct (Z.leb_spec 0 (Z.of_nat (String.length pre))) as [_|]; [|lia].
    destruct (Z.ltb_spec (Z.of_nat (String.length pre))
                (Z.of_nat (String.length pre + S (String.length mid)))) as [_|]; [|lia].
    cbn [andb]. f_equal. rewrite Nat2Z.id.
    replace (Z.to_nat (Z.of_nat (String.length pre + S (String.length mid)) + 1
                       - Z.of_nat (String.length pre)))
      with (String.length (String "[" (mid ++ "]"))).
    + replace (String "[" (mid ++ String "]" post))
        with (String "[" (mid ++ "]") ++ post).
      * apply take_drop_middle.
      * simpl. f_equal. rewrite append_assoc. reflexivity.
    + cbn [String.length]. rewrite length_append. simpl. lia.
  - intros [H|H].
    + unfold Contains in H. apply Z.leb_gt in H.
      destruct (Z.leb_spec 0 (Index content "[")); [lia | reflexivity].
    + unfold LastIndex. rewrite (LastIndexFrom_none 0 content "]" H).
      destruct (Z.leb_spec 0 (Index content "[")); [|reflexivity].
      destruct (Z.ltb_spec (Index content "[") (-1)); [lia | reflexivity].
Qed.

Lemma extractFileUpdates_bracketed_witness :
  extractFileUpdatesFromResponse offlineEnv
    (chatResponse ("Here is the fix: " ++ "[" ++ "{}" ++ "]" ++ " Done."))
  = unmarshalFileUpdates offlineEnv ("[" ++ "{}" ++ "]").
Proof.
  apply (proj1 (extractFileUpdates_reads_the_bracketed_part offlineEnv
                  (chatResponse "Here is the fix: [{}] Done.") []
                  [("message", IMap [("role", IString "assistant");
                                     ("content", IString "Here is the fix: [{}] Done.")])]
                  [("role", IString "assistant");
                   ("content", IString "Here is the fix: [{}] Done.")]
                  "Here is the fix: [{}] Done."
                  eq_refl eq_refl eq_refl)
               "Here is the fix: " "{}" " Done."); reflexivity.
Defined.

(** *** The details of a Result *)

Lemma indexNat_skip_byte (c d : ascii) (s t : string) :
  Ascii.eqb c d = false ->
  indexNat (String c s) (String d t) = S <$> indexNat s (String d t).
Proof. intros H. simpl. now rewrite H. Qed.

(** The first blank line of [a ++ LF LF ++ b] is the one written, when
    [a ++ LF] holds none. *)
Lemma indexNat_first_blank_line (a b : string) :
  indexNat (a ++ nl) (nl ++ nl) = None ->
  indexNat (a ++ nl ++ nl ++ b) (nl ++ nl) = Some (String.length a).
Proof.
  induction a as [|x a IH]; intros H.
  - reflexivity.
  - change (String x a ++ nl ++ nl ++ b) with (String x (a ++ nl ++ nl ++ b)).
    change (String x a ++ nl) with (String x (a ++ nl)) in H.
    cbn [indexNat] in H |- *.
    assert (Hp : HasPrefix (String x (a ++ nl ++ nl ++ b)) (nl ++ nl)
                 = HasPrefix (String x (a ++ nl)) (nl ++ nl)).
    { unfold nl. cbn [append HasPrefix].
      destruct (Ascii.eqb x (byte 10)); [|reflexivity].
      destruct a as [|y a]; cbn [append HasPrefix].
      - now rewrite Ascii.eqb_refl.
      - reflexivity. }
    rewrite Hp. destruct (HasPrefix (String x (a ++ nl)) (nl ++ nl)); [discriminate|].
    destruct (indexNat (a ++ nl) (nl ++ nl)) eqn:Ha; [discriminate|].
    now rewrite IH.
Qed.

Lemma SplitN2_blank_line (a b : string) :
  Contains (a ++ nl) (nl ++ nl) = false ->
  SplitN2 (a ++ nl ++ nl ++ b) (nl ++ nl) = [a; b].
Proof.
  intros H. rewrite Contains_indexNat in H.
  destruct (indexNat (a ++ nl) (nl ++ nl)) eqn:Ha; [discriminate|].
  unfold SplitN2. rewrite Index_indexNat, (indexNat_first_blank_line _ _ Ha).
  destruct (Z.ltb_spec (Z.of_nat (String.length a)) 0) as [|_]; [lia|].
  rewrite Nat2Z.id. f_equal; [apply take_append_length|]. f_equal.
  replace (a ++ nl ++ nl ++ b) with ((a ++ nl ++ nl) ++ b)
    by now rewrite !append_assoc.
  replace (String.length a + String.length (nl ++ nl))%nat
    with (String.length (a ++ nl ++ nl)) by now rewrite length_append.
  apply drop_append_length.
Qed.

Lemma extractDiagnostic_parts (obj : list (string * iface)) :
  diag_error (extractDiagnostic obj)
  = match SplitN2 (NestedString obj ["spec"; "details"]) (nl ++ nl) with
    | p0 :: _ => TrimPrefix p0 "Error: "
    | [] => EmptyString
    end
  /\ diag_solution (extractDiagnostic obj)
     = match SplitN2 (NestedString obj ["spec"; "details"]) (nl ++ nl) with
       | _ :: p1 :: _ => TrimPrefix p1 "Solution: "
       | _ => EmptyString
       end.
Proof. unfold extractDiagnostic. now destruct (resolveNamespace obj). Qed.

Lemma TrimPrefix_append (prefix s : string) : TrimPrefix (prefix ++ s) prefix = s.
Proof. unfold TrimPrefix. rewrite HasPrefix_append. apply drop_append_length. Qed.

(** X6. The details of a Result are cut at the first blank line: from
    "Error: e", a blank line and "Solution: s", where e holds no blank line
    and does not end in a line feed, the diagnostic gets e as its error and
    s as its solution; details without a blank line give an empty
    solution, for which the local fallback has no update. *)
Theorem details_give_error_and_solution (obj : list (string * iface)) :
  (forall e s,
      NestedString obj ["spec"; "details"]
      = "Error: " ++ e ++ nl ++ nl ++ "Solution: " ++ s ->
      Contains (e ++ nl) (nl ++ nl) = false ->
      diag_error (extractDiagnostic obj) = e
      /\ diag_solution (extractDiagnostic obj) = s)
  /\ (Contains (NestedString obj ["spec"; "details"]) (nl ++ nl) = false ->
      diag_error (extractDiagnostic obj)
      = TrimPrefix (NestedString obj ["spec"; "details"]) "Error: "
      /\ diag_solution (extractDiagnostic obj) = EmptyString
      /\ forall files,
           generateLocalFallbackResponse (diag_solution (extractDiagnostic obj)) files = []).
Proof.
  destruct (extractDiagnostic_parts obj) as [-> ->]. split.
  - intros e s -> He.
    replace ("Error: " ++ e ++ nl ++ nl ++ "Solution: " ++ s)
      with (("Error: " ++ e) ++ nl ++ nl ++ "Solution: " ++ s)
      by now rewrite append_assoc.
    rewrite SplitN2_blank_line.
    + split; apply TrimPrefix_append.
    + rewrite append_assoc. rewrite Contains_indexNat in He |- *.
      unfold nl in *. cbn [append] in He |- *.
      rewrite !indexNat_skip_byte by reflexivity.
      now destruct (indexNat _ _).
  - intros H. unfold SplitN2. unfold Contains in H. apply Z.leb_gt in H.
    destruct (Z.ltb_spec (Index (NestedString obj ["spec"; "details"]) (nl ++ nl)) 0);
      [now repeat split | lia].
Qed.

Lemma details_give_error_and_solution_witness :
  diag_error (extractDiagnostic
                (resultWithDetails ("Error: " ++ "Container was OOMKilled" ++ nl ++ nl
                                    ++ "Solution: " ++ "Raise the memory limit")))
  = "Container was OOMKilled"
  /\ diag_solution (extractDiagnostic
                      (resultWithDetails ("Error: " ++ "Container was OOMKilled" ++ nl ++ nl
                                          ++ "Solution: " ++ "Raise the memory limit")))
     = "Raise the memory limit".
Proof.
  apply (proj1 (details_give_error_and_solution _)); reflexivity.
Defined.

(** ** The source fetcher: a file fetch that is not refused for the rate
       limit *)

Section FetchOnce.

Variable E : Env.
Variable cfg : Config.

Lemma fetchFileAttempts_answered
    (remaining : nat) (i : Z) (req : Request) (resp : option Response) (w : World) :
  (forall r, env_net E (netCalls w) = DoResp r -> rateLimited r = false) ->
  fetchFileAttempts E (S remaining) i req resp w
  = Done (match env_net E (netCalls w) with
          | DoErr msg _ => Err ("error fetching file content: " ++ msg)
          | DoResp r => Ok (r, false)
          end)
         (mkWorld (processedResources w) (endpointHealthy w) (lastHealthCheck w)
                  (S (netCalls w)) (clockReads w) (EvDo req :: trace w)).
Proof.
  intros Hnet. cbn [fetchFileAttempts]. unfold bind, Do.
  destruct (env_net E (netCalls w)) as [r|msg deadline]; [|reflexivity].
  now rewrite (Hnet r eq_refl).
Qed.

(** X7. A file fetch whose first answer is not a rate-limit refusal (403
    with X-RateLimit-Remaining: 0) sends that one request and never
    sleeps: a transport failure and any status other than 200, a plain 403
    included, are reported at once with their text, and a 200 whose content
    is base64 gives the decoded file. *)
Theorem fetchFileContent_answers_without_retry (filePath : string) (w : World) :
  env_newRequest E "GET" (contentsURL cfg filePath) = None ->
  (forall r, env_net E (netCalls w) = DoResp r -> rateLimited r = false) ->
  newEvents w (worldOf (fetchFileContent E cfg filePath w))
  = [EvDo (githubRequest cfg filePath)]
  /\ (forall msg deadline,
        env_net E (netCalls w) = DoErr msg deadline ->
        exists w', fetchFileContent E cfg filePath w
                   = Done (Err ("error fetching file content: " ++ msg)) w')
  /\ (forall r,
        env_net E (netCalls w) = DoResp r -> StatusCode r <> 200 ->
        exists w', fetchFileContent E cfg filePath w
                   = Done (Err ("GitHub API error (status " ++ Itoa (StatusCode r) ++ "): "
                                ++ Body r)) w')
  /\ (forall r content decodedContent,
        env_net E (netCalls w) = DoResp r -> StatusCode r = 200 ->
        env_decodeContent E r = Ok content ->
        gh_Content content <> EmptyString -> gh_Encoding content = "base64" ->
        env_base64 E (removeLineFeeds (gh_Content content)) = Ok decodedContent ->
        exists w', fetchFileContent E cfg filePath w = Done (Ok decodedContent) w').
Proof.
  intros Hreq Hnet.
  pose proof (fetchFileAttempts_answered 2 0 (githubRequest cfg filePath) None w Hnet)
    as Hrun.
  split; [|split; [|split]].
  - apply newEvents_of_trace. rewrite (fetchFileContent_trace E cfg filePath w Hreq).
    now rewrite Hrun.
  - intros msg deadline Hd. eexists. unfold fetchFileContent. rewrite Hreq.
    unfold bind. rewrite Hrun, Hd. reflexivity.
  - intros r Hd Hst. eexists. unfold fetchFileContent. rewrite Hreq.
    unfold bind. rewrite Hrun, Hd.
    destruct (Z.eqb_spec (StatusCode r) 200) as [|_]; [contradiction|]. reflexivity.
  - intros r content decodedContent Hd Hst Hdec Hne Henc Hb64. eexists.
    unfold fetchFileContent. rewrite Hreq. unfold bind. rewrite Hrun, Hd, Hst.
    cbn [Z.eqb negb]. rewrite Hdec, Henc.
    destruct (String.eqb_spec (gh_Content content) "") as [|_]; [contradiction|].
    cbn [negb andb String.eqb]. rewrite Hb64. reflexivity.
Qed.

End FetchOnce.

Lemma fetchFileContent_answers_without_retry_witness :
  newEvents startWorld
    (worldOf (fetchFileContent forbiddenEnv defaultConfig "apps/nginx/deployment.yaml"
                               startWorld))
  = [EvDo (githubRequest defaultConfig "apps/nginx/deployment.yaml")]
  /\ exists w',
       fetchFileContent forbiddenEnv defaultConfig "apps/nginx/deployment.yaml" startWorld
       = Done (Err "GitHub API error (status 403): Resource not accessible") w'.
Proof.
  assert (Hnet : forall r, env_net forbiddenEnv (netCalls startWorld) = DoResp r ->
                           rateLimited r = false) by (intros r [= <-]; reflexivity).
  destruct (fetchFileContent_answers_without_retry forbiddenEnv defaultConfig
              "apps/nginx/deployment.yaml" startWorld eq_refl Hnet)
    as (Hev & _ & Hstatus & _).
  split; [exact Hev|].
  apply (Hstatus (mkResponse 403 [] "Resource not accessible" None) eq_refl).
  discriminate.
Defined.

(** ** The health of the inference endpoint *)

Section Health.

Variable E : Env.
Variable cfg : Config.

Lemma checkAIEndpointHealth_recent (w : World) :
  healthIsRecent E w = true ->
  checkAIEndpointHealth E cfg w
  = Done (endpointHealthy w)
         (mkWorld (processedResources w) (endpointHealthy w) (lastHealthCheck w)
                  (netCalls w) (S (clockReads w)) (trace w)).
Proof.
  unfold healthIsRecent, checkAIEndpointHealth, bind, getLastHealthCheck.
  destruct (lastHealthCheck w) as [t|] eqn:Hlast; [|discriminate].
  unfold Now, ret, getEndpointHealthy. cbn. intros ->. cbn. now rewrite Hlast.
Qed.

(** The world in which the probe is sent: the clock was read once more if
    an earlier check is on record. *)
Lemma checkAIEndpointHealth_stale (w : World) :
  healthIsRecent E w = false ->
  exists w0,
    trace w0 = trace w /\ netCalls w0 = netCalls w
    /\ checkAIEndpointHealth E cfg w
       = match env_newRequest E "GET" (aiBaseUrl cfg ++ "/models") with
         | Some _ =>
             Done false
               (mkWorld (processedResources w0) false (Some (env_clock E (clockReads w0)))
                        (netCalls w0) (S (clockReads w0)) (trace w0))
         | None =>
             Done (probeVerdict (env_net E (netCalls w0)))
               (mkWorld (processedResources w0) (probeVerdict (env_net E (netCalls w0)))
                        (Some (env_clock E (clockReads w0)))
                        (S (netCalls w0)) (S (clockReads w0))
                        (EvDo (healthRequest cfg) :: trace w0))
         end.
Proof.
  unfold healthIsRecent, checkAIEndpointHealth, bind, getLastHealthCheck.
  destruct (lastHealthCheck w) as [t|] eqn:Hlast.
  - unfold Now, ret. cbn. intros ->.
    eexists (mkWorld _ _ _ _ _ _). split; [reflexivity|]. split; [reflexivity|].
    destruct (env_newRequest E "GET" (aiBaseUrl cfg ++ "/models")); [reflexivity|].
    unfold Do, setEndpointHealth. cbn.
    destruct (env_net E (netCalls w)) as [resp|msg deadline]; [|reflexivity].
    cbn. now destruct ((200 <=? StatusCode resp) && (StatusCode resp <? 300)).
  - intros _. exists w. split; [reflexivity|]. split; [reflexivity|].
    unfold ret. cbn.
    destruct (env_newRequest E "GET" (aiBaseUrl cfg ++ "/models")); [reflexivity|].
    unfold Do, setEndpointHealth, Now. cbn.
    destruct (env_net E (netCalls w)) as [resp|msg deadline]; [|reflexivity].
    cbn. now destruct ((200 <=? StatusCode resp) && (StatusCode resp <? 300)).
Qed.

(** X8. While the last health check is less than a minute old,
    [checkAIEndpointHealth] answers from the cache: it returns the
    recorded verdict, sends nothing, and leaves the verdict and the time of
    the last check as they are. *)
Theorem health_check_is_cached (w : World) (t : Instant) :
  lastHealthCheck w = Some t ->
  monoSub (env_clock E (clockReads w)) t < Minute ->
  exists w',
    checkAIEndpointHealth E cfg w = Done (endpointHealthy w) w'
    /\ newEvents w w' = []
    /\ netCalls w' = netCalls w
    /\ endpointHealthy w' = endpointHealthy w
    /\ lastHealthCheck w' = Some t.
Proof.
  intros Hlast Hrecent.
  assert (H : healthIsRecent E w = true).
  { unfold healthIsRecent. rewrite Hlast. now apply Z.ltb_lt. }
  eexists. split; [apply (checkAIEndpointHealth_recent w H)|].
  split; [now apply newEvents_of_trace|]. now repeat split.
Qed.

(** X9. When no check is on record, or the last one is a minute old or
    more, [checkAIEndpointHealth] sends one GET to <aiBaseUrl>/models; its
    verdict is true exactly when the answer has a status from 200 to 299
    (a transport failure gives false), and the verdict returned is the one
    recorded, together with the reading of the clock made after the
    probe. *)
Theorem health_check_probes_and_records (w : World) :
  healthIsRecent E w = false ->
  env_newRequest E "GET" (aiBaseUrl cfg ++ "/models") = None ->
  exists w',
    checkAIEndpointHealth E cfg w = Done (probeVerdict (env_net E (netCalls w))) w'
    /\ newEvents w w' = [EvDo (healthRequest cfg)]
    /\ endpointHealthy w' = probeVerdict (env_net E (netCalls w))
    /\ lastHealthCheck w' = Some (lastReading E w').
Proof.
  intros Hstale Hreq.
  destruct (checkAIEndpointHealth_stale w Hstale) as (w0 & Ht & Hn & Hrun).
  rewrite Hreq in Hrun. rewrite Hn in Hrun.
  eexists. split; [exact Hrun|].
  split; [apply newEvents_of_trace; cbn; now rewrite Ht|].
  split; reflexivity.
Qed.

End Health.

Lemma health_check_is_cached_witness :
  exists w',
    checkAIEndpointHealth offlineEnv defaultConfig checkedWorld = Done true w'
    /\ newEvents checkedWorld w' = []
    /\ netCalls w' = netCalls checkedWorld
    /\ endpointHealthy w' = true
    /\ lastHealthCheck w' = Some (mkInstant 0 0).
Proof.
  apply (health_check_is_cached offlineEnv defaultConfig checkedWorld (mkInstant 0 0)).
  - reflexivity.
  - vm_compute. reflexivity.
Defined.

Lemma health_check_probes_and_records_witness :
  exists w',
    checkAIEndpointHealth offlineEnv defaultConfig startWorld = Done false w'
    /\ newEvents startWorld w' = [EvDo (healthRequest defaultConfig)]
    /\ endpointHealthy w' = false
    /\ lastHealthCheck w' = Some (lastReading offlineEnv w').
Proof.
  apply (health_check_probes_and_records offlineEnv defaultConfig startWorld);
    reflexivity.
Defined.

Section Attempt.

Variable E : Env.
Variable cfg : Config.

(** The world in which [tryAIEndpoint] sends its POST: after the HEAD
    request, if the endpoint is not known to be healthy. *)
Lemma tryAIEndpoint_run (jsonData : RequestBody) (w : World) :
  env_newRequest E "POST" (aiEndpointUrl cfg) = None ->
  (endpointHealthy w = false -> env_newRequest E "HEAD" (aiBaseUrl cfg) = None) ->
  exists r w',
    tryAIEndpoint E cfg jsonData w = Done r w'
    /\ trace w' = (EvDo (chatRequest cfg jsonData)
                     :: (if endpointHealthy w then [] else [EvDo (headRequest cfg)])
                     ++ trace w)%list
    /\ endpointHealthy w' = match env_net E (postIndex w) with
                            | DoErr _ _ => false
                            | DoResp _ => endpointHealthy w
                            end
    /\ match env_net E (postIndex w) with
       | DoErr msg _ =>
           (exists text, r = Err text)
           /\ lastHealthCheck w' = Some (lastReading E w')
       | DoResp resp =>
           lastHealthCheck w' = lastHealthCheck w
           /\ (clockReads w' = 2 + clockReads w)%nat
           /\ netCalls w' = S (postIndex w)
           /\ processedResources w' = processedResources w
           /\ r = if (StatusCode resp <? 200) || (300 <=? StatusCode resp)
                  then Err (statusErrorText (StatusCode resp) (Body resp))
                  else match env_decodeObject E resp with
                       | Err e => Err ("failed to parse response: " ++ e)
                       | Ok responseData => Ok responseData
                       end
       end.
Proof.
  intros Hpost Hhead. unfold tryAIEndpoint. rewrite Hpost.
  unfold postIndex, bind, getEndpointHealthy.
  destruct (endpointHealthy w) eqn:Hh; cbn.
  - destruct (env_net E (netCalls w)) as [resp|msg deadline]; cbn.
    + destruct ((StatusCode resp <? 200) || (300 <=? StatusCode resp)).
      * eexists _, _. split; [reflexivity|]. cbn. now repeat split.
      * destruct (env_decodeObject E resp);
          (eexists _, _; split; [reflexivity|]; cbn; now repeat split).
    + destruct (deadline || Contains msg "timeout" || Contains msg "deadline");
        (eexists _, _; split; [reflexivity|]; cbn; repeat split; eauto).
  - rewrite (Hhead eq_refl). cbn.
    destruct (env_net E (S (netCalls w))) as [resp|msg deadline]; cbn.
    + destruct ((StatusCode resp <? 200) || (300 <=? StatusCode resp)).
      * eexists _, _. split; [reflexivity|]. cbn. now repeat split.
      * destruct (env_decodeObject E resp);
          (eexists _, _; split; [reflexivity|]; cbn; now repeat split).
    + destruct (deadline || Contains msg "timeout" || Contains msg "deadline");
        (eexists _, _; split; [reflexivity|]; cbn; repeat split; eauto).
Qed.

(** X10. An attempt on the inference endpoint sends its POST whatever
    becomes of the connectivity test: a HEAD request goes first exactly
    when the endpoint is not known to be healthy, and its answer is not
    looked at.  A 2xx answer to the POST that decodes is the result.  Only
    a transport failure of the POST changes the recorded health, to
    unhealthy; a status answer of the server leaves it as it was. *)
Theorem tryAIEndpoint_probe_is_advisory (jsonData : RequestBody) (w : World) :
  env_newRequest E "POST" (aiEndpointUrl cfg) = None ->
  (endpointHealthy w = false -> env_newRequest E "HEAD" (aiBaseUrl cfg) = None) ->
  exists r w',
    tryAIEndpoint E cfg jsonData w = Done r w'
    /\ newEvents w w'
       = ((if endpointHealthy w then [] else [EvDo (headRequest cfg)])
          ++ [EvDo (chatRequest cfg jsonData)])%list
    /\ endpointHealthy w' = match env_net E (postIndex w) with
                            | DoErr _ _ => false
                            | DoResp _ => endpointHealthy w
                            end
    /\ (forall resp responseData,
          env_net E (postIndex w) = DoResp resp ->
          200 <= StatusCode resp < 300 ->
          env_decodeObject E resp = Ok responseData ->
          r = Ok responseData)
    /\ (forall msg deadline,
          env_net E (postIndex w) = DoErr msg deadline -> exists text, r = Err text).
Proof.
  intros Hpost Hhead.
  destruct (tryAIEndpoint_run jsonData w Hpost Hhead) as (r & w' & Hrun & Ht & Hh & Hcase).
  exists r, w'. split; [exact Hrun|]. split; [|split; [exact Hh|split]].
  - apply newEvents_of_trace. rewrite Ht.
    destruct (endpointHealthy w); reflexivity.
  - intros resp responseData Hnet Hst Hdec. rewrite Hnet in Hcase.
    destruct Hcase as (_ & _ & _ & _ & ->).
    destruct (Z.ltb_spec (StatusCode resp) 200); [lia|].
    destruct (Z.leb_spec 300 (StatusCode resp)); [lia|].
    cbn. now rewrite Hdec.
  - intros msg deadline Hnet. rewrite Hnet in Hcase. apply Hcase.
Qed.

End Attempt.

Lemma tryAIEndpoint_probe_is_advisory_witness :
  exists r w',
    tryAIEndpoint offlineEnv defaultConfig NoBody startWorld = Done r w'
    /\ newEvents startWorld w'
       = [EvDo (headRequest defaultConfig); EvDo (chatRequest defaultConfig NoBody)]
    /\ endpointHealthy w' = false.
Proof.
  destruct (tryAIEndpoint_probe_is_advisory offlineEnv defaultConfig NoBody startWorld
              eq_refl (fun _ => eq_refl))
    as (r & w' & Hrun & Hev & Hh & _).
  exists r, w'. split; [exact Hrun|]. split; [exact Hev | exact Hh].
Defined.

Section Call.

Variable E : Env.
Variable cfg : Config.

Lemma checkAIEndpointHealth_total (w : World) :
  exists b w1,
    checkAIEndpointHealth E cfg w = Done b w1
    /\ (trace w1 = trace w \/ trace w1 = EvDo (healthRequest cfg) :: trace w).
Proof.
  destruct (healthIsRecent E w) eqn:Hrecent.
  - eexists _, _. split; [apply (checkAIEndpointHealth_recent E cfg w Hrecent)|]. now left.
  - destruct (checkAIEndpointHealth_stale E cfg w Hrecent) as (w0 & Ht & _ & Hrun).
    destruct (env_newRequest E "GET" (aiBaseUrl cfg ++ "/models"));
      (eexists _, _; split; [exact Hrun|]); cbn; rewrite Ht; [now left | now right].
Qed.

(** X11. With AI_MAX_RETRIES at zero or below, [sendToAIEndpoint] never
    calls the inference endpoint: it sends no POST, does not sleep, and
    returns the local fallback (the health probe, a GET, may still go
    out). *)
Theorem no_retries_no_attempt (files : list (string * string)) (solution : string)
    (w : World) :
  aiMaxRetries cfg <= 0 ->
  exists w',
    sendToAIEndpoint E cfg files solution w
    = Done (generateLocalFallbackResponse solution files) w'
    /\ postsOf (newEvents w w') = []
    /\ sleepsOf (newEvents w w') = [].
Proof.
  intros Hmax. unfold sendToAIEndpoint.
  replace (Z.to_nat (aiMaxRetries cfg)) with O by lia. cbn [aiAttempts].
  assert (Hgate : exists b w1,
             (if aiHealthCheck cfg then checkAIEndpointHealth E cfg else ret true) w
             = Done b w1
             /\ (trace w1 = trace w \/ trace w1 = EvDo (healthRequest cfg) :: trace w)).
  { destruct (aiHealthCheck cfg); [apply checkAIEndpointHealth_total|].
    exists true, w. split; [reflexivity | now left]. }
  destruct Hgate as (b & w1 & Hrun & Ht).
  exists w1. unfold bind at 1. rewrite Hrun.
  split; [now destruct b|].
  destruct Ht as [Ht|Ht].
  - rewrite (newEvents_of_trace w w1 []) by exact Ht. now split.
  - rewrite (newEvents_of_trace w w1 [EvDo (healthRequest cfg)]) by exact Ht. now split.
Qed.

(** X12. A call that finds the endpoint healthy, by a check less than a
    minute old, and is answered at once sends one request, the POST, and
    does not sleep; it returns the updates read from the answer, or the
    local fallback if they cannot be read, and records the endpoint as
    healthy at the clock reading made after the answer. *)
Theorem healthy_call_sends_one_request (files : list (string * string))
    (solution : string) (w : World) (resp : Response)
    (responseData : list (string * iface)) :
  aiHealthCheck cfg = true -> healthIsRecent E w = true -> endpointHealthy w = true ->
  0 < aiMaxRetries cfg ->
  env_newRequest E "POST" (aiEndpointUrl cfg) = None ->
  env_net E (netCalls w) = DoResp resp -> 200 <= StatusCode resp < 300 ->
  env_decodeObject E resp = Ok responseData ->
  exists w',
    sendToAIEndpoint E cfg files solution w
    = Done (match extractFileUpdatesFromResponse E responseData with
            | Ok fileUpdates => fileUpdates
            | Err _ => generateLocalFallbackResponse solution files
            end) w'
    /\ newEvents w w'
       = [EvDo (chatRequest cfg (ChatBody (aiModel cfg) (promptContent files solution)))]
    /\ endpointHealthy w' = true
    /\ lastHealthCheck w' = Some (lastReading E w').
Proof.
  intros Hcheck Hrecent Hhealthy Hmax Hpost Hnet Hst Hdec.
  set (jsonData := ChatBody (aiModel cfg) (promptContent files solution)).
  pose proof (checkAIEndpointHealth_recent E cfg w Hrecent) as Hgate.
  rewrite Hhealthy in Hgate.
  set (w1 := mkWorld (processedResources w) true (lastHealthCheck w) (netCalls w)
                     (S (clockReads w)) (trace w)) in Hgate.
  destruct (tryAIEndpoint_run E cfg jsonData w1 Hpost (fun H => ltac:(discriminate H)))
    as (r & w2 & Hrun & Ht & Hh & Hcase).
  unfold postIndex in Hh, Hcase. cbn in Hh, Hcase, Ht. rewrite Hnet in Hh, Hcase.
  destruct Hcase as (_ & _ & _ & _ & Hr).
  destruct (Z.ltb_spec (StatusCode resp) 200); [lia|].
  destruct (Z.leb_spec 300 (StatusCode resp)); [lia|].
  cbn in Hr. rewrite Hdec in Hr. subst r.
  destruct (Z.to_nat (aiMaxRetries cfg)) as [|n] eqn:Hn; [lia|].
  eexists. split; [|split; [|split]].
  - unfold sendToAIEndpoint. rewrite Hcheck. unfold bind at 1. rewrite Hgate.
    cbn [negb]. fold jsonData. rewrite Hn. cbn [aiAttempts].
    unfold bind. cbn [Z.ltb Z.compare ret]. rewrite Hrun. cbn.
    destruct (extractFileUpdatesFromResponse E responseData); reflexivity.
  - apply newEvents_of_trace. cbn. exact Ht.
  - reflexivity.
  - reflexivity.
Qed.

End Call.

Lemma no_retries_no_attempt_witness :
  exists w',
    sendToAIEndpoint offlineEnv (withMaxRetries 0 defaultConfig) sampleFiles
                     "Container was OOMKilled" startWorld
    = Done (generateLocalFallbackResponse "Container was OOMKilled" sampleFiles) w'
    /\ postsOf (newEvents startWorld w') = []
    /\ sleepsOf (newEvents startWorld w') = [].
Proof.
  apply (no_retries_no_attempt offlineEnv (withMaxRetries 0 defaultConfig)).
  simpl. lia.
Defined.

Lemma healthy_call_sends_one_request_witness :
  exists w',
    sendToAIEndpoint (answeringEnv "[]" (Ok [])) defaultConfig sampleFiles
                     "Container was OOMKilled" checkedWorld
    = Done [] w'
    /\ newEvents checkedWorld w'
       = [EvDo (chatRequest defaultConfig
                  (ChatBody (aiModel defaultConfig)
                            (promptContent sampleFiles "Container was OOMKilled")))]
    /\ endpointHealthy w' = true
    /\ lastHealthCheck w' = Some (lastReading (answeringEnv "[]" (Ok [])) w').
Proof.
  apply (healthy_call_sends_one_request (answeringEnv "[]" (Ok [])) defaultConfig
           sampleFiles "Container was OOMKilled" checkedWorld
           (mkResponse 200 [] "[]" None) (chatResponse "[]"));
    try reflexivity.
  simpl. lia.
Defined.

Section NegativeCache.

Variable E : Env.
Variable cfg : Config.

(** X13. A failed health check stands for a minute: while it is less
    than a minute old, a call with the health check enabled sends nothing
    at all, not even to the inference endpoint, and returns the local
    fallback. *)
Theorem unhealthy_verdict_skips_the_endpoint (files : list (string * string))
    (solution : string) (w : World) :
  aiHealthCheck cfg = true -> healthIsRecent E w = true -> endpointHealthy w = false ->
  exists w',
    sendToAIEndpoint E cfg files solution w
    = Done (generateLocalFallbackResponse solution files) w'
    /\ newEvents w w' = []
    /\ netCalls w' = netCalls w
    /\ endpointHealthy w' = false
    /\ lastHealthCheck w' = lastHealthCheck w.
Proof.
  intros Hcheck Hrecent Hunhealthy.
  pose proof (checkAIEndpointHealth_recent E cfg w Hrecent) as Hgate.
  rewrite Hunhealthy in Hgate.
  eexists. split.
  - unfold sendToAIEndpoint. rewrite Hcheck. unfold bind. rewrite Hgate. reflexivity.
  - split; [now apply newEvents_of_trace|]. now repeat split.
Qed.

End NegativeCache.

Lemma unhealthy_verdict_skips_the_endpoint_witness :
  exists w',
    sendToAIEndpoint offlineEnv defaultConfig sampleFiles "Container was OOMKilled"
                     failedCheckWorld
    = Done (generateLocalFallbackResponse "Container was OOMKilled" sampleFiles) w'
    /\ newEvents failedCheckWorld w' = []
    /\ netCalls w' = netCalls failedCheckWorld
    /\ endpointHealthy w' = false
    /\ lastHealthCheck w' = lastHealthCheck failedCheckWorld.
Proof.
  apply (unhealthy_verdict_skips_the_endpoint offlineEnv defaultConfig); reflexivity.
Defined.

(** ** The pull requests a notification can lead to *)

Section PullRequests.

Variable E : Env.
Variable cfg : Config.

Lemma Sends_le {A} (a b : nat) (m : M A) : (a <= b)%nat -> Sends cfg a m -> Sends cfg b m.
Proof.
  intros Hab Hm w. destruct (Hm w) as (evs & Ht & Hf & Hn).
  exists evs. repeat split; [exact Ht | exact Hf | lia].
Qed.

Lemma Sends_same {A} (m : M A) :
  (forall w, trace (worldOf (m w)) = trace w) -> Sends cfg 0 m.
Proof.
  intros H w. exists []. split; [apply H|]. split; [constructor | simpl; lia].
Qed.

Lemma Sends_bind {A B} (a b : nat) (m : M A) (k : A -> M B) :
  Sends cfg a m -> (forall x, Sends cfg b (k x)) -> Sends cfg (a + b) (bind m k).
Proof.
  intros Hm Hk w. unfold bind. destruct (Hm w) as (e1 & Ht1 & Hf1 & Hn1).
  destruct (m w) as [x w1|w1]; simpl in *.
  - destruct (Hk x w1) as (e2 & Ht2 & Hf2 & Hn2). exists (e2 ++ e1)%list.
    split; [now rewrite Ht2, Ht1, List.app_assoc|].
    rewrite List.filter_app, List.length_app. split; [|lia].
    apply Forall_app. now split.
  - exists e1. repeat split; [exact Ht1 | exact Hf1 | lia].
Qed.

Lemma Sends_bind_none {A B} (m : M A) (k : A -> M B) :
  Sends cfg 0 m -> (forall x, Sends cfg 0 (k x)) -> Sends cfg 0 (bind m k).
Proof. intros Hm Hk. now apply (Sends_bind 0 0). Qed.

Lemma Sends_ret {A} (x : A) : Sends cfg 0 (ret x).
Proof. now apply Sends_same. Qed.

Lemma Sends_panic {A} : Sends cfg 0 (@panic A).
Proof. now apply Sends_same. Qed.

Lemma Sends_Now : Sends cfg 0 (Now E).
Proof. now apply Sends_same. Qed.

Lemma Sends_getEndpointHealthy : Sends cfg 0 getEndpointHealthy.
Proof. now apply Sends_same. Qed.

Lemma Sends_getLastHealthCheck : Sends cfg 0 getLastHealthCheck.
Proof. now apply Sends_same. Qed.

Lemma Sends_setEndpointHealth (healthy : bool) (t : Instant) :
  Sends cfg 0 (setEndpointHealth healthy t).
Proof. now apply Sends_same. Qed.

Lemma Sends_Sleep (d : Z) : Sends cfg 0 (Sleep d).
Proof.
  intros w. exists [EvSleep d]. split; [reflexivity|].
  split; [repeat constructor | simpl; lia].
Qed.

(** A request that carries anything but a pull request. *)
Lemma Sends_Do_other (req : Request) :
  isPullRequestBody (ReqBody req) = false -> Sends cfg 0 (Do E req).
Proof.
  intros Hb w. exists [EvDo req]. split; [reflexivity|]. simpl. rewrite Hb. split.
  - repeat constructor. simpl. now destruct (ReqBody req).
  - simpl. lia.
Qed.

Create HintDb sends.

Hint Resolve Sends_ret Sends_panic Sends_Now Sends_getEndpointHealthy
  Sends_getLastHealthCheck Sends_setEndpointHealth Sends_Sleep : sends.

Ltac sends_step :=
  match goal with
  | |- Sends _ 0 (bind _ _) => apply Sends_bind_none; [|intros ?]
  | |- Sends _ 0 (Do _ _) => apply Sends_Do_other; solve [reflexivity | assumption]
  | |- Sends _ 0 (match ?x with _ => _ end) => destruct x
  | |- Sends _ 0 (if ?b then _ else _) => destruct b
  | |- Sends _ 0 _ => solve [eauto with sends]
  end.

Ltac sends_auto := repeat sends_step.

Lemma Sends_updateEndpointHealth (healthy : bool) :
  Sends cfg 0 (updateEndpointHealth E healthy).
Proof. unfold updateEndpointHealth. sends_auto. Qed.

Hint Resolve Sends_updateEndpointHealth : sends.

Lemma Sends_checkAIEndpointHealth : Sends cfg 0 (checkAIEndpointHealth E cfg).
Proof. unfold checkAIEndpointHealth. sends_auto. Qed.

Lemma Sends_tryAIEndpoint (jsonData : RequestBody) :
  isPullRequestBody jsonData = false -> Sends cfg 0 (tryAIEndpoint E cfg jsonData).
Proof. intros Hb. unfold tryAIEndpoint. sends_auto. Qed.

Hint Resolve Sends_checkAIEndpointHealth : sends.

Lemma Sends_aiAttempts (remaining : nat) (attempt : Z) (jsonData : RequestBody)
    (files : list (string * string)) (solution : string) :
  isPullRequestBody jsonData = false ->
  Sends cfg 0 (aiAttempts E cfg remaining attempt jsonData files solution).
Proof.
  intros Hb. revert attempt. induction remaining as [|n IH]; intros attempt; simpl.
  - sends_auto.
  - apply Sends_bind_none; [sends_auto | intros _].
    apply Sends_bind_none; [now apply Sends_tryAIEndpoint | intros r].
    destruct r as [resp|errText]; [sends_auto|].
    destruct (nonRetryable errText); [sends_auto | apply IH].
Qed.

Lemma Sends_sendToAIEndpoint (files : list (string * string)) (solution : string) :
  Sends cfg 0 (sendToAIEndpoint E cfg files solution).
Proof.
  unfold sendToAIEndpoint.
  apply Sends_bind_none; [sends_auto | intros healthy].
  destruct (negb healthy); [sends_auto|].
  apply Sends_bind_none; [now apply Sends_aiAttempts | intros out]. sends_auto.
Qed.

Lemma Sends_fetchFileAttempts (remaining : nat) (i : Z) (filePath : string)
    (resp : option Response) :
  Sends cfg 0 (fetchFileAttempts E remaining i (githubRequest cfg filePath) resp).
Proof.
  revert i resp. induction remaining as [|n IH]; intros i resp; simpl; sends_auto.
Qed.

Hint Resolve Sends_fetchFileAttempts : sends.

Lemma Sends_fetchFileContent (filePath : string) :
  Sends cfg 0 (fetchFileContent E cfg filePath).
Proof. unfold fetchFileContent. sends_auto. Qed.

Lemma Sends_fetchSingleFile (filePath : string) :
  Sends cfg 0 (Walk.fetchSingleFile E cfg filePath).
Proof. unfold Walk.fetchSingleFile. sends_auto. Qed.

Hint Resolve Sends_fetchFileContent Sends_fetchSingleFile : sends.

Lemma Sends_walkItems (rangeOrder : gmap string string -> list (string * string))
    (recurse : string -> M (option (result (gmap string string))))
    (dirPath : string) (contents : list GitHubContent) (files : gmap string string) :
  (forall path, Sends cfg 0 (recurse path)) ->
  Sends cfg 0 (Walk.walkItems E cfg rangeOrder recurse dirPath contents files).
Proof.
  intros Hrec. revert files.
  induction contents as [|item rest IH]; intros files; simpl; sends_auto.
Qed.

Lemma Sends_fetchDirectoryContents
    (decodeListing : Response -> result (list GitHubContent))
    (rangeOrder : gmap string string -> list (string * string))
    (depth : nat) (dirPath : string) :
  Sends cfg 0 (Walk.fetchDirectoryContents E cfg decodeListing rangeOrder depth dirPath).
Proof.
  revert dirPath. induction depth as [|n IH]; intros dirPath; simpl; [sends_auto|].
  pose proof (fun contents files =>
                Sends_walkItems rangeOrder _ dirPath contents files IH) as Hitems.
  sends_auto.
Qed.

Hint Resolve Sends_fetchDirectoryContents : sends.

Lemma Sends_fetchGitHubFiles (namespace : string) :
  Sends cfg 0 (fetchGitHubFiles E cfg namespace).
Proof. unfold fetchGitHubFiles. sends_auto. Qed.

(** The publisher sends one pull request at most, with the files it is
    given. *)
Lemma Sends_sendToGHService (fileUpdates : list FileUpdate) (diag : diagnostic) :
  fileUpdates <> [] -> Sends cfg 1 (sendToGHService E cfg fileUpdates diag).
Proof.
  intros Hne. unfold sendToGHService.
  destruct (env_newRequest E "POST" (ghServiceUrl cfg ++ "/pull_requests"));
    [apply (Sends_le 0); [lia | apply Sends_ret]|].
  apply (Sends_bind 1 0).
  - intros w. eexists [EvDo _]. split; [reflexivity|]. split; [|simpl; lia].
    repeat constructor. simpl. repeat split.
    unfold ghFiles. destruct fileUpdates; [contradiction | discriminate].
  - intros d. sends_auto.
Qed.

Lemma Sends_pipeline_rest (obj : list (string * iface)) :
  Sends cfg 1
    (bind (fetchGitHubFiles E cfg (diag_namespace (extractDiagnostic obj)))
       (fun fetched =>
          match fetched with
          | Err _ => ret tt
          | Ok files =>
              if (size files =? 0)%nat then ret tt
              else
                bind (sendToAIEndpoint E cfg (env_rangeOrder E files)
                        (diag_solution (extractDiagnostic obj)))
                  (fun fileUpdates =>
                     if (0 <? List.length fileUpdates)%nat
                     then bind (sendToGHService E cfg fileUpdates (extractDiagnostic obj))
                               (fun _ => ret tt)
                     else ret tt)
          end)).
Proof.
  apply (Sends_bind 0 1); [apply Sends_fetchGitHubFiles | intros fetched].
  destruct fetched as [files|e]; [|apply (Sends_le 0); [lia | apply Sends_ret]].
  destruct (size files =? 0)%nat; [apply (Sends_le 0); [lia | apply Sends_ret]|].
  apply (Sends_bind 0 1); [apply Sends_sendToAIEndpoint | intros fileUpdates].
  destruct fileUpdates as [|update rest]; cbn [List.length Nat.ltb Nat.leb].
  - apply (Sends_le 0); [lia | apply Sends_ret].
  - apply (Sends_bind 1 0); [now apply Sends_sendToGHService | intros _; apply Sends_ret].
Qed.

(** One callback: at most one pull request, and only behind a pipeline
    start. *)
Lemma handleResult_pull_requests (obj : list (string * iface)) (w : World) :
  exists evs,
    trace (worldOf (handleResult E cfg obj w)) = (evs ++ trace w)%list
    /\ Forall (wellFormedPullRequest cfg) evs
    /\ (List.length (List.filter isPullRequest evs)
        <= List.length (List.filter isPipelineEvent evs))%nat.
Proof.
  unfold handleResult, bind at 1, checkAndMark.
  assert (Hskip : exists evs,
             trace w = (evs ++ trace w)%list
             /\ Forall (wellFormedPullRequest cfg) evs
             /\ (List.length (List.filter isPullRequest evs)
                 <= List.length (List.filter isPipelineEvent evs))%nat).
  { exists []. split; [reflexivity|]. split; [constructor | simpl; lia]. }
  destruct (processedResources w !! resourceID obj) as [[|]|]; [exact Hskip| |].
  all: unfold pipeline, bind at 1, emit; cbn [worldOf].
  all: match goal with
       | |- context [bind ?m ?k ?w1] =>
           destruct (Sends_pipeline_rest obj w1) as (evs & Ht & Hf & Hn)
       end.
  all: exists (evs ++ [EvPipeline (resourceID obj)
                         (diag_namespace (extractDiagnostic obj))])%list.
  all: split; [rewrite Ht; cbn [trace]; now rewrite <- List.app_assoc|].
  all: split; [apply Forall_app; split; [exact Hf | repeat constructor]|].
  all: rewrite !List.filter_app, !List.length_app; simpl; lia.
Qed.

Lemma deliver_pull_requests (n : Notification) (w : World) :
  exists evs,
    trace (worldOf (deliver E cfg n w)) = (evs ++ trace w)%list
    /\ Forall (wellFormedPullRequest cfg) evs
    /\ (List.length (List.filter isPullRequest evs)
        <= List.length (List.filter isPipelineEvent evs))%nat.
Proof.
  destruct n as [obj|oldObj newObj]; simpl; [apply handleResult_pull_requests|].
  unfold UpdateFunc. destruct (negb _); [apply handleResult_pull_requests|].
  exists []. split; [reflexivity|]. split; [constructor | simpl; lia].
Qed.

Lemma deliverAll_pull_requests (ns : list Notification) (w : World) :
  exists evs,
    trace (worldOf (deliverAll E cfg ns w)) = (evs ++ trace w)%list
    /\ Forall (wellFormedPullRequest cfg) evs
    /\ (List.length (List.filter isPullRequest evs)
        <= List.length (List.filter isPipelineEvent evs))%nat.
Proof.
  revert w. induction ns as [|n ns IH]; intros w.
  - exists []. split; [reflexivity|]. split; [constructor | simpl; lia].
  - simpl. unfold bind. destruct (deliver_pull_requests n w) as (e1 & Ht1 & Hf1 & Hn1).
    destruct (deliver E cfg n w) as [[] w1|w1]; simpl in *.
    + destruct (IH w1) as (e2 & Ht2 & Hf2 & Hn2). exists (e2 ++ e1)%list.
      split; [now rewrite Ht2, Ht1, List.app_assoc|].
      rewrite !List.filter_app, !List.length_app. split; [|lia].
      apply Forall_app. now split.
    + exists e1. now repeat split.
Qed.

(** The pull requests among the events added from [w] to [w']. *)
Lemma sent_of_trace (w w' : World) (evs : list Event) :
  trace w' = (evs ++ trace w)%list ->
  List.filter isPullRequest (newEvents w w') = List.rev (List.filter isPullRequest evs).
Proof.
  intros Ht. rewrite (newEvents_of_trace w w' (List.rev evs)).
  - clear Ht. induction evs as [|e evs IH]; [reflexivity|]. simpl.
    rewrite List.filter_app, IH. simpl. destruct (isPullRequest e); simpl; [reflexivity|].
    apply List.app_nil_r.
  - now rewrite List.rev_involutive.
Qed.

Lemma Sends_none {A} (m : M A) (w : World) :
  Sends cfg 0 m ->
  exists evs, trace (worldOf (m w)) = (evs ++ trace w)%list
              /\ List.filter isPullRequest evs = [].
Proof.
  intros Hm. destruct (Hm w) as (evs & Ht & _ & Hn). exists evs. split; [exact Ht|].
  destruct (List.filter isPullRequest evs); [reflexivity | simpl in Hn; lia].
Qed.

(** What the publisher adds to the history. *)
Lemma sendToGHService_trace (fileUpdates : list FileUpdate) (diag : diagnostic) (w : World) :
  trace (worldOf (sendToGHService E cfg fileUpdates diag w))
  = match env_newRequest E "POST" (ghServiceUrl cfg ++ "/pull_requests") with
    | None => EvDo (pullRequest cfg fileUpdates diag) :: trace w
    | Some _ => trace w
    end.
Proof.
  unfold sendToGHService.
  destruct (env_newRequest E "POST" (ghServiceUrl cfg ++ "/pull_requests")); [reflexivity|].
  unfold bind, Do. cbn [worldOf].
  destruct (env_net E (netCalls w)) as [resp|msg deadline]; [|reflexivity].
  destruct (BodyErr resp); [reflexivity|].
  now destruct (400 <=? StatusCode resp).
Qed.

(** The pull requests of one callback that passes the gate. *)
Lemma pipeline_pull_requests (obj : list (string * iface)) (w : World) :
  let diag := extractDiagnostic obj in
  List.filter isPullRequest
    (newEvents w (worldOf (pipeline E cfg obj (markProcessed (resourceID obj) w))))
  = match fetchGitHubFiles E cfg (diag_namespace diag) (fetchWorld obj w) with
    | Done (Ok files) w1 =>
        if (size files =? 0)%nat then []
        else
          match sendToAIEndpoint E cfg (env_rangeOrder E files) (diag_solution diag) w1 with
          | Done (update :: rest) _ =>
              match env_newRequest E "POST" (ghServiceUrl cfg ++ "/pull_requests") with
              | None => [EvDo (pullRequest cfg (update :: rest) diag)]
              | Some _ => []
              end
          | _ => []
          end
    | _ => []
    end.
Proof.
  intros diag. unfold pipeline. fold diag. unfold bind at 1.
  change (emit (EvPipeline (resourceID obj) (diag_namespace diag))
               (markProcessed (resourceID obj) w))
    with (Done tt (fetchWorld obj w)).
  cbv iota beta.
  assert (H0 : trace (fetchWorld obj w)
               = ([EvPipeline (resourceID obj) (diag_namespace diag)] ++ trace w)%list)
    by reflexivity.
  destruct (Sends_none _ (fetchWorld obj w) (Sends_fetchGitHubFiles (diag_namespace diag)))
    as (e1 & H1 & F1).
  unfold bind at 1.
  destruct (fetchGitHubFiles E cfg (diag_namespace diag) (fetchWorld obj w))
    as [[files|e] w1|w1]; cbn [worldOf ret] in *.
  2,3: rewrite (sent_of_trace w w1 (e1 ++ [EvPipeline (resourceID obj) (diag_namespace diag)]));
       [now rewrite List.filter_app, F1 | now rewrite H1, H0, <- List.app_assoc].
  destruct (size files =? 0)%nat; cbn [worldOf ret].
  { rewrite (sent_of_trace w w1 (e1 ++ [EvPipeline (resourceID obj) (diag_namespace diag)]));
      [now rewrite List.filter_app, F1 | now rewrite H1, H0, <- List.app_assoc]. }
  destruct (Sends_none _ w1
              (Sends_sendToAIEndpoint (env_rangeOrder E files) (diag_solution diag)))
    as (e2 & H2 & F2).
  unfold bind at 1.
  destruct (sendToAIEndpoint E cfg (env_rangeOrder E files) (diag_solution diag) w1)
    as [[|update rest] w2|w2]; cbn [worldOf ret List.length Nat.ltb Nat.leb] in *.
  1,3: rewrite (sent_of_trace w w2
                  (e2 ++ e1 ++ [EvPipeline (resourceID obj) (diag_namespace diag)]));
       [now rewrite !List.filter_app, F1, F2
       | now rewrite H2, H1, H0, <- !List.app_assoc].
  pose proof (sendToGHService_trace (update :: rest) diag w2) as H3.
  unfold bind.
  destruct (sendToGHService E cfg (update :: rest) diag w2) as [r w3|w3];
    cbn [worldOf ret] in *.
  all: destruct (env_newRequest E "POST" (ghServiceUrl cfg ++ "/pull_requests")).
  1,3: rewrite (sent_of_trace w w3
                  (e2 ++ e1 ++ [EvPipeline (resourceID obj) (diag_namespace diag)]));
       [now rewrite !List.filter_app, F1, F2
       | now rewrite H3, H2, H1, H0, <- !List.app_assoc].
  all: rewrite (sent_of_trace w w3
                  (EvDo (pullRequest cfg (update :: rest) diag) :: e2 ++ e1
                     ++ [EvPipeline (resourceID obj) (diag_namespace diag)]));
       [cbn [List.filter isPullRequest pullRequest ReqBody isPullRequestBody];
        now rewrite !List.filter_app, F1, F2
       | rewrite H3, H2, H1, H0; cbn [List.app]; now rewrite <- ?List.app_assoc].
Qed.

(** X14. Whatever notifications are delivered, every pull request sent
    is a POST to <ghServiceUrl>/pull_requests for the configured
    repository and carries at least one file, and no more pull requests
    are sent than pipelines are started.  One callback sends a pull
    request exactly when it is not skipped, its fetch gives at least one
    file, its analysis gives at least one update and the request can be
    built; the pull request then carries those updates.  A callback that
    is skipped, whose fetch fails or finds no file, or whose analysis
    yields no update, sends none. *)
Theorem pull_requests_are_well_formed (ns : list Notification) (w : World) :
  let evs := newEvents w (worldOf (deliverAll E cfg ns w)) in
  Forall (wellFormedPullRequest cfg) evs
  /\ (List.length (List.filter isPullRequest evs)
      <= List.length (List.filter isPipelineEvent evs))%nat
  /\ forall obj,
       let diag := extractDiagnostic obj in
       List.filter isPullRequest (newEvents w (worldOf (handleResult E cfg obj w)))
       = match processedResources w !! resourceID obj with
         | Some true => []
         | _ =>
             match fetchGitHubFiles E cfg (diag_namespace diag) (fetchWorld obj w) with
             | Done (Ok files) w1 =>
                 if (size files =? 0)%nat then []
                 else
                   match sendToAIEndpoint E cfg (env_rangeOrder E files)
                           (diag_solution diag) w1 with
                   | Done (update :: rest) _ =>
                       match env_newRequest E "POST"
                               (ghServiceUrl cfg ++ "/pull_requests") with
                       | None => [EvDo (pullRequest cfg (update :: rest) diag)]
                       | Some _ => []
                       end
                   | _ => []
                   end
             | _ => []
             end
         end.
Proof.
  intros evs. destruct (deliverAll_pull_requests ns w) as (newest & Ht & Hf & Hn).
  assert (Hev : evs = List.rev newest).
  { unfold evs. apply newEvents_of_trace. now rewrite List.rev_involutive. }
  rewrite Hev. split; [now apply Forall_rev|].
  assert (Hlen : forall (p : Event -> bool) (l : list Event),
             List.length (List.filter p (List.rev l)) = List.length (List.filter p l)).
  { intros p l. induction l as [|e l IH]; [reflexivity|]. simpl.
    rewrite List.filter_app, List.length_app, IH. simpl.
    destruct (p e); simpl; lia. }
  split; [now rewrite !Hlen|].
  intros obj diag.
  pose proof (pipeline_pull_requests obj w) as Hrun. cbv zeta in Hrun. fold diag in Hrun.
  unfold handleResult, bind at 1, checkAndMark.
  destruct (processedResources w !! resourceID obj) as [[|]|]; cbv beta iota.
  - unfold ret. cbn [worldOf]. now rewrite (sent_of_trace w w []).
  - exact Hrun.
  - exact Hrun.
Qed.

End PullRequests.

(** A Result that reports an OOM kill, delivered while the inference
    endpoint is down: the walk finds the Deployment, the local fallback
    raises its limit, and one pull request carries the update. *)
Example oom_result_leads_to_pull_request :
  let obj := resultWithDetails
               ("Error: OOMKilled" ++ nl ++ nl ++ "Solution: the container was OOMKilled") in
  let w := worldOf (handleResult inferenceDownEnv defaultConfig obj startWorld) in
  List.filter isPullRequest (newEvents startWorld w)
  = [EvDo (pullRequest defaultConfig
             [mkFileUpdate "deployment.yaml" (sampleDeployment "256Mi")]
             (extractDiagnostic obj))]
  /\ List.map URL (requestsOf (newEvents startWorld w))
     = [contentsURL defaultConfig "apps/nginx-unstable";
        contentsURL defaultConfig "apps/nginx-unstable/deployment.yaml";
        aiBaseUrl defaultConfig ++ "/models";
        ghServiceUrl defaultConfig ++ "/pull_requests"].
Proof. split; vm_compute; reflexivity. Qed.

(** ** The dedup gate keeps going, and lets one invocation through *)

Section GateLiveness.

Import Interleaving GateInvariant GateProgress.

Lemma live_initial : live initial.
Proof.
  constructor; simpl.
  - discriminate.
  - intros i t Hi. now rewrite lookup_nil in Hi.
  - intros k Hk. now rewrite lookup_empty in Hk.
  - intros i t Hi. now rewrite lookup_nil in Hi.
Qed.

Lemma live_arrive (s : state) (id : string) : live s -> live (perform s (Arrive id)).
Proof.
  intros [Hh Hs Ho Hf]. constructor; simpl.
  - intros Hl. destruct (Hh Hl) as (i & t & Hi & Hc). exists i, t.
    split; [now apply lookup_app_l_Some | exact Hc].
  - intros i t Hi Hp. apply lookup_snoc_inv in Hi as [Hi|[_ ->]]; [eauto|].
    simpl in Hp. now destruct Hp.
  - intros k Hk. destruct (Ho k Hk) as (j & tj & Hj & Hid & Hm). exists j, tj.
    split; [now apply lookup_app_l_Some | now split].
  - intros i t Hi Hp. apply lookup_snoc_inv in Hi as [Hi|[_ ->]]; [eauto | discriminate].
Qed.

(** The second invariant carries over when thread [i] moves from [p] to
    [p'], under the side conditions each statement of the gate meets. *)
Lemma live_step (s : state) (i : nat) (t : thread) (p' : pc)
    (processed' : gmap string bool) (locked' : bool) (runs' : list nat) :
  live s ->
  st_threads s !! i = Some t ->
  (locked' = true ->
     inCritical p' = true \/ (st_locked s = true /\ inCritical (th_pc t) = false)) ->
  (forall k, st_processed s !! k = Some true -> processed' !! k = Some true) ->
  (p' = Skipped \/ p' = AtSkipUnlock -> processed' !! th_resourceID t = Some true) ->
  (forall k, processed' !! k = Some true ->
             st_processed s !! k = Some true \/ (k = th_resourceID t /\ hasMarked p' = true)) ->
  (hasMarked (th_pc t) = true -> hasMarked p' = true) ->
  (forall j, j ∈ st_runs s -> j ∈ runs') ->
  (p' = Finished -> i ∈ runs') ->
  live (mkState processed' locked' (<[i := mkThread (th_resourceID t) p']> (st_threads s)) runs').
Proof.
  intros [Hh Hs Ho Hf] Hi Hlock Hmono Hskip Horigin Hmark Hruns Hfin.
  assert (Hlt : (i < List.length (st_threads s))%nat) by now apply lookup_lt_Some in Hi.
  constructor; simpl.
  - intros Hl. destruct (Hlock Hl) as [Hc|[Hold Hnc]].
    + exists i, (mkThread (th_resourceID t) p'). split; [|exact Hc].
      now apply list_lookup_insert_eq.
    + destruct (Hh Hold) as (j & tj & Hj & Hcj). exists j, tj. split; [|exact Hcj].
      rewrite list_lookup_insert_ne; [exact Hj|]. intros ->. congruence.
  - intros j u Hj Hp. destruct (lookup_replaced _ _ _ _ _ _ Hi Hj) as [[-> ->]|[Hne Hj']];
      simpl in *; [now apply Hskip | apply Hmono; eauto].
  - intros k Hk. destruct (Horigin k Hk) as [Hold|[-> Hm]].
    + destruct (Ho k Hold) as (j & tj & Hj & Hid & Hm).
      destruct (decide (j = i)) as [->|Hne].
      * exists i, (mkThread (th_resourceID t) p'). split; [now apply list_lookup_insert_eq|].
        simpl. split; [congruence|]. apply Hmark. congruence.
      * exists j, tj. split; [now rewrite list_lookup_insert_ne | now split].
    + exists i, (mkThread (th_resourceID t) p'). split; [now apply list_lookup_insert_eq|].
      now split.
  - intros j u Hj Hp. destruct (lookup_replaced _ _ _ _ _ _ Hi Hj) as [[-> ->]|[Hne Hj']];
      simpl in *; [now apply Hfin | apply Hruns; eauto].
Qed.

Ltac live_step_tac Hi Hpc :=
  unfold setThread; rewrite Hi;
  apply live_step; rewrite ?Hpc; simpl; auto; try discriminate; try congruence.

Lemma live_move (s : state) (i : nat) : inv s -> live s -> live (move s i).
Proof.
  intros Hinv Hlive. unfold move.
  destruct (st_threads s !! i) as [t|] eqn:Hi; [|exact Hlive].
  pose proof (inv_locked s Hinv i t Hi) as Hlk.
  pose proof (live_skipped s Hlive i t Hi) as Hsk.
  destruct (th_pc t) eqn:Hpc; simpl in Hlk.
  - destruct (st_locked s) eqn:Hlock; [exact Hlive|]. live_step_tac Hi Hpc.
    intros [|]; discriminate.
  - destruct (st_processed s !! th_resourceID t) as [[|]|] eqn:Hmap;
      live_step_tac Hi Hpc; intros [|]; discriminate.
  - live_step_tac Hi Hpc.
  - live_step_tac Hi Hpc.
    + intros k Hk. destruct (decide (th_resourceID t = k)) as [->|Hne];
        [apply lookup_insert_eq | now rewrite lookup_insert_ne].
    + intros [|]; discriminate.
    + intros k Hk. destruct (decide (th_resourceID t = k)) as [->|Hne];
        [now right | left; now rewrite lookup_insert_ne in Hk].
  - live_step_tac Hi Hpc. intros [|]; discriminate.
  - live_step_tac Hi Hpc.
    + intros [|]; discriminate.
    + intros j Hj. now right.
    + intros _. now left.
  - exact Hlive.
  - exact Hlive.
Qed.

Lemma inv_live_run (schedule : list action) (s : state) :
  inv s -> live s -> inv (run schedule s) /\ live (run schedule s).
Proof.
  revert s. induction schedule as [|a schedule IH]; intros s Hi Hl; [now split|].
  simpl. destruct a as [id|i].
  - apply IH; [now apply inv_arrive | now apply live_arrive].
  - apply IH; [now apply inv_move | now apply live_move].
Qed.

(** A move that changes the state changes the place of its thread, to
    one with fewer statements left. *)
Lemma sum_list_replace (l : list thread) (i : nat) (t t' : thread) :
  l !! i = Some t ->
  (sum_list (List.map (fun t => stepsLeft (th_pc t)) (<[i := t']> l))
   + stepsLeft (th_pc t)
   = sum_list (List.map (fun t => stepsLeft (th_pc t)) l) + stepsLeft (th_pc t'))%nat.
Proof.
  revert i. induction l as [|x l IH]; intros i Hi; [now rewrite lookup_nil in Hi|].
  destruct i as [|i]; simpl in *.
  - injection Hi as ->. lia.
  - specialize (IH i Hi). lia.
Qed.

Lemma move_cases (s : state) (i : nat) :
  move s i = s
  \/ exists t p' processed' locked' runs',
       st_threads s !! i = Some t
       /\ move s i = mkState processed' locked'
                       (<[i := mkThread (th_resourceID t) p']> (st_threads s)) runs'
       /\ (stepsLeft p' < stepsLeft (th_pc t))%nat.
Proof.
  unfold move. destruct (st_threads s !! i) as [t|] eqn:Hi; [|now left].
  destruct (th_pc t) eqn:Hpc; try (now left).
  - destruct (st_locked s); [now left|]. right. unfold setThread. rewrite Hi.
    eexists t, _, _, _, _. split; [reflexivity|]. split; [reflexivity|].
    rewrite Hpc. simpl. lia.
  - right. unfold setThread. rewrite Hi.
    destruct (st_processed s !! th_resourceID t) as [[|]|];
      (eexists t, _, _, _, _; split; [reflexivity|]; split; [reflexivity|];
       rewrite Hpc; simpl; lia).
  - right. unfold setThread. rewrite Hi.
    eexists t, _, _, _, _. split; [reflexivity|]. split; [reflexivity|].
    rewrite Hpc. simpl. lia.
  - right. unfold setThread. rewrite Hi.
    eexists t, _, _, _, _. split; [reflexivity|]. split; [reflexivity|].
    rewrite Hpc. simpl. lia.
  - right. unfold setThread. rewrite Hi.
    eexists t, _, _, _, _. split; [reflexivity|]. split; [reflexivity|].
    rewrite Hpc. simpl. lia.
  - right. unfold setThread. rewrite Hi.
    eexists t, _, _, _, _. split; [reflexivity|]. split; [reflexivity|].
    rewrite Hpc. simpl. lia.
Qed.

Lemma move_decreases (s : state) (i : nat) :
  move s i <> s -> (remaining (move s i) < remaining s)%nat.
Proof.
  intros Hne. destruct (move_cases s i) as [Heq|(t & p' & pr & lk & rs & Hi & Hmove & Hlt)];
    [contradiction|].
  rewrite Hmove. unfold remaining. simpl.
  pose proof (sum_list_replace (st_threads s) i t (mkThread (th_resourceID t) p') Hi) as Hsum.
  simpl in Hsum. lia.
Qed.

(** A thread that can execute its next statement. *)
Lemma move_changes (s : state) (i : nat) (t : thread) :
  st_threads s !! i = Some t ->
  returned (th_pc t) = false ->
  (th_pc t = AtLock -> st_locked s = false) ->
  move s i <> s.
Proof.
  intros Hi Hret Hfree Heq.
  assert (Hthread : st_threads (move s i) !! i = Some t) by now rewrite Heq.
  assert (Hlt : (i < List.length (st_threads s))%nat) by now apply lookup_lt_Some in Hi.
  unfold move in Hthread. rewrite Hi in Hthread.
  destruct (th_pc t) eqn:Hpc; try discriminate Hret.
  - rewrite (Hfree eq_refl) in Hthread. unfold setThread in Hthread.
    rewrite Hi in Hthread. simpl in Hthread.
    rewrite list_lookup_insert_eq in Hthread by exact Hlt.
    injection Hthread as Ht. rewrite <- Ht in Hpc. discriminate.
  - destruct (st_processed s !! th_resourceID t) as [[|]|];
      unfold setThread in Hthread; rewrite Hi in Hthread; simpl in Hthread;
      rewrite list_lookup_insert_eq in Hthread by exact Hlt;
      injection Hthread as Ht; rewrite <- Ht in Hpc; discriminate.
  - unfold setThread in Hthread. rewrite Hi in Hthread. simpl in Hthread.
    rewrite list_lookup_insert_eq in Hthread by exact Hlt.
    injection Hthread as Ht. rewrite <- Ht in Hpc. discriminate.
  - unfold setThread in Hthread. rewrite Hi in Hthread. simpl in Hthread.
    rewrite list_lookup_insert_eq in Hthread by exact Hlt.
    injection Hthread as Ht. rewrite <- Ht in Hpc. discriminate.
  - unfold setThread in Hthread. rewrite Hi in Hthread. simpl in Hthread.
    rewrite list_lookup_insert_eq in Hthread by exact Hlt.
    injection Hthread as Ht. rewrite <- Ht in Hpc. discriminate.
  - unfold setThread in Hthread. rewrite Hi in Hthread. simpl in Hthread.
    rewrite list_lookup_insert_eq in Hthread by exact Hlt.
    injection Hthread as Ht. rewrite <- Ht in Hpc. discriminate.
Qed.

(** X15. Under every schedule the gate keeps going.  The mutex is held
    exactly while some invocation is between its Lock and its Unlock, so
    both paths release it, and no two invocations are there at a time; as
    long as an invocation has not returned, some
    invocation can execute its next statement; and every statement
    executed brings the invocations closer to their return, so that no
    schedule keeps them busy for ever. *)
Theorem gate_never_deadlocks (schedule : list action) :
  let s := run schedule initial in
  (st_locked s = true
   <-> exists i t, st_threads s !! i = Some t /\ inCritical (th_pc t) = true)
  /\ (forall i j ti tj,
        st_threads s !! i = Some ti -> st_threads s !! j = Some tj ->
        inCritical (th_pc ti) = true -> inCritical (th_pc tj) = true -> i = j)
  /\ ((exists i t, st_threads s !! i = Some t /\ returned (th_pc t) = false) ->
      exists i, move s i <> s)
  /\ (forall i, move s i <> s -> (remaining (move s i) < remaining s)%nat).
Proof.
  intros s.
  destruct (inv_live_run schedule initial inv_initial live_initial) as [Hinv Hlive].
  fold s in Hinv, Hlive. split; [|split; [|split]].
  - split; [apply (live_holder s Hlive)|].
    intros (i & t & Hi & Hc). exact (inv_locked s Hinv i t Hi Hc).
  - exact (inv_mutex s Hinv).
  - intros (i & t & Hi & Hret).
    destruct (st_locked s) eqn:Hlock.
    + destruct (live_holder s Hlive Hlock) as (j & tj & Hj & Hc). exists j.
      apply (move_changes s j tj Hj).
      * now destruct (th_pc tj).
      * intros Hpc. rewrite Hpc in Hc. discriminate.
    + exists i. apply (move_changes s i t Hi Hret). now intros _.
  - intros i. apply move_decreases.
Qed.

(** X16. Once the invocations for an identity have all returned, and
    there was at least one, the pipeline has run for that identity exactly
    once, whatever the schedule was: the first one through the gate runs
    it, and the others were skipped because of its mark. *)
Theorem gate_exactly_once (schedule : list action) (id : string) :
  let s := run schedule initial in
  (exists i t, st_threads s !! i = Some t /\ th_resourceID t = id) ->
  (forall i t, st_threads s !! i = Some t -> th_resourceID t = id ->
               returned (th_pc t) = true) ->
  List.length (runsOf s id) = 1%nat.
Proof.
  intros s (i & t & Hi & Hid) Hdone.
  destruct (inv_live_run schedule initial inv_initial live_initial) as [Hinv Hlive].
  fold s in Hinv, Hlive.
  assert (Hle : (List.length (runsOf s id) <= 1)%nat).
  { apply at_most_one.
    - unfold runsOf.
      apply NoDup_ListNoDup, List.NoDup_filter, NoDup_ListNoDup, (inv_runs_nodup s Hinv).
    - intros x y Hx Hy. unfold runsOf in Hx, Hy.
      apply list_elem_of_In, List.filter_In in Hx as [Hx Hxid].
      apply list_elem_of_In, List.filter_In in Hy as [Hy Hyid].
      apply list_elem_of_In in Hx, Hy.
      destruct (inv_runs_finished s Hinv _ Hx) as (tx & Htx & Hfx).
      destruct (inv_runs_finished s Hinv _ Hy) as (ty & Hty & Hfy).
      rewrite Htx in Hxid. rewrite Hty in Hyid.
      apply String.eqb_eq in Hxid, Hyid.
      apply (inv_unique s Hinv _ _ _ _ Htx Hty); rewrite ?Hfx, ?Hfy;
        [reflexivity | reflexivity | congruence]. }
  assert (Hrun : exists j tj, st_threads s !! j = Some tj /\ th_resourceID tj = id
                              /\ th_pc tj = Finished).
  { pose proof (Hdone i t Hi Hid) as Hret.
    destruct (th_pc t) eqn:Hpc; try discriminate Hret.
    - assert (Hmark : st_processed s !! id = Some true).
      { rewrite <- Hid. apply (live_skipped s Hlive i t Hi). now left. }
      destruct (live_origin s Hlive id Hmark) as (j & tj & Hj & Hidj & Hm).
      exists j, tj. split; [exact Hj|]. split; [exact Hidj|].
      pose proof (Hdone j tj Hj Hidj) as Hretj.
      destruct (th_pc tj); try discriminate; reflexivity.
    - exists i, t. now repeat split. }
  destruct Hrun as (j & tj & Hj & Hidj & Hfin).
  assert (Hin : In j (runsOf s id)).
  { unfold runsOf. apply List.filter_In. split.
    - apply list_elem_of_In, (live_finished s Hlive j tj Hj Hfin).
    - rewrite Hj. now apply String.eqb_eq. }
  destruct (runsOf s id) as [|x l]; [destruct Hin | simpl in *; lia].
Qed.

End GateLiveness.

(** Two add-events for one identity: the second invocation reaches the
    gate after the first has marked the identity. *)
Lemma gate_exactly_once_witness :
  List.length
    (Interleaving.runsOf
       (Interleaving.run
          [ Interleaving.Arrive "uid-1"; Interleaving.Arrive "uid-1";
            Interleaving.Move 0; Interleaving.Move 0; Interleaving.Move 1;
            Interleaving.Move 0; Interleaving.Move 0; Interleaving.Move 0;
            Interleaving.Move 1; Interleaving.Move 1; Interleaving.Move 1 ]
          Interleaving.initial)
       "uid-1")
  = 1%nat.
Proof.
  apply gate_exactly_once.
  - exists 0%nat, (Interleaving.mkThread "uid-1" Interleaving.Finished).
    vm_compute. split; reflexivity.
  - intros [|[|i]] t Hi _; vm_compute in Hi.
    + injection Hi as <-. reflexivity.
    + injection Hi as <-. reflexivity.
    + discriminate Hi.
Defined.

(** ** The configuration read from the environment *)

Lemma digitsValue_uint_acc (d : Decimal.uint) (acc : positive) :
  digitsValue (Z.pos acc) (NilEmpty.string_of_uint d) = Some (Z.pos (Pos.of_uint_acc d acc)).
Proof.
  revert acc. induction d as [|d IH|d IH|d IH|d IH|d IH|d IH|d IH|d IH|d IH|d IH];
    intros acc; [reflexivity|..];
    cbn [NilEmpty.string_of_uint digitsValue Pos.of_uint_acc];
    (replace (isDigit _) with true by reflexivity);
    rewrite <- IH; f_equal;
    match goal with
    | |- context [digitVal ?c] =>
        let v := eval vm_compute in (digitVal c) in change (digitVal c) with v
    end; lia.
Qed.

Lemma digitsValue_uint (d : Decimal.uint) :
  digitsValue 0 (NilEmpty.string_of_uint d) = Some (Z.of_N (Pos.of_uint d)).
Proof.
  induction d as [|d IH|d IH|d IH|d IH|d IH|d IH|d IH|d IH|d IH|d IH];
    [reflexivity | exact IH |..];
    cbn [NilEmpty.string_of_uint digitsValue Pos.of_uint];
    (replace (isDigit _) with true by reflexivity);
    apply digitsValue_uint_acc.
Qed.

Lemma string_of_uint_positive (p : positive) :
  NilZero.string_of_uint (Pos.to_uint p) = NilEmpty.string_of_uint (Pos.to_uint p)
  /\ NilEmpty.string_of_uint (Pos.to_uint p) <> EmptyString
  /\ digitsValue 0 (NilEmpty.string_of_uint (Pos.to_uint p)) = Some (Z.pos p).
Proof.
  pose proof (DecimalPos.Unsigned.to_uint_nonnil p) as Hnil.
  pose proof (DecimalPos.Unsigned.of_to p) as Hof.
  rewrite digitsValue_uint, Hof.
  destruct (Pos.to_uint p); [contradiction|..]; repeat split; discriminate.
Qed.

(** The decimal form of an [int] reads back as that [int]. *)
Lemma Atoi_Itoa (n : Z) : minInt64 <= n <= maxInt64 -> Atoi (Itoa n) = Some n.
Proof.
  intros Hn. unfold Itoa. destruct n as [|p|p]; [reflexivity| |];
    cbn [Z.to_int NilZero.string_of_int].
  - destruct (string_of_uint_positive p) as (-> & Hne & Hv).
    rewrite (Atoi_digits _ _ Hne Hv).
    destruct (Z.leb_spec (Z.pos p) maxInt64); [reflexivity | lia].
  - destruct (string_of_uint_positive p) as (-> & Hne & Hv).
    unfold Atoi, ParseInt.
    replace (Ascii.eqb "-" (ascii_of_nat 45)) with true by reflexivity.
    cbn [orb]. cbv iota.
    destruct (NilEmpty.string_of_uint (Pos.to_uint p)) as [|c rest] eqn:Hs; [contradiction|].
    rewrite Hv. unfold minInt64 in *.
    destruct (Z.leb_spec (Z.pos p) (- -9223372036854775808)); [reflexivity | lia].
Qed.

Lemma Itoa_not_empty (n : Z) : Itoa n <> EmptyString.
Proof.
  unfold Itoa. destruct n as [|p|p]; cbn [Z.to_int NilZero.string_of_int]; try discriminate.
  destruct (string_of_uint_positive p) as (-> & Hne & _). exact Hne.
Qed.

Lemma digitsValue_nonneg (s : string) (acc n : Z) :
  0 <= acc -> digitsValue acc s = Some n -> 0 <= n.
Proof.
  revert acc. induction s as [|c s IH]; intros acc Hacc; simpl.
  - now intros [= <-].
  - destruct (isDigit c) eqn:Hc; [|discriminate]. apply IH.
    unfold isDigit in Hc. apply andb_true_iff in Hc as [Hlo _].
    apply Nat.leb_le in Hlo. unfold digitVal. lia.
Qed.

Lemma ParseInt_range (s : string) (n : Z) :
  ParseInt s = Some n -> minInt64 <= n <= maxInt64.
Proof.
  unfold ParseInt. destruct s as [|c rest]; [discriminate|].
  destruct (if _ || _ then rest else String c rest) as [|d digits] eqn:Hd; [discriminate|].
  destruct (digitsValue 0 (String d digits)) as [un|] eqn:Hv; [|discriminate].
  pose proof (digitsValue_nonneg _ _ _ (Z.le_refl 0) Hv) as Hun.
  unfold minInt64, maxInt64 in *.
  destruct (Ascii.eqb c (ascii_of_nat 45)).
  - destruct (Z.leb_spec un (- -9223372036854775808)); [|discriminate].
    intros [= <-]. lia.
  - destruct (Z.leb_spec un 9223372036854775807); [|discriminate].
    intros [= <-]. lia.
Qed.

(** X17. An integer variable reads back what [%d] writes: for every
    [int] n, the value that is its decimal form gives n.  A variable that
    is unset or empty gives the default, and the result is always the
    default or a number in the range of an [int]. *)
Theorem getEnvIntOrDefault_reads_decimal (environ : gmap string string) (key : string)
    (defaultValue : Z) :
  (forall n,
      minInt64 <= n <= maxInt64 -> environ !! key = Some (Itoa n) ->
      getEnvIntOrDefault environ key defaultValue = n)
  /\ (environ !! key = None \/ environ !! key = Some EmptyString ->
      getEnvIntOrDefault environ key defaultValue = defaultValue)
  /\ (getEnvIntOrDefault environ key defaultValue = defaultValue
      \/ minInt64 <= getEnvIntOrDefault environ key defaultValue <= maxInt64).
Proof.
  unfold getEnvIntOrDefault. split; [|split].
  - intros n Hn ->.
    destruct (String.eqb_spec (Itoa n) "") as [He|_]; [now apply Itoa_not_empty in He|].
    cbn [negb]. now rewrite Atoi_Itoa.
  - intros [->| ->]; reflexivity.
  - destruct (environ !! key) as [value|]; [|now left].
    destruct (negb (String.eqb value "")); [|now left].
    destruct (Atoi value) as [intVal|] eqn:Hv; [|now left].
    right. exact (ParseInt_range value intVal Hv).
Qed.

Lemma getEnvIntOrDefault_reads_decimal_witness :
  getEnvIntOrDefault {[ "AI_MAX_RETRIES" := "5" ]} "AI_MAX_RETRIES" 3 = 5.
Proof.
  apply (proj1 (getEnvIntOrDefault_reads_decimal {[ "AI_MAX_RETRIES" := "5" ]}
                  "AI_MAX_RETRIES" 3) 5).
  - vm_compute. split; discriminate.
  - vm_compute. reflexivity.
Defined.

Lemma lookup_empty_or_unset (environ : gmap string string) (k key : string) :
  (<[k := EmptyString]> environ !! key = Some EmptyString
   /\ delete k environ !! key = None)
  \/ (<[k := EmptyString]> environ !! key = environ !! key
      /\ delete k environ !! key = environ !! key).
Proof.
  destruct (decide (k = key)) as [->|Hne].
  - left. now rewrite lookup_insert_eq, lookup_delete_eq.
  - right. now rewrite lookup_insert_ne, lookup_delete_ne.
Qed.

Lemma getEnvOrDefault_empty (environ : gmap string string) (k key defaultValue : string) :
  getEnvOrDefault (<[k := EmptyString]> environ) key defaultValue
  = getEnvOrDefault (delete k environ) key defaultValue.
Proof.
  unfold getEnvOrDefault.
  now destruct (lookup_empty_or_unset environ k key) as [[-> ->]|[-> ->]].
Qed.

Lemma getEnvIntOrDefault_empty (environ : gmap string string) (k key : string) (defaultValue : Z) :
  getEnvIntOrDefault (<[k := EmptyString]> environ) key defaultValue
  = getEnvIntOrDefault (delete k environ) key defaultValue.
Proof.
  unfold getEnvIntOrDefault.
  now destruct (lookup_empty_or_unset environ k key) as [[-> ->]|[-> ->]].
Qed.

Lemma getEnvBoolOrDefault_empty (environ : gmap string string) (k key : string)
    (defaultValue : bool) :
  getEnvBoolOrDefault (<[k := EmptyString]> environ) key defaultValue
  = getEnvBoolOrDefault (delete k environ) key defaultValue.
Proof.
  unfold getEnvBoolOrDefault.
  now destruct (lookup_empty_or_unset environ k key) as [[-> ->]|[-> ->]].
Qed.

(** X18. A variable that is set to the empty string counts as unset:
    the whole configuration is the same with the variable empty and with
    the variable removed.  With no variable set the configuration is the
    default one, and a boolean variable reads back what [%v] writes,
    whatever its default. *)
Theorem loadConfig_ignores_empty_variables (environ : gmap string string) (k : string) :
  loadConfig (<[k := EmptyString]> environ) = loadConfig (delete k environ)
  /\ loadConfig ∅ = defaultConfig
  /\ (forall key b defaultValue,
        environ !! key = Some (formatBool b) ->
        getEnvBoolOrDefault environ key defaultValue = b).
Proof.
  split; [|split].
  - unfold loadConfig.
    now rewrite !getEnvOrDefault_empty, !getEnvIntOrDefault_empty,
      !getEnvBoolOrDefault_empty.
  - reflexivity.
  - intros key b defaultValue Hk. unfold getEnvBoolOrDefault. rewrite Hk.
    now destruct b.
Qed.

(** ** The walk over a directory of the repository *)

(** The documented results of [filepath.Clean], [filepath.Join] and
    [filepath.Base]. *)
Example filepath_examples :
  List.map Filepath.Clean
    [ "abc//def//ghi"; "abc/def/../ghi/../jkl"; "abc/def/../../../ghi/jkl/../../../mno";
      "/../abc"; "abc/./../def"; "../../abc"; ""; "/"; "abc/"; "/abc/def/../.." ]
  = [ "abc/def/ghi"; "abc/jkl"; "../../mno"; "/abc"; "def"; "../../abc"; "."; "/"; "abc"; "/" ]
  /\ List.map (fun p => Filepath.Join2 (fst p) (snd p))
       [ ("a", "b"); ("a", ""); ("", "b"); ("", ""); ("a/", "b"); ("a", "../b") ]
     = [ "a/b"; "a"; "b"; ""; "a/b"; "b" ]
  /\ List.map Filepath.Base [ ""; "abc"; "abc/def"; "a/b/.x"; "a/b/c."; "/"; "abc/"; "////" ]
     = [ "."; "abc"; "def"; ".x"; "c."; "/"; "abc"; "/" ].
Proof. vm_compute. repeat split. Qed.

Section WalkFacts.

Variable E : Env.
Variable cfg : Config.
Variable decodeListing : Response -> result (list GitHubContent).
Variable rangeOrder : gmap string string -> list (string * string).

Lemma fetchSingleFile_success (filePath : string) (w w' : World)
    (files : gmap string string) :
  Walk.fetchSingleFile E cfg filePath w = Done (Ok files) w' ->
  exists content, files = {[ Filepath.Base filePath := content ]}.
Proof.
  unfold Walk.fetchSingleFile.
  destruct (env_newRequest E "GET" (contentsURL cfg filePath)); [discriminate|].
  unfold bind, Do.
  destruct (env_net E (netCalls w)) as [resp|msg deadline]; [|discriminate].
  destruct (negb (StatusCode resp =? 200)); [discriminate|].
  destruct (env_decodeContent E resp) as [content|e]; [|discriminate].
  destruct (_ && _); [|discriminate].
  destruct (env_base64 E _) as [decodedContent|e]; [|discriminate].
  intros [= <- _]. now exists decodedContent.
Qed.

(** X19. A walk that succeeds has found at least one file: the map it
    returns is never empty, whatever GitHub answered on the way.  (So the
    caller's test for an empty map after a successful walk never
    fires.) *)
Theorem walk_success_is_not_empty (depth : nat) (dirPath : string) (w w' : World)
    (files : gmap string string) :
  Walk.fetchDirectoryContents E cfg decodeListing rangeOrder depth dirPath w
  = Done (Some (Ok files)) w' ->
  files <> ∅ /\ (0 < size files)%nat.
Proof.
  intros Hrun.
  assert (Hsize : (0 < size files)%nat).
  { destruct depth as [|depth]; [discriminate Hrun|].
    cbn [Walk.fetchDirectoryContents] in Hrun.
    destruct (env_newRequest E "GET" (contentsURL cfg dirPath)); [discriminate|].
    unfold bind at 1, Do in Hrun.
    destruct (env_net E (netCalls w)) as [resp|msg deadline]; [|discriminate].
    destruct (rateLimited resp); [discriminate|].
    destruct (StatusCode resp =? 404); [discriminate|].
    destruct (400 <=? StatusCode resp); [discriminate|].
    destruct (decodeListing resp) as [contents|e].
    - unfold bind in Hrun.
      destruct (Walk.walkItems _ _ _ _ _ _ _ _) as [[walked|] w1|w1]; try discriminate.
      destruct (Nat.eqb_spec (size walked) 0) as [|Hne]; [discriminate|].
      injection Hrun as <- _. lia.
    - unfold bind in Hrun.
      destruct (Walk.fetchSingleFile E cfg dirPath _) as [[single|text] w1|w1] eqn:Hsingle;
        try discriminate.
      injection Hrun as <- _.
      destruct (fetchSingleFile_success _ _ _ _ Hsingle) as [content ->].
      rewrite map_size_singleton. lia. }
  split; [|exact Hsize]. intros ->. rewrite map_size_empty in Hsize. lia.
Qed.

End WalkFacts.

Lemma walk_success_is_not_empty_witness :
  ({[ "deployment.yaml" := "kind: Deployment" ]} : gmap string string) <> ∅
  /\ (0 < size ({[ "deployment.yaml" := "kind: Deployment" ]} : gmap string string))%nat.
Proof.
  eapply (walk_success_is_not_empty repositoryEnv defaultConfig repositoryListing
            map_to_list 1 "apps/nginx" startWorld).
  vm_compute. reflexivity.
Defined.

(** *** Requests and sleeps of a walk *)

Lemma requestsOf_rev_length (evs : list Event) :
  List.length (requestsOf (List.rev evs)) = List.length (requestsOf evs).
Proof.
  induction evs as [|e evs IH]; [reflexivity|]. simpl.
  rewrite requestsOf_app, List.length_app, IH. destruct e; simpl; lia.
Qed.

Lemma sleepsOf_rev_length (evs : list Event) :
  List.length (sleepsOf (List.rev evs)) = List.length (sleepsOf evs).
Proof. now rewrite sleepsOf_rev, List.length_rev. Qed.

Lemma Within_le {A} (r s r' s' : nat) (m : M A) :
  (r <= r')%nat -> (s <= s')%nat -> Within r s m -> Within r' s' m.
Proof.
  intros Hr Hs Hm w. destruct (Hm w) as (a & w' & evs & Hrun & Ht & Hq & Hl).
  exists a, w', evs. repeat split; [exact Hrun | exact Ht | lia | lia].
Qed.

Lemma Within_ret {A} (a : A) : Within 0 0 (ret a).
Proof. intros w. exists a, w, []. repeat split; simpl; lia. Qed.

Lemma Within_bind {A B} (r1 s1 r2 s2 : nat) (m : M A) (k : A -> M B) :
  Within r1 s1 m -> (forall a, Within r2 s2 (k a)) -> Within (r1 + r2) (s1 + s2) (bind m k).
Proof.
  intros Hm Hk w. destruct (Hm w) as (a & w1 & e1 & Hrun1 & Ht1 & Hq1 & Hl1).
  destruct (Hk a w1) as (b & w2 & e2 & Hrun2 & Ht2 & Hq2 & Hl2).
  exists b, w2, (e2 ++ e1)%list. unfold bind. rewrite Hrun1, Hrun2.
  split; [reflexivity|]. split; [now rewrite Ht2, Ht1, List.app_assoc|].
  rewrite requestsOf_app, sleepsOf_app, !List.length_app. lia.
Qed.

Lemma Within_Do (E : Env) (req : Request) : Within 1 0 (Do E req).
Proof. intros w. eexists _, _, [EvDo req]. repeat split; simpl; lia. Qed.

Section WalkBounds.

Variable E : Env.
Variable cfg : Config.
Variable decodeListing : Response -> result (list GitHubContent).
Variable rangeOrder : gmap string string -> list (string * string).

(** The retry loop returns, with what it has sent and slept on record. *)
Lemma Within_fetchFileAttempts
    (remaining : nat) (i : Z) (req : Request) (resp : option Response) :
  (remaining = 0%nat -> resp <> None) ->
  Within remaining remaining (fetchFileAttempts E remaining i req resp).
Proof.
  revert i resp. induction remaining as [|n IH]; intros i resp Hresp w.
  - destruct resp as [r|]; [|now destruct (Hresp eq_refl)].
    exists (Ok (r, true)), w, []. repeat split; simpl; lia.
  - cbn [fetchFileAttempts]. unfold bind at 1, Do at 1.
    set (w1 := mkWorld _ _ _ _ _ (EvDo req :: trace w)).
    destruct (env_net E (netCalls w)) as [r|msg deadline].
    2:{ eexists _, w1, [EvDo req]. repeat split; simpl; lia. }
    destruct (rateLimited r).
    2:{ eexists _, w1, [EvDo req]. repeat split; simpl; lia. }
    assert (Hback : forall w2 d,
               trace w2 = trace w1 ->
               exists a w' evs,
                 bind (Sleep d) (fun _ => fetchFileAttempts E n (i + 1) req (Some r)) w2
                 = Done a w'
                 /\ trace w' = (evs ++ trace w)%list
                 /\ (List.length (requestsOf evs) <= S n)%nat
                 /\ (List.length (sleepsOf evs) <= S n)%nat).
    { intros w2 d Hw2. unfold bind, Sleep, emit.
      match goal with |- context [fetchFileAttempts E n (i + 1) req (Some r) ?w3] =>
        destruct (IH (i + 1) (Some r) ltac:(discriminate) w3)
          as (a & w' & evs & Hrun & Ht & Hq & Hl) end.
      exists a, w', (evs ++ [EvSleep d; EvDo req])%list. split; [exact Hrun|].
      split; [rewrite Ht; cbn [trace]; rewrite Hw2; unfold w1; cbn [trace];
              now rewrite <- List.app_assoc|].
      rewrite requestsOf_app, sleepsOf_app, !List.length_app. simpl. lia. }
    destruct (if String.eqb (Header_Get r "X-RateLimit-Reset") "" then None
              else ParseInt (Header_Get r "X-RateLimit-Reset")) as [resetTime|].
    + unfold bind at 1. unfold Now at 1.
      destruct (resetWait r (env_clock E (clockReads w1))); now apply Hback.
    + now apply Hback.
Qed.

Lemma Within_fetchFileContent (filePath : string) :
  Within 3 3 (fetchFileContent E cfg filePath).
Proof.
  unfold fetchFileContent.
  destruct (env_newRequest E "GET" (contentsURL cfg filePath));
    [apply (Within_le 0 0); [lia | lia | apply Within_ret]|].
  apply (Within_bind 3 3 0 0); [now apply Within_fetchFileAttempts | intros out].
  destruct out as [[resp closed]|msg]; [|apply Within_ret].
  destruct (negb (StatusCode resp =? 200)); [apply Within_ret|].
  destruct (env_decodeContent E resp) as [content|e]; [|apply Within_ret].
  destruct (_ && _); [|apply Within_ret].
  destruct (env_base64 E _); apply Within_ret.
Qed.

Lemma Within_walkItems_flat
    (recurse : string -> M (option (result (gmap string string))))
    (dirPath : string) (contents : list GitHubContent) (files : gmap string string) :
  flatListing contents ->
  Within (3 * List.length contents) (3 * List.length contents)
    (bind (Walk.walkItems E cfg rangeOrder recurse dirPath contents files)
          (fun walked => match walked with
                         | Some files' => ret (Some files')
                         | None => panic
                         end)).
Proof.
  intros Hflat. revert files. induction Hflat as [|item rest Hitem _ IH]; intros files.
  - intros w. exists (Some files), w, []. repeat split; simpl; lia.
  - cbn [Walk.walkItems]. rewrite Hitem.
    intros w. destruct (Within_fetchFileContent (gh_Path item) w)
      as (fetched & w1 & e1 & Hrun1 & Ht1 & Hq1 & Hl1).
    assert (Hnext : forall files1,
               exists a w' evs,
                 bind (Walk.walkItems E cfg rangeOrder recurse dirPath rest files1)
                      (fun walked => match walked with
                                     | Some files' => ret (Some files')
                                     | None => panic
                                     end) w1 = Done a w'
                 /\ trace w' = (evs ++ trace w)%list
                 /\ (List.length (requestsOf evs) <= 3 * List.length (item :: rest))%nat
                 /\ (List.length (sleepsOf evs) <= 3 * List.length (item :: rest))%nat).
    { intros files1. destruct (IH files1 w1) as (a & w2 & e2 & Hrun2 & Ht2 & Hq2 & Hl2).
      exists a, w2, (e2 ++ e1)%list. split; [exact Hrun2|].
      split; [now rewrite Ht2, Ht1, List.app_assoc|].
      rewrite requestsOf_app, sleepsOf_app, !List.length_app. simpl. lia. }
    unfold bind at 1 2. rewrite Hrun1.
    destruct fetched as [fileContent|e]; apply Hnext.
Qed.

(** X20. The walk over a directory that lists files only returns
    within one nested call, and is bounded: one request for the listing
    and at most three requests and three sleeps for each file listed. *)
Theorem flat_walk_is_bounded (depth : nat) (dirPath : string) (w : World)
    (resp : Response) (contents : list GitHubContent) :
  env_newRequest E "GET" (contentsURL cfg dirPath) = None ->
  env_net E (netCalls w) = DoResp resp ->
  rateLimited resp = false -> StatusCode resp < 400 ->
  decodeListing resp = Ok contents -> flatListing contents ->
  exists r w',
    Walk.fetchDirectoryContents E cfg decodeListing rangeOrder (S depth) dirPath w
    = Done (Some r) w'
    /\ (List.length (requestsOf (newEvents w w')) <= 1 + 3 * List.length contents)%nat
    /\ (List.length (sleepsOf (newEvents w w')) <= 3 * List.length contents)%nat.
Proof.
  intros Hreq Hnet Hlim Hst Hdec Hflat.
  cbn [Walk.fetchDirectoryContents]. rewrite Hreq.
  unfold bind at 1, Do. rewrite Hnet, Hlim.
  destruct (Z.eqb_spec (StatusCode resp) 404) as [|_]; [lia|].
  destruct (Z.leb_spec 400 (StatusCode resp)) as [|_]; [lia|].
  rewrite Hdec.
  match goal with |- context [bind (Walk.walkItems _ _ _ ?rec _ _ _) _ ?w1] =>
    destruct (Within_walkItems_flat rec dirPath contents ∅ Hflat w1)
      as (a & w2 & evs & Hrun & Ht & Hq & Hl);
    unfold bind in Hrun |- *;
    destruct (Walk.walkItems E cfg rangeOrder rec dirPath contents ∅ w1)
      as [[files|] w3|w3]; try discriminate Hrun
  end.
  injection Hrun as _ <-. cbn [trace] in Ht.
  assert (Hev : newEvents w w3 = List.rev (evs ++ [EvDo (githubRequest cfg dirPath)])).
  { apply newEvents_of_trace. rewrite List.rev_involutive, <- List.app_assoc. exact Ht. }
  assert (Hbounds :
            (List.length (requestsOf (newEvents w w3)) <= 1 + 3 * List.length contents)%nat
            /\ (List.length (sleepsOf (newEvents w w3)) <= 3 * List.length contents)%nat).
  { rewrite Hev, requestsOf_rev_length, sleepsOf_rev_length.
    rewrite requestsOf_app, sleepsOf_app, !List.length_app. simpl. lia. }
  destruct (size files =? 0)%nat; eexists _, w3; (split; [reflexivity | exact Hbounds]).
Qed.

(** X21. A listing that fails is final: on a transport failure, a
    rate-limit refusal or any status from 400 on, the walk has sent its
    one request, does not sleep or retry, and reports the failure; the
    rate-limit refusal is reported with its reset time, status 404 as a
    directory that was not found. *)
Theorem listing_failure_is_final (depth : nat) (dirPath : string) (w : World) :
  env_newRequest E "GET" (contentsURL cfg dirPath) = None ->
  match env_net E (netCalls w) with
  | DoErr _ _ => True
  | DoResp resp => rateLimited resp = true \/ 400 <= StatusCode resp
  end ->
  exists text w',
    Walk.fetchDirectoryContents E cfg decodeListing rangeOrder (S depth) dirPath w
    = Done (Some (Err text)) w'
    /\ newEvents w w' = [EvDo (githubRequest cfg dirPath)]
    /\ text = match env_net E (netCalls w) with
              | DoErr msg _ => "error fetching directory contents: " ++ msg
              | DoResp resp =>
                  if rateLimited resp then
                    "GitHub API rate limit exceeded. Rate limit resets at "
                    ++ Header_Get resp "X-RateLimit-Reset"
                  else if StatusCode resp =? 404 then "directory not found: " ++ dirPath
                  else "GitHub API error (status " ++ Itoa (StatusCode resp) ++ "): "
                       ++ Body resp
              end.
Proof.
  intros Hreq Hnet. cbn [Walk.fetchDirectoryContents]. rewrite Hreq.
  unfold bind at 1, Do.
  destruct (env_net E (netCalls w)) as [resp|msg deadline].
  - destruct (rateLimited resp) eqn:Hlim.
    + eexists _, _. split; [reflexivity|]. split; [now apply newEvents_of_trace | reflexivity].
    + destruct Hnet as [|Hst]; [discriminate|].
      destruct (StatusCode resp =? 404).
      * eexists _, _. split; [reflexivity|].
        split; [now apply newEvents_of_trace | reflexivity].
      * destruct (Z.leb_spec 400 (StatusCode resp)) as [_|]; [|lia].
        eexists _, _. split; [reflexivity|].
        split; [now apply newEvents_of_trace | reflexivity].
  - eexists _, _. split; [reflexivity|]. split; [now apply newEvents_of_trace | reflexivity].
Qed.

End WalkBounds.

Lemma flat_walk_is_bounded_witness :
  exists r w',
    Walk.fetchDirectoryContents repositoryEnv defaultConfig repositoryListing map_to_list
      1 "apps/nginx" startWorld
    = Done (Some r) w'
    /\ (List.length (requestsOf (newEvents startWorld w')) <= 1 + 3 * 1)%nat
    /\ (List.length (sleepsOf (newEvents startWorld w')) <= 3 * 1)%nat.
Proof.
  apply (flat_walk_is_bounded repositoryEnv defaultConfig repositoryListing map_to_list
           0 "apps/nginx" startWorld listingResponse
           [mkGitHubContent "file" "deployment.yaml" "apps/nginx/deployment.yaml" "" ""]);
    try reflexivity.
  repeat constructor.
Defined.

Lemma listing_failure_is_final_witness :
  exists text w',
    Walk.fetchDirectoryContents forbiddenEnv defaultConfig repositoryListing map_to_list
      1 "apps/nginx" startWorld
    = Done (Some (Err text)) w'
    /\ newEvents startWorld w' = [EvDo (githubRequest defaultConfig "apps/nginx")]
    /\ text = "GitHub API error (status 403): Resource not accessible".
Proof.
  apply (listing_failure_is_final forbiddenEnv defaultConfig repositoryListing map_to_list
           0 "apps/nginx" startWorld).
  - reflexivity.
  - right. vm_compute. discriminate.
Defined.

(** *** A path that names a file *)

Lemma noSlash_rev (s acc : string) :
  noSlash (GoStrings.rev s acc) = noSlash s && noSlash acc.
Proof.
  revert acc. induction s as [|c s IH]; intros acc; simpl; [reflexivity|].
  rewrite IH. simpl.
  destruct (negb (Ascii.eqb c Filepath.slash)), (noSlash s), (noSlash acc); reflexivity.
Qed.

Lemma untilSlash_append (a b : string) :
  noSlash a = true -> Filepath.untilSlash (a ++ String Filepath.slash b) = a.
Proof.
  induction a as [|c a IH]; intros H.
  - reflexivity.
  - cbn [noSlash] in H. apply andb_true_iff in H as [Hc Ha]. apply negb_true_iff in Hc.
    change (String c a ++ String Filepath.slash b)
      with (String c (a ++ String Filepath.slash b)).
    cbn [Filepath.untilSlash]. now rewrite Hc, (IH Ha).
Qed.

Lemma untilSlash_all (a : string) : noSlash a = true -> Filepath.untilSlash a = a.
Proof.
  induction a as [|c a IH]; simpl; intros H; [reflexivity|].
  apply andb_true_iff in H as [Hc Ha]. apply negb_true_iff in Hc.
  now rewrite Hc, (IH Ha).
Qed.

Lemma stripSlashesRev_noSlash (a b : string) :
  a <> EmptyString -> noSlash a = true ->
  Filepath.stripSlashesRev (a ++ b) = a ++ b.
Proof.
  destruct a as [|c a]; [contradiction|]. simpl. intros _ H.
  apply andb_true_iff in H as [Hc _]. apply negb_true_iff in Hc. now rewrite Hc.
Qed.

Lemma rev_not_empty (s : string) : s <> EmptyString -> GoStrings.rev s "" <> EmptyString.
Proof.
  destruct s as [|c s]; [contradiction|]. intros _. simpl.
  rewrite (rev_acc s (String c "")). now destruct (GoStrings.rev s "").
Qed.

(** The last element of a path that ends in a name. *)
Lemma Base_of_name (dir name : string) :
  name <> EmptyString -> noSlash name = true ->
  Filepath.Base (dir ++ "/" ++ name) = name /\ Filepath.Base name = name.
Proof.
  intros Hne Hns.
  assert (Hrev : noSlash (GoStrings.rev name "") = true)
    by now rewrite noSlash_rev, Hns.
  pose proof (rev_not_empty name Hne) as Hrne.
  assert (Hlast : forall s, s <> EmptyString ->
             (if String.eqb s "" then "/" else s) = s).
  { intros s Hs. now destruct (String.eqb_spec s ""). }
  split.
  - unfold Filepath.Base.
    destruct (dir ++ "/" ++ name) eqn:Hpath.
    { destruct dir; discriminate Hpath. }
    rewrite <- Hpath. clear Hpath.
    replace (dir ++ "/" ++ name) with ((dir ++ "/") ++ name) by now rewrite append_assoc.
    rewrite rev_append, rev_append. change (GoStrings.rev "/" "") with "/".
    rewrite stripSlashesRev_noSlash by assumption.
    change ("/" ++ GoStrings.rev dir "") with (String Filepath.slash (GoStrings.rev dir "")).
    rewrite untilSlash_append by exact Hrev.
    rewrite rev_involutive. now apply Hlast.
  - assert (Hbase : Filepath.Base name
                     = (if String.eqb
                             (GoStrings.rev
                                (Filepath.untilSlash
                                   (Filepath.stripSlashesRev (GoStrings.rev name ""))) "") ""
                        then "/"
                        else GoStrings.rev
                               (Filepath.untilSlash
                                  (Filepath.stripSlashesRev (GoStrings.rev name ""))) ""))
      by (destruct name; [contradiction | reflexivity]).
    rewrite Hbase.
    rewrite <- (append_empty_r (GoStrings.rev name "")).
    rewrite stripSlashesRev_noSlash, append_empty_r by assumption.
    rewrite untilSlash_all by exact Hrev.
    rewrite rev_involutive. now apply Hlast.
Qed.

Section SingleFile.

Variable E : Env.
Variable cfg : Config.
Variable decodeListing : Response -> result (list GitHubContent).
Variable rangeOrder : gmap string string -> list (string * string).

(** X22. When the path asked for names a file, so that the answer of
    GitHub does not decode as a listing, the walk asks for the same path a
    second time; what it then returns on success is the one file, under
    the last element of the path. *)
Theorem path_of_a_file_is_fetched_alone (depth : nat) (dirPath : string) (w : World)
    (resp : Response) (e : string) :
  env_newRequest E "GET" (contentsURL cfg dirPath) = None ->
  env_net E (netCalls w) = DoResp resp ->
  rateLimited resp = false -> StatusCode resp < 400 ->
  decodeListing resp = Err e ->
  exists r w',
    Walk.fetchDirectoryContents E cfg decodeListing rangeOrder (S depth) dirPath w
    = Done (Some r) w'
    /\ newEvents w w' = [EvDo (githubRequest cfg dirPath); EvDo (githubRequest cfg dirPath)]
    /\ (forall files, r = Ok files ->
          exists content, files = {[ Filepath.Base dirPath := content ]})
    /\ (forall dir name,
          dirPath = dir ++ "/" ++ name -> name <> EmptyString -> noSlash name = true ->
          Filepath.Base dirPath = name).
Proof.
  intros Hreq Hnet Hlim Hst Hdec.
  cbn [Walk.fetchDirectoryContents]. rewrite Hreq.
  unfold bind at 1, Do. rewrite Hnet, Hlim.
  destruct (Z.eqb_spec (StatusCode resp) 404) as [|_]; [lia|].
  destruct (Z.leb_spec 400 (StatusCode resp)) as [|_]; [lia|].
  rewrite Hdec. unfold bind at 1.
  set (w1 := mkWorld _ _ _ _ _ (EvDo (githubRequest cfg dirPath) :: trace w)).
  assert (Hsingle : exists single w2,
             Walk.fetchSingleFile E cfg dirPath w1 = Done single w2
             /\ trace w2 = EvDo (githubRequest cfg dirPath) :: trace w1).
  { unfold Walk.fetchSingleFile. rewrite Hreq. unfold bind, Do.
    destruct (env_net E (netCalls w1)) as [resp2|msg deadline];
      [|eexists _, _; split; reflexivity].
    destruct (negb (StatusCode resp2 =? 200)); [eexists _, _; split; reflexivity|].
    destruct (env_decodeContent E resp2) as [content|e2];
      [|eexists _, _; split; reflexivity].
    destruct (_ && _); [|eexists _, _; split; reflexivity].
    destruct (env_base64 E _); eexists _, _; split; reflexivity. }
  destruct Hsingle as (single & w2 & Hrun & Ht).
  exists single, w2. rewrite Hrun. split; [reflexivity|]. split; [|split].
  - apply newEvents_of_trace. rewrite Ht. reflexivity.
  - intros files ->. exact (fetchSingleFile_success E cfg _ _ _ _ Hrun).
  - intros dir name -> Hne Hns. now apply Base_of_name.
Qed.

End SingleFile.

Lemma path_of_a_file_is_fetched_alone_witness :
  exists r w',
    Walk.fetchDirectoryContents fileAtPathEnv defaultConfig repositoryListing map_to_list
      1 "apps/nginx/deployment.yaml" startWorld
    = Done (Some r) w'
    /\ newEvents startWorld w'
       = [EvDo (githubRequest defaultConfig "apps/nginx/deployment.yaml");
          EvDo (githubRequest defaultConfig "apps/nginx/deployment.yaml")]
    /\ (forall files, r = Ok files ->
          exists content,
            files = {[ Filepath.Base "apps/nginx/deployment.yaml" := content ]}).
Proof.
  destruct (path_of_a_file_is_fetched_alone fileAtPathEnv defaultConfig repositoryListing
              map_to_list 0 "apps/nginx/deployment.yaml" startWorld fileResponse
              "json: cannot unmarshal object into Go value of type []main.GitHubContent"
              eq_refl eq_refl eq_refl eq_refl eq_refl)
    as (r & w' & Hrun & Hev & Hfiles & _).
  exists r, w'. split; [exact Hrun|]. split; [exact Hev | exact Hfiles].
Defined.

(** *** From the fetcher to the publisher *)

(** X23. A file that the walk over apps/<namespace> finds at
    apps/<namespace>/<rel> is kept under the key <rel>, and the publisher
    sends an update for that key back to the path the file was fetched
    from; unless <rel> itself starts with apps/<namespace>/, in which case
    the publisher takes the key for a full path and sends the update
    elsewhere. *)
Theorem fetched_files_are_published_in_place (namespace : string) (item : GitHubContent)
    (rel : string) :
  gh_Path item = "apps/" ++ namespace ++ "/" ++ rel -> rel <> EmptyString ->
  Walk.relativePath ("apps/" ++ namespace) item = rel
  /\ (HasPrefix rel ("apps/" ++ namespace ++ "/") = false ->
      qualifyPath namespace rel = gh_Path item)
  /\ (HasPrefix rel ("apps/" ++ namespace ++ "/") = true ->
      qualifyPath namespace rel = rel /\ rel <> gh_Path item).
Proof.
  intros Hpath Hne. split; [|split].
  - unfold Walk.relativePath. rewrite Hpath.
    replace ("apps/" ++ namespace ++ "/" ++ rel)
      with ((("apps/" ++ namespace) ++ "/") ++ rel) by now rewrite !append_assoc.
    rewrite TrimPrefix_append.
    now destruct (String.eqb_spec rel "").
  - intros Hp. unfold qualifyPath. now rewrite Hp, Hpath.
  - intros Hp. split; [now apply qualifyPath_fixed|].
    rewrite Hpath. intros Heq. apply (f_equal String.length) in Heq.
    replace ("apps/" ++ namespace ++ "/" ++ rel)
      with (("apps/" ++ namespace ++ "/") ++ rel) in Heq by now rewrite !append_assoc.
    rewrite !length_append in Heq. simpl in Heq. lia.
Qed.

Lemma fetched_files_are_published_in_place_witness :
  Walk.relativePath ("apps/" ++ "nginx")
    (mkGitHubContent "file" "deployment.yaml" "apps/nginx/deployment.yaml" "" "")
  = "deployment.yaml"
  /\ qualifyPath "nginx" "deployment.yaml" = "apps/nginx/deployment.yaml".
Proof.
  destruct (fetched_files_are_published_in_place "nginx"
              (mkGitHubContent "file" "deployment.yaml" "apps/nginx/deployment.yaml" "" "")
              "deployment.yaml" eq_refl ltac:(discriminate))
    as (Hrel & Hout & _).
  split; [exact Hrel | exact (Hout eq_refl)].
Defined.


(** ** The texts the remediation engine reads and writes *)

(** *** Lower case around ASCII text *)

Lemma ToLower_ascii_cons (c : ascii) (rest : string) :
  (nat_of_ascii c < 128)%nat ->
  ToLower (String c rest) = String (lowerByte c) (ToLower rest).
Proof.
  intros Hc. cbn [ToLower].
  destruct (Nat.eqb_spec (nat_of_ascii c) 196) as [|_]; [lia|].
  destruct (Nat.eqb_spec (nat_of_ascii c) 226) as [|_]; [lia|].
  cbn [andb]. destruct rest as [|b1 [|b2 s3]]; reflexivity.
Qed.

Lemma ToLower_ascii (x rest : string) :
  allAscii x = true -> ToLower (x ++ rest) = lowerAscii x ++ ToLower rest.
Proof.
  induction x as [|c x IH]; intros Hx; [reflexivity|].
  cbn [allAscii] in Hx. apply andb_true_iff in Hx as [Hc Hx]. apply Nat.ltb_lt in Hc.
  change (String c x ++ rest) with (String c (x ++ rest)).
  rewrite ToLower_ascii_cons by exact Hc. cbn [lowerAscii].
  change (String (lowerByte c) (lowerAscii x) ++ ToLower rest)
    with (String (lowerByte c) (lowerAscii x ++ ToLower rest)).
  now rewrite IH.
Qed.

Lemma ToLower_two (b0 b1 : ascii) (s2 : string) :
  ToLower (String b0 (String b1 s2))
  = if ((nat_of_ascii b0 =? 196) && (nat_of_ascii b1 =? 176))%nat
    then String (byte 105) (ToLower s2)
    else match s2 with
         | String b2 s3 =>
             if ((nat_of_ascii b0 =? 226) && (nat_of_ascii b1 =? 132)
                 && (nat_of_ascii b2 =? 170))%nat
             then String (byte 107) (ToLower s3)
             else String (lowerByte b0) (ToLower (String b1 s2))
         | EmptyString => String (lowerByte b0) (ToLower (String b1 s2))
         end.
Proof. reflexivity. Qed.

(** What precedes an ASCII byte is put in lower case on its own. *)
Lemma ToLower_before_ascii (n : nat) (a : string) (c : ascii) (rest : string) :
  (String.length a <= n)%nat -> (nat_of_ascii c < 128)%nat ->
  ToLower (a ++ String c rest) = ToLower a ++ ToLower (String c rest).
Proof.
  intros Hn Hc. revert a Hn. induction n as [|n IH]; intros a Hn.
  - destruct a; [reflexivity | simpl in Hn; lia].
  - destruct a as [|b0 [|b1 [|b2 a3]]]; [reflexivity| | |].
    + change (String b0 "" ++ String c rest) with (String b0 (String c rest)).
      rewrite ToLower_two.
      destruct (Nat.eqb_spec (nat_of_ascii c) 176) as [|_]; [lia|].
      destruct (Nat.eqb_spec (nat_of_ascii c) 132) as [|_]; [lia|].
      rewrite !andb_false_r. cbn [andb].
      destruct rest as [|b2 s3]; reflexivity.
    + change (String b0 (String b1 "") ++ String c rest)
        with (String b0 (String b1 (String c rest))).
      rewrite (ToLower_two b0 b1 (String c rest)), (ToLower_two b0 b1 "").
      destruct ((nat_of_ascii b0 =? 196)%nat && (nat_of_ascii b1 =? 176)%nat);
        [reflexivity|].
      destruct (Nat.eqb_spec (nat_of_ascii c) 170) as [|_]; [lia|].
      rewrite andb_false_r.
      change (String b1 (String c rest)) with (String b1 "" ++ String c rest).
      rewrite (IH (String b1 "")) by (simpl in *; lia). reflexivity.
    + cbn [String.length] in Hn.
      change (String b0 (String b1 (String b2 a3)) ++ String c rest)
        with (String b0 (String b1 (String b2 (a3 ++ String c rest)))).
      rewrite (ToLower_two b0 b1 (String b2 (a3 ++ String c rest))).
      rewrite (ToLower_two b0 b1 (String b2 a3)).
      destruct ((nat_of_ascii b0 =? 196)%nat && (nat_of_ascii b1 =? 176)%nat).
      { change (String b2 (a3 ++ String c rest)) with (String b2 a3 ++ String c rest).
        rewrite (IH (String b2 a3)) by (simpl; lia). reflexivity. }
      destruct ((nat_of_ascii b0 =? 226)%nat && (nat_of_ascii b1 =? 132)%nat
                && (nat_of_ascii b2 =? 170)%nat).
      { rewrite (IH a3) by lia. reflexivity. }
      change (String b1 (String b2 (a3 ++ String c rest)))
        with (String b1 (String b2 a3) ++ String c rest).
      rewrite (IH (String b1 (String b2 a3))) by (simpl; lia). reflexivity.
Qed.

(** X25. The text that says a container ran out of memory is found in
    any letter case and anywhere in the solution: a solution that holds an
    ASCII word which reads "oomkilled" or "out of memory" in small letters
    is treated as an out-of-memory case. *)
Theorem isOOM_finds_the_word (before word after : string) :
  allAscii word = true ->
  lowerAscii word = "oomkilled" \/ lowerAscii word = "out of memory" ->
  isOOM (before ++ word ++ after) = true.
Proof.
  intros Hascii Hword.
  assert (Hlower : ToLower (before ++ word ++ after)
                   = ToLower before ++ lowerAscii word ++ ToLower after).
  { destruct word as [|c word].
    { destruct Hword as [H|H]; discriminate H. }
    change (String c word ++ after) with (String c (word ++ after)).
    pose proof Hascii as Hc. cbn [allAscii] in Hc.
    apply andb_true_iff in Hc as [Hc _]. apply Nat.ltb_lt in Hc.
    rewrite (ToLower_before_ascii _ before c (word ++ after) (le_n _) Hc).
    change (String c (word ++ after)) with (String c word ++ after).
    now rewrite ToLower_ascii. }
  unfold isOOM. rewrite Hlower. apply orb_true_iff.
  destruct Hword as [-> | ->]; [left | right]; apply Contains_infix.
Qed.

Lemma isOOM_finds_the_word_witness :
  isOOM ("The container was " ++ "OOMKilled" ++ ": raise its limit.") = true.
Proof.
  apply isOOM_finds_the_word.
  - reflexivity.
  - left. reflexivity.
Defined.

(** *** The prompt *)

Lemma relatedFiles_holds (files : list (string * string)) (filename fileContent : string) :
  In (filename, fileContent) files ->
  exists a b,
    relatedFiles files
    = a ++ ("## " ++ filename ++ nl ++ "```yaml" ++ nl ++ fileContent ++ nl ++ "```" ++ nl ++ nl)
        ++ b.
Proof.
  induction files as [|[name content] rest IH]; [intros []|].
  intros [[= -> ->]|Hin].
  - exists EmptyString, (relatedFiles rest). cbn [relatedFiles].
    now rewrite !append_assoc.
  - destruct (IH Hin) as (a & b & Hab).
    exists ("## " ++ name ++ nl ++ "```yaml" ++ nl ++ content ++ nl ++ "```" ++ nl ++ nl ++ a), b.
    cbn [relatedFiles]. rewrite Hab. now rewrite !append_assoc.
Qed.

(** X26. The prompt sent to the inference endpoint holds the solution
    text, then every file handed in, under a heading with its name and in
    a yaml block with its whole content, and ends with the instructions
    for the answer. *)
Theorem prompt_holds_every_file (files : list (string * string)) (solution : string) :
  HasPrefix (promptContent files solution)
            ("# Problem Solution from K8SGPT" ++ nl ++ nl ++ solution ++ nl ++ nl
             ++ "# Related Files" ++ nl ++ nl) = true
  /\ (forall filename fileContent,
        In (filename, fileContent) files ->
        Contains (promptContent files solution)
                 ("## " ++ filename ++ nl ++ "```yaml" ++ nl ++ fileContent ++ nl
                  ++ "```" ++ nl ++ nl) = true)
  /\ HasSuffix (promptContent files solution) responseInstructions = true.
Proof.
  split; [|split].
  - unfold promptContent.
    replace ("# Problem Solution from K8SGPT" ++ nl ++ nl ++ solution ++ nl ++ nl
             ++ "# Related Files" ++ nl ++ nl ++ relatedFiles files ++ responseInstructions)
      with (("# Problem Solution from K8SGPT" ++ nl ++ nl ++ solution ++ nl ++ nl
             ++ "# Related Files" ++ nl ++ nl) ++ relatedFiles files ++ responseInstructions)
      by now rewrite !append_assoc.
    apply HasPrefix_append.
  - intros filename fileContent Hin.
    destruct (relatedFiles_holds files filename fileContent Hin) as (a & b & Hab).
    unfold promptContent. rewrite Hab.
    do 9 apply Contains_append_r. apply Contains_append_l, Contains_infix.
  - unfold promptContent, HasSuffix.
    set (front := "# Problem Solution from K8SGPT" ++ nl ++ nl ++ solution ++ nl ++ nl
                  ++ "# Related Files" ++ nl ++ nl ++ relatedFiles files).
    replace ("# Problem Solution from K8SGPT" ++ nl ++ nl ++ solution ++ nl ++ nl
             ++ "# Related Files" ++ nl ++ nl ++ relatedFiles files ++ responseInstructions)
      with (front ++ responseInstructions)
      by (unfold front; now rewrite !append_assoc).
    rewrite length_append.
    replace (String.length front + String.length responseInstructions
             - String.length responseInstructions)%nat
      with (String.length front) by lia.
    rewrite drop_append_length, String.eqb_refl, andb_true_r.
    apply Nat.leb_le. lia.
Qed.

(** ** The waits between the attempts on the inference endpoint *)

Lemma backoffTime_table :
  forallb (fun k => backoffTime (Z.of_nat k)
                    =? Z.min (2 ^ Z.of_nat k * Second) (30 * Second))
          (List.seq 0 34) = true.
Proof. vm_compute. reflexivity. Qed.

Lemma shiftSeconds_large (attempt : Z) : 62 <= attempt -> shiftSeconds attempt = 0.
Proof.
  intros H. unfold shiftSeconds.
  destruct (Z.ltb_spec attempt 64) as [Hlt|]; [|reflexivity].
  assert (Hcase : attempt = 62 \/ attempt = 63) by lia.
  destruct Hcase as [-> | ->]; reflexivity.
Qed.

(** X27. Before attempt number k, counted from 0, the call waits
    2^k seconds, capped at thirty: 2s, 4s, 8s, 16s, then 30s up to attempt
    33.  From attempt 34 on the product leaves the range of a Duration:
    the wait computed for attempt 34 is negative, and from attempt 62 on it
    is zero, so that these attempts follow without a pause. *)
Theorem backoff_schedule :
  (forall attempt,
      0 <= attempt <= 33 ->
      backoffTime attempt = Z.min (2 ^ attempt * Second) (30 * Second))
  /\ backoffTime 34 < 0
  /\ (forall attempt, 62 <= attempt -> backoffTime attempt = 0).
Proof.
  split; [|split].
  - intros attempt Hk.
    pose proof backoffTime_table as Htable.
    rewrite forallb_forall in Htable.
    specialize (Htable (Z.to_nat attempt)).
    rewrite Z2Nat.id in Htable by lia.
    apply Z.eqb_eq, Htable, in_seq. lia.
  - vm_compute. reflexivity.
  - intros attempt Hk. unfold backoffTime. rewrite shiftSeconds_large by exact Hk.
    reflexivity.
Qed.

(** ** The files of a subdirectory *)

Lemma Split_slash_single (x : string) :
  noSlash x = true -> Split x Filepath.slash = [x].
Proof.
  induction x as [|c x IH]; [reflexivity|]. cbn [noSlash Split]. intros H.
  apply andb_true_iff in H as [Hc Hx]. apply negb_true_iff in Hc.
  now rewrite Hc, (IH Hx).
Qed.

Lemma Split_slash_append (x t : string) :
  noSlash x = true ->
  Split (x ++ String Filepath.slash t) Filepath.slash = x :: Split t Filepath.slash.
Proof.
  induction x as [|c x IH]; intros H.
  - change ("" ++ String Filepath.slash t) with (String Filepath.slash t).
    cbn [Split]. now rewrite Ascii.eqb_refl.
  - cbn [noSlash] in H. apply andb_true_iff in H as [Hc Hx]. apply negb_true_iff in Hc.
    change (String c x ++ String Filepath.slash t)
      with (String c (x ++ String Filepath.slash t)).
    cbn [Split]. now rewrite Hc, (IH Hx).
Qed.

Lemma plainElem_noSlash (e : string) : plainElem e = true -> noSlash e = true.
Proof.
  unfold plainElem. intros H. apply andb_true_iff in H as [H _].
  apply andb_true_iff in H as [H _]. now apply andb_true_iff in H as [_ H].
Qed.

Lemma Split_Join_slash (elems : list string) :
  elems <> [] -> Forall (fun e => plainElem e = true) elems ->
  Split (Join elems "/") Filepath.slash = elems.
Proof.
  induction elems as [|x rest IH]; [contradiction|]. intros _ Hall.
  inversion Hall as [|? ? Hx Hrest]; subst.
  destruct rest as [|y rest].
  - simpl. now apply Split_slash_single, plainElem_noSlash.
  - change (Join (x :: y :: rest) "/")
      with (x ++ String Filepath.slash (Join (y :: rest) "/")).
    rewrite Split_slash_append by now apply plainElem_noSlash.
    f_equal. now apply IH.
Qed.

Lemma cleanElems_plain (elems out : list string) (kept : nat) :
  Forall (fun e => plainElem e = true) elems ->
  Filepath.cleanElems false elems out kept = (List.rev elems ++ out)%list.
Proof.
  intros Hall. revert out. induction Hall as [|e rest He _ IH]; intros out; [reflexivity|].
  cbn [Filepath.cleanElems]. unfold plainElem in He.
  apply andb_true_iff in He as [He Hdd]. apply andb_true_iff in He as [He Hd].
  apply andb_true_iff in He as [Hne _].
  apply negb_true_iff in Hne, Hd, Hdd.
  unfold Filepath.dotdot. rewrite Hne, Hd, Hdd. cbn [orb].
  rewrite IH. cbn [List.rev]. now rewrite <- List.app_assoc.
Qed.

Lemma Join_not_empty (elems : list string) :
  elems <> [] -> Forall (fun e => plainElem e = true) elems ->
  exists c s, Join elems "/" = String c s /\ Ascii.eqb c Filepath.slash = false.
Proof.
  destruct elems as [|x rest]; [contradiction|]. intros _ Hall.
  inversion Hall as [|? ? Hx _]; subst.
  pose proof (plainElem_noSlash x Hx) as Hns.
  unfold plainElem in Hx. apply andb_true_iff in Hx as [Hx _].
  apply andb_true_iff in Hx as [Hx _]. apply andb_true_iff in Hx as [Hne _].
  destruct x as [|c x]; [discriminate Hne|].
  cbn [noSlash] in Hns. apply andb_true_iff in Hns as [Hc _]. apply negb_true_iff in Hc.
  destruct rest as [|y rest]; [now exists c, x|].
  exists c, (x ++ "/" ++ Join (y :: rest) "/"). split; [reflexivity | exact Hc].
Qed.

(** [filepath.Clean] keeps a clean relative path. *)
Lemma Clean_plain (elems : list string) :
  elems <> [] -> Forall (fun e => plainElem e = true) elems ->
  Filepath.Clean (Join elems "/") = Join elems "/".
Proof.
  intros Hne Hall.
  destruct (Join_not_empty elems Hne Hall) as (c & s & Hj & Hc).
  unfold Filepath.Clean. rewrite Hj, Hc. rewrite <- Hj.
  rewrite Split_Join_slash, cleanElems_plain by assumption.
  rewrite List.app_nil_r, List.rev_involutive.
  rewrite Hj. reflexivity.
Qed.

Lemma Join2_plain (sub rel : string) :
  plainElem sub = true -> cleanRelative rel ->
  Filepath.Join2 sub rel = sub ++ "/" ++ rel /\ cleanRelative (sub ++ "/" ++ rel).
Proof.
  intros Hsub (elems & Hne & Hall & ->).
  assert (Hjoin : sub ++ "/" ++ Join elems "/" = Join (sub :: elems) "/")
    by (destruct elems; [contradiction | reflexivity]).
  split.
  - unfold Filepath.Join2.
    assert (Hs : String.eqb sub "" = false).
    { unfold plainElem in Hsub. apply andb_true_iff in Hsub as [Hsub _].
      apply andb_true_iff in Hsub as [Hsub _]. apply andb_true_iff in Hsub as [Hsub _].
      now apply negb_true_iff. }
    rewrite Hs. cbn [negb]. rewrite Hjoin.
    apply Clean_plain; [discriminate | now constructor].
  - exists (sub :: elems). split; [discriminate|]. split; [now constructor | exact Hjoin].
Qed.

(** *** Adding the entries one after the other *)

Lemma fold_insert_other (f : string -> string) (l : list (string * string))
    (files : gmap string string) (k : string) :
  (forall entry, In entry l -> f (fst entry) <> k) ->
  fold_left (fun files entry => <[f (fst entry) := snd entry]> files) l files !! k
  = files !! k.
Proof.
  revert files. induction l as [|entry l IH]; intros files Hk; [reflexivity|].
  cbn [fold_left]. rewrite IH by (intros e He; apply Hk; now right).
  apply lookup_insert_ne, Hk. now left.
Qed.

Lemma fold_insert_entry (f : string -> string) (l : list (string * string))
    (files : gmap string string) (name content : string) :
  (forall a b, f a = f b -> a = b) ->
  List.NoDup (List.map fst l) -> In (name, content) l ->
  fold_left (fun files entry => <[f (fst entry) := snd entry]> files) l files !! f name
  = Some content.
Proof.
  intros Hinj. revert files. induction l as [|entry l IH]; intros files Hnd Hin; [destruct Hin|].
  cbn [List.map] in Hnd. apply List.NoDup_cons_iff in Hnd as [Hfresh Hnd].
  cbn [fold_left]. destruct Hin as [->|Hin].
  - rewrite fold_insert_other; [apply lookup_insert_eq|].
    intros e He Heq. apply Hinj in Heq. apply Hfresh.
    cbn [fst] in *. rewrite <- Heq. now apply List.in_map.
  - now apply IH.
Qed.

Section SubDirectories.

Variable rangeOrder : gmap string string -> list (string * string).

(** The loop visits the entries of the map, each once, in some order. *)
Hypothesis rangeOrder_permutation : forall m, rangeOrder m ≡ₚ map_to_list m.

Lemma rangeOrder_entries (m : gmap string string) (name content : string) :
  In (name, content) (rangeOrder m) <-> m !! name = Some content.
Proof.
  rewrite <- list_elem_of_In, (rangeOrder_permutation m). apply elem_of_map_to_list.
Qed.

Lemma rangeOrder_NoDup (m : gmap string string) : List.NoDup (List.map fst (rangeOrder m)).
Proof.
  apply NoDup_ListNoDup.
  pose proof (NoDup_fst_map_to_list m) as Hnd.
  assert (Hperm : List.map fst (rangeOrder m) ≡ₚ (map_to_list m).*1)
    by apply fmap_Permutation, rangeOrder_permutation.
  now rewrite Hperm.
Qed.

(** X28. The files of a subdirectory are added to the map of the
    directory under the name of the subdirectory: when the subdirectory
    lies at <dirPath>/<sub> and its files are known by clean relative
    paths, each of them is found under <sub>/<its path>, whatever order
    the loop takes, and every other key of the map keeps its file. *)
Theorem subdirectory_files_are_prefixed (dirPath sub : string) (item : GitHubContent)
    (subDirFiles files : gmap string string) :
  gh_Path item = dirPath ++ "/" ++ sub -> plainElem sub = true ->
  (forall name content, subDirFiles !! name = Some content -> cleanRelative name) ->
  (forall name content,
      subDirFiles !! name = Some content ->
      Walk.addSubDirFiles rangeOrder dirPath item subDirFiles files !! (sub ++ "/" ++ name)
      = Some content
      /\ cleanRelative (sub ++ "/" ++ name))
  /\ (forall key,
        (forall name, is_Some (subDirFiles !! name) -> key <> sub ++ "/" ++ name) ->
        Walk.addSubDirFiles rangeOrder dirPath item subDirFiles files !! key = files !! key).
Proof.
  intros Hpath Hsub Hclean.
  assert (Hprefix : TrimPrefix (gh_Path item) (dirPath ++ "/") = sub).
  { rewrite Hpath. replace (dirPath ++ "/" ++ sub) with ((dirPath ++ "/") ++ sub)
      by now rewrite append_assoc.
    apply TrimPrefix_append. }
  assert (Hfold :
            Walk.addSubDirFiles rangeOrder dirPath item subDirFiles files
            = fold_left (fun files entry => <[sub ++ "/" ++ fst entry := snd entry]> files)
                        (rangeOrder subDirFiles) files).
  { unfold Walk.addSubDirFiles. rewrite Hprefix.
    assert (Hl : forall entry, In entry (rangeOrder subDirFiles) ->
                               cleanRelative (fst entry)).
    { intros [name content] Hin. apply rangeOrder_entries in Hin. simpl. eauto. }
    revert files Hl. generalize (rangeOrder subDirFiles) as l.
    induction l as [|entry l IH]; intros files Hl; [reflexivity|].
    cbn [fold_left].
    rewrite (proj1 (Join2_plain sub (fst entry) Hsub (Hl entry (or_introl eq_refl)))).
    apply IH. intros e He. apply Hl. now right. }
  rewrite Hfold. split.
  - intros name content Hname. split.
    + apply (fold_insert_entry (fun name => sub ++ "/" ++ name)).
      * intros a b Hab.
        apply (f_equal (drop (String.length (sub ++ "/")))) in Hab.
        rewrite <- !append_assoc, !drop_append_length in Hab. exact Hab.
      * apply rangeOrder_NoDup.
      * now apply rangeOrder_entries.
    + apply (Join2_plain sub name Hsub). eauto.
  - intros key Hkey.
    apply (fold_insert_other (fun name => sub ++ "/" ++ name)).
    intros [name content] Hin Heq. apply rangeOrder_entries in Hin.
    apply (Hkey name); [now exists content | now symmetry].
Qed.

End SubDirectories.

Lemma subdirectory_files_are_prefixed_witness :
  Walk.addSubDirFiles map_to_list "apps/nginx"
    (mkGitHubContent "dir" "base" "apps/nginx/base" "" "")
    {[ "deployment.yaml" := "kind: Deployment" ]} ∅
    !! "base/deployment.yaml"
  = Some "kind: Deployment".
Proof.
  assert (Hclean : forall name content : string,
             ({[ "deployment.yaml" := "kind: Deployment" ]} : gmap string string) !! name
             = Some content ->
             cleanRelative name).
  { intros name content Hname. apply lookup_singleton_Some in Hname as [<- _].
    exists ["deployment.yaml"]. split; [discriminate|]. split; [|reflexivity].
    repeat constructor. }
  apply (proj1 (subdirectory_files_are_prefixed map_to_list (fun m => reflexivity _)
                  "apps/nginx" "base"
                  (mkGitHubContent "dir" "base" "apps/nginx/base" "" "")
                  {[ "deployment.yaml" := "kind: Deployment" ]} ∅ eq_refl eq_refl Hclean)
               "deployment.yaml" "kind: Deployment").
  apply lookup_singleton_eq.
Defined.
